(** * Greenhouse forest landing page: ForestScroller and ForestAmbient

    A shallow embedding of [assets/js/forest-scroller.js] (the canvas image
    sequence player) and of the [ForestAmbient] overlay, and the proofs of
    the properties stated about them.

    JavaScript numbers are modelled by exact rationals [Q]: the arithmetic
    of the sources (sums, products, comparisons, [Math.floor], [Math.round],
    [Math.min], [Math.max], [Math.abs]) is all rational, so the functions
    below compute.  Rounding error of IEEE doubles, [NaN] and the infinities
    are outside the model.  Equality of numbers is [Qeq] (written [==]). *)

From Stdlib Require Import ZArith QArith Qround Qabs Lqa Lia List String Permutation.
From Stdlib Require Import Ascii DecimalString DecimalZ.
From stdpp Require Import base gmap.

(** ** JavaScript primitives used by the two classes *)

Module JS.
Local Open Scope Q_scope.

(** [x < y] on numbers, as a boolean. *)
Definition Qltb (x y : Q) : bool := negb (Qle_bool y x).

Definition Math_max (a b : Q) : Q := if Qltb a b then b else a.
Definition Math_min (a b : Q) : Q := if Qltb b a then b else a.
Definition Math_abs (x : Q) : Q := Qabs x.
Definition Math_floor (x : Q) : Q := inject_Z (Qfloor x).
Definition Math_ceil (x : Q) : Q := inject_Z (Qceiling x).

(** [Math.round] rounds to the nearest integer, halves towards +infinity. *)
Definition Math_round (x : Q) : Q := inject_Z (Qfloor (x + (1 # 2))).

Definition Math_pow (x : Q) (n : Z) : Q := Qpower x n.

(** Truthiness of a number: everything but zero. *)
Definition truthy (x : Q) : bool := negb (Qeq_bool x 0).

(** [o || d] for an optional numeric option: [undefined] and [0] are
    falsy, so both give the default. *)
Definition orQ (o : option Q) (d : Q) : Q :=
  match o with
  | Some v => if truthy v then v else d
  | None => d
  end.

Definition orZ (o : option Z) (d : Z) : Z :=
  match o with
  | Some v => if (v =? 0)%Z then d else v
  | None => d
  end.

(** [o || d] for an optional string: the empty string is falsy. *)
Definition orS (o : option string) (d : string) : string :=
  match o with
  | Some EmptyString => d
  | Some v => v
  | None => d
  end.

(** [o || false] / [o || null] for a callback or flag that is either
    supplied or not. *)
Definition orB (o : option bool) : bool :=
  match o with
  | Some b => b
  | None => false
  end.

(** [Math.PI], the double nearest to pi, which is this rational. *)
Definition Math_PI : Q := 884279719003555 # 281474976710656.

(** [String(n)] for an integer [n]. *)
Definition String_of_int (n : Z) : string := NilZero.string_of_int (Z.to_int n).

(** A string of [n] zeros. *)
Fixpoint zeros (n : nat) : string :=
  match n with
  | O => EmptyString
  | S n' => String "0" (zeros n')
  end.

(** [s.padStart(targetLength, '0')] *)
Definition padStart (targetLength : nat) (s : string) : string :=
  String.append (zeros (targetLength - String.length s)) s.

(** The integer written by a string made of an optional minus sign and
    decimal digits, as [parseInt(s, 10)] reads it. *)
Definition parseInt (s : string) : option Z :=
  option_map Z.of_int (NilZero.int_of_string s).
End JS.

(** ** ForestScroller: data model *)

Module ForestScroller.
Import JS.
Local Open Scope Q_scope.

Inductive ImageFormat := webp | jpg.

(** The [options] object given to the constructor; every key is optional.
    A callback is represented by whether one was supplied: its calls are
    recorded in the state's [calls] trace. *)
Record Options := {
  opt_canvasId : option string;
  opt_imagePath : option string;
  opt_imagePrefix : option string;
  opt_imageFormat : option ImageFormat;
  opt_totalFrames : option Z;
  opt_smoothing : option Q;
  opt_preloadCount : option Z;
  opt_mobileFrameCount : option Z;
  opt_mobileBreakpoint : option Q;
  opt_onLoad : option bool;
  opt_onProgress : option bool;
  opt_onReady : option bool;
  opt_onError : option bool
}.

(** [this.config] *)
Record Config := {
  canvasId : string;
  imagePath : string;
  imagePrefix : string;
  imageFormat : ImageFormat;
  totalFrames : Z;
  smoothing : Q;
  preloadCount : Z;
  mobileFrameCount : Z;
  mobileBreakpoint : Q;
  onLoad : bool;
  onProgress : bool;
  onReady : bool;
  onError : bool
}.

(** A decoded image: the frame it was loaded for and its pixel size.  Only
    images whose [onload] fired are ever stored, so [img.complete] holds
    for every stored image and is not represented. *)
Record Image := {
  src : Z;
  naturalWidth : Q;
  naturalHeight : Q
}.

Inductive Error :=
| CanvasNotFound (id : string)
| FrameLoadFailed (index : Z).

(** Invocations of the caller's callbacks, in the order they happen. *)
Inductive Call :=
| CallProgress (progress : Q) (loaded total : Z)
| CallLoad
| CallReady
| CallError (e : Error).

(** What [calculateCoverDimensions] returns. *)
Record Dimensions := {
  drawWidth : Q;
  drawHeight : Q;
  offsetX : Q;
  offsetY : Q
}.

(** What has been painted on the canvas since it was last cleared. *)
Inductive Layer :=
| DrawImage (img : Image) (alpha : Q) (d : Dimensions)
| FillTint (greenIntensity : Q) (w h : Q)
| FillGlow (cx cy radius : Q) (w h : Q).

(** The window and document globals the class reads. *)
Record Window := {
  innerWidth : Q;
  innerHeight : Q;
  pageYOffset : Q;
  scrollHeight : Q;          (* document.documentElement.scrollHeight *)
  canvasFound : bool;        (* document.getElementById(canvasId) *)
  clientWidth : Q;           (* layout size of the canvas *)
  clientHeight : Q
}.

(** The instance, together with the things it acts on: the image requests
    it has issued and that have not settled yet ([inflight]), the canvas
    contents ([painted]) and the caller's callbacks ([calls]).  [this.canvas]
    and [this.ctx] are set and cleared together; [ctx] stands for both.
    [previousFrame] is initialised to 0 by the constructor and never read
    or written again; it is left out. *)
Record Scroller := {
  config : Config;
  ctx : bool;                          (* this.ctx is not null *)
  images : gmap Z Image;               (* this.images, a sparse array *)
  loadedImages : gset Z;
  currentFrame : Q;
  targetFrame : Q;
  isLoading : bool;
  loadedCount : Z;
  isMobile : bool;
  animationFrameId : option nat;
  supportsWebP : option bool;
  velocity : Q;
  lastScrollY : Q;
  scrollVelocity : Q;
  lastFrameTime : Q;
  fps : Q;
  inflight : list Z;                   (* image requests not yet settled *)
  painted : list Layer;
  calls : list Call
}.

(** *** Field updates *)

Definition set_imageFormat (v : ImageFormat) (c : Config) : Config :=
  {| canvasId := canvasId c; imagePath := imagePath c; imagePrefix :=
     imagePrefix c; imageFormat := v; totalFrames := totalFrames c; smoothing
     := smoothing c; preloadCount := preloadCount c; mobileFrameCount :=
     mobileFrameCount c; mobileBreakpoint := mobileBreakpoint c; onLoad :=
     onLoad c; onProgress := onProgress c; onReady := onReady c; onError :=
     onError c |}.

Definition set_totalFrames (v : Z) (c : Config) : Config :=
  {| canvasId := canvasId c; imagePath := imagePath c; imagePrefix :=
     imagePrefix c; imageFormat := imageFormat c; totalFrames := v; smoothing
     := smoothing c; preloadCount := preloadCount c; mobileFrameCount :=
     mobileFrameCount c; mobileBreakpoint := mobileBreakpoint c; onLoad :=
     onLoad c; onProgress := onProgress c; onReady := onReady c; onError :=
     onError c |}.

Definition set_smoothing (v : Q) (c : Config) : Config :=
  {| canvasId := canvasId c; imagePath := imagePath c; imagePrefix :=
     imagePrefix c; imageFormat := imageFormat c; totalFrames := totalFrames c;
     smoothing := v; preloadCount := preloadCount c; mobileFrameCount :=
     mobileFrameCount c; mobileBreakpoint := mobileBreakpoint c; onLoad :=
     onLoad c; onProgress := onProgress c; onReady := onReady c; onError :=
     onError c |}.

Definition set_config (v : Config) (s : Scroller) : Scroller :=
  {| config := v; ctx := ctx s; images := images s; loadedImages :=
     loadedImages s; currentFrame := currentFrame s; targetFrame := targetFrame
     s; isLoading := isLoading s; loadedCount := loadedCount s; isMobile :=
     isMobile s; animationFrameId := animationFrameId s; supportsWebP :=
     supportsWebP s; velocity := velocity s; lastScrollY := lastScrollY s;
     scrollVelocity := scrollVelocity s; lastFrameTime := lastFrameTime s; fps
     := fps s; inflight := inflight s; painted := painted s; calls := calls s |}.

Definition set_ctx (v : bool) (s : Scroller) : Scroller :=
  {| config := config s; ctx := v; images := images s; loadedImages :=
     loadedImages s; currentFrame := currentFrame s; targetFrame := targetFrame
     s; isLoading := isLoading s; loadedCount := loadedCount s; isMobile :=
     isMobile s; animationFrameId := animationFrameId s; supportsWebP :=
     supportsWebP s; velocity := velocity s; lastScrollY := lastScrollY s;
     scrollVelocity := scrollVelocity s; lastFrameTime := lastFrameTime s; fps
     := fps s; inflight := inflight s; painted := painted s; calls := calls s |}.

Definition set_images (v : gmap Z Image) (s : Scroller) : Scroller :=
  {| config := config s; ctx := ctx s; images := v; loadedImages :=
     loadedImages s; currentFrame := currentFrame s; targetFrame := targetFrame
     s; isLoading := isLoading s; loadedCount := loadedCount s; isMobile :=
     isMobile s; animationFrameId := animationFrameId s; supportsWebP :=
     supportsWebP s; velocity := velocity s; lastScrollY := lastScrollY s;
     scrollVelocity := scrollVelocity s; lastFrameTime := lastFrameTime s; fps
     := fps s; inflight := inflight s; painted := painted s; calls := calls s |}.

Definition set_loadedImages (v : gset Z) (s : Scroller) : Scroller :=
  {| config := config s; ctx := ctx s; images := images s; loadedImages := v;
     currentFrame := currentFrame s; targetFrame := targetFrame s; isLoading :=
     isLoading s; loadedCount := loadedCount s; isMobile := isMobile s;
     animationFrameId := animationFrameId s; supportsWebP := supportsWebP s;
     velocity := velocity s; lastScrollY := lastScrollY s; scrollVelocity :=
     scrollVelocity s; lastFrameTime := lastFrameTime s; fps := fps s; inflight
     := inflight s; painted := painted s; calls := calls s |}.

Definition set_currentFrame (v : Q) (s : Scroller) : Scroller :=
  {| config := config s; ctx := ctx s; images := images s; loadedImages :=
     loadedImages s; currentFrame := v; targetFrame := targetFrame s; isLoading
     := isLoading s; loadedCount := loadedCount s; isMobile := isMobile s;
     animationFrameId := animationFrameId s; supportsWebP := supportsWebP s;
     velocity := velocity s; lastScrollY := lastScrollY s; scrollVelocity :=
     scrollVelocity s; lastFrameTime := lastFrameTime s; fps := fps s; inflight
     := inflight s; painted := painted s; calls := calls s |}.

Definition set_targetFrame (v : Q) (s : Scroller) : Scroller :=
  {| config := config s; ctx := ctx s; images := images s; loadedImages :=
     loadedImages s; currentFrame := currentFrame s; targetFrame := v;
     isLoading := isLoading s; loadedCount := loadedCount s; isMobile :=
     isMobile s; animationFrameId := animationFrameId s; supportsWebP :=
     supportsWebP s; velocity := velocity s; lastScrollY := lastScrollY s;
     scrollVelocity := scrollVelocity s; lastFrameTime := lastFrameTime s; fps
     := fps s; inflight := inflight s; painted := painted s; calls := calls s |}.

Definition set_isLoading (v : bool) (s : Scroller) : Scroller :=
  {| config := config s; ctx := ctx s; images := images s; loadedImages :=
     loadedImages s; currentFrame := currentFrame s; targetFrame := targetFrame
     s; isLoading := v; loadedCount := loadedCount s; isMobile := isMobile s;
     animationFrameId := animationFrameId s; supportsWebP := supportsWebP s;
     velocity := velocity s; lastScrollY := lastScrollY s; scrollVelocity :=
     scrollVelocity s; lastFrameTime := lastFrameTime s; fps := fps s; inflight
     := inflight s; painted := painted s; calls := calls s |}.

Definition set_loadedCount (v : Z) (s : Scroller) : Scroller :=
  {| config := config s; ctx := ctx s; images := images s; loadedImages :=
     loadedImages s; currentFrame := currentFrame s; targetFrame := targetFrame
     s; isLoading := isLoading s; loadedCount := v; isMobile := isMobile s;
     animationFrameId := animationFrameId s; supportsWebP := supportsWebP s;
     velocity := velocity s; lastScrollY := lastScrollY s; scrollVelocity :=
     scrollVelocity s; lastFrameTime := lastFrameTime s; fps := fps s; inflight
     := inflight s; painted := painted s; calls := calls s |}.

Definition set_isMobile (v : bool) (s : Scroller) : Scroller :=
  {| config := config s; ctx := ctx s; images := images s; loadedImages :=
     loadedImages s; currentFrame := currentFrame s; targetFrame := targetFrame
     s; isLoading := isLoading s; loadedCount := loadedCount s; isMobile := v;
     animationFrameId := animationFrameId s; supportsWebP := supportsWebP s;
     velocity := velocity s; lastScrollY := lastScrollY s; scrollVelocity :=
     scrollVelocity s; lastFrameTime := lastFrameTime s; fps := fps s; inflight
     := inflight s; painted := painted s; calls := calls s |}.

Definition set_animationFrameId (v : option nat) (s : Scroller) : Scroller :=
  {| config := config s; ctx := ctx s; images := images s; loadedImages :=
     loadedImages s; currentFrame := currentFrame s; targetFrame := targetFrame
     s; isLoading := isLoading s; loadedCount := loadedCount s; isMobile :=
     isMobile s; animationFrameId := v; supportsWebP := supportsWebP s;
     velocity := velocity s; lastScrollY := lastScrollY s; scrollVelocity :=
     scrollVelocity s; lastFrameTime := lastFrameTime s; fps := fps s; inflight
     := inflight s; painted := painted s; calls := calls s |}.

Definition set_supportsWebP (v : option bool) (s : Scroller) : Scroller :=
  {| config := config s; ctx := ctx s; images := images s; loadedImages :=
     loadedImages s; currentFrame := currentFrame s; targetFrame := targetFrame
     s; isLoading := isLoading s; loadedCount := loadedCount s; isMobile :=
     isMobile s; animationFrameId := animationFrameId s; supportsWebP := v;
     velocity := velocity s; lastScrollY := lastScrollY s; scrollVelocity :=
     scrollVelocity s; lastFrameTime := lastFrameTime s; fps := fps s; inflight
     := inflight s; painted := painted s; calls := calls s |}.

Definition set_velocity (v : Q) (s : Scroller) : Scroller :=
  {| config := config s; ctx := ctx s; images := images s; loadedImages :=
     loadedImages s; currentFrame := currentFrame s; targetFrame := targetFrame
     s; isLoading := isLoading s; loadedCount := loadedCount s; isMobile :=
     isMobile s; animationFrameId := animationFrameId s; supportsWebP :=
     supportsWebP s; velocity := v; lastScrollY := lastScrollY s;
     scrollVelocity := scrollVelocity s; lastFrameTime := lastFrameTime s; fps
     := fps s; inflight := inflight s; painted := painted s; calls := calls s |}.

Definition set_lastScrollY (v : Q) (s : Scroller) : Scroller :=
  {| config := config s; ctx := ctx s; images := images s; loadedImages :=
     loadedImages s; currentFrame := currentFrame s; targetFrame := targetFrame
     s; isLoading := isLoading s; loadedCount := loadedCount s; isMobile :=
     isMobile s; animationFrameId := animationFrameId s; supportsWebP :=
     supportsWebP s; velocity := velocity s; lastScrollY := v; scrollVelocity
     := scrollVelocity s; lastFrameTime := lastFrameTime s; fps := fps s;
     inflight := inflight s; painted := painted s; calls := calls s |}.

Definition set_scrollVelocity (v : Q) (s : Scroller) : Scroller :=
  {| config := config s; ctx := ctx s; images := images s; loadedImages :=
     loadedImages s; currentFrame := currentFrame s; targetFrame := targetFrame
     s; isLoading := isLoading s; loadedCount := loadedCount s; isMobile :=
     isMobile s; animationFrameId := animationFrameId s; supportsWebP :=
     supportsWebP s; velocity := velocity s; lastScrollY := lastScrollY s;
     scrollVelocity := v; lastFrameTime := lastFrameTime s; fps := fps s;
     inflight := inflight s; painted := painted s; calls := calls s |}.

Definition set_lastFrameTime (v : Q) (s : Scroller) : Scroller :=
  {| config := config s; ctx := ctx s; images := images s; loadedImages :=
     loadedImages s; currentFrame := currentFrame s; targetFrame := targetFrame
     s; isLoading := isLoading s; loadedCount := loadedCount s; isMobile :=
     isMobile s; animationFrameId := animationFrameId s; supportsWebP :=
     supportsWebP s; velocity := velocity s; lastScrollY := lastScrollY s;
     scrollVelocity := scrollVelocity s; lastFrameTime := v; fps := fps s;
     inflight := inflight s; painted := painted s; calls := calls s |}.

Definition set_fps (v : Q) (s : Scroller) : Scroller :=
  {| config := config s; ctx := ctx s; images := images s; loadedImages :=
     loadedImages s; currentFrame := currentFrame s; targetFrame := targetFrame
     s; isLoading := isLoading s; loadedCount := loadedCount s; isMobile :=
     isMobile s; animationFrameId := animationFrameId s; supportsWebP :=
     supportsWebP s; velocity := velocity s; lastScrollY := lastScrollY s;
     scrollVelocity := scrollVelocity s; lastFrameTime := lastFrameTime s; fps
     := v; inflight := inflight s; painted := painted s; calls := calls s |}.

Definition set_inflight (v : list Z) (s : Scroller) : Scroller :=
  {| config := config s; ctx := ctx s; images := images s; loadedImages :=
     loadedImages s; currentFrame := currentFrame s; targetFrame := targetFrame
     s; isLoading := isLoading s; loadedCount := loadedCount s; isMobile :=
     isMobile s; animationFrameId := animationFrameId s; supportsWebP :=
     supportsWebP s; velocity := velocity s; lastScrollY := lastScrollY s;
     scrollVelocity := scrollVelocity s; lastFrameTime := lastFrameTime s; fps
     := fps s; inflight := v; painted := painted s; calls := calls s |}.

Definition set_painted (v : list Layer) (s : Scroller) : Scroller :=
  {| config := config s; ctx := ctx s; images := images s; loadedImages :=
     loadedImages s; currentFrame := currentFrame s; targetFrame := targetFrame
     s; isLoading := isLoading s; loadedCount := loadedCount s; isMobile :=
     isMobile s; animationFrameId := animationFrameId s; supportsWebP :=
     supportsWebP s; velocity := velocity s; lastScrollY := lastScrollY s;
     scrollVelocity := scrollVelocity s; lastFrameTime := lastFrameTime s; fps
     := fps s; inflight := inflight s; painted := v; calls := calls s |}.

Definition set_calls (v : list Call) (s : Scroller) : Scroller :=
  {| config := config s; ctx := ctx s; images := images s; loadedImages :=
     loadedImages s; currentFrame := currentFrame s; targetFrame := targetFrame
     s; isLoading := isLoading s; loadedCount := loadedCount s; isMobile :=
     isMobile s; animationFrameId := animationFrameId s; supportsWebP :=
     supportsWebP s; velocity := velocity s; lastScrollY := lastScrollY s;
     scrollVelocity := scrollVelocity s; lastFrameTime := lastFrameTime s; fps
     := fps s; inflight := inflight s; painted := painted s; calls := v |}.

(** ** ForestScroller: operations *)

(** The constructor's merge of [options] with the defaults. *)
Definition mergeOptions (o : Options) : Config :=
  {| canvasId := orS (opt_canvasId o) "forest-canvas";
     imagePath := orS (opt_imagePath o) "assets/images/forest-sequence/";
     imagePrefix := orS (opt_imagePrefix o) "frame-";
     imageFormat := match opt_imageFormat o with Some f => f | None => webp end;
     totalFrames := orZ (opt_totalFrames o) 120;
     smoothing := orQ (opt_smoothing o) 0.1;
     preloadCount := orZ (opt_preloadCount o) 5;
     mobileFrameCount := orZ (opt_mobileFrameCount o) 60;
     mobileBreakpoint := orQ (opt_mobileBreakpoint o) 768;
     onLoad := orB (opt_onLoad o);
     onProgress := orB (opt_onProgress o);
     onReady := orB (opt_onReady o);
     onError := orB (opt_onError o) |}.

(** The constructor, up to its call of [init]. *)
Definition construct (o : Options) : Scroller :=
  {| config := mergeOptions o;
     ctx := false;
     images := ∅;
     loadedImages := ∅;
     currentFrame := 0;
     targetFrame := 0;
     isLoading := true;
     loadedCount := 0;
     isMobile := false;
     animationFrameId := None;
     supportsWebP := None;
     velocity := 0;
     lastScrollY := 0;
     scrollVelocity := 0;
     lastFrameTime := 0;
     fps := 60;
     inflight := [];
     painted := [];
     calls := [] |}.

(** [totalFrames - 1] as a number. *)
Definition lastFrame (s : Scroller) : Q := inject_Z (totalFrames (config s) - 1).

Definition call (present : bool) (c : Call) (s : Scroller) : Scroller :=
  if present then set_calls (calls s ++ [c]) s else s.

(** *** Drawing *)

Definition calculateCoverDimensions (canvasWidth canvasHeight : Q) (img : Image)
  : Dimensions :=
  let canvasRatio := canvasWidth / canvasHeight in
  let imgRatio := naturalWidth img / naturalHeight img in
  if Qltb imgRatio canvasRatio then
    let drawWidth := canvasWidth in
    let drawHeight := drawWidth / imgRatio in
    {| drawWidth := drawWidth; drawHeight := drawHeight;
       offsetX := 0; offsetY := (canvasHeight - drawHeight) / 2 |}
  else
    let drawHeight := canvasHeight in
    let drawWidth := drawHeight * imgRatio in
    {| drawWidth := drawWidth; drawHeight := drawHeight;
       offsetX := (canvasWidth - drawWidth) / 2; offsetY := 0 |}.

(** The two fills of [applyDepthGrading]. *)
Definition applyDepthGrading (w : Window) (frame : Q) (s : Scroller) : list Layer :=
  let progress := frame / lastFrame s in
  let canvasWidth := clientWidth w in
  let canvasHeight := clientHeight w in
  let greenIntensity := 0.03 + progress * 0.02 in
  [ FillTint greenIntensity canvasWidth canvasHeight;
    FillGlow (canvasWidth / 2) (canvasHeight / 2) (canvasHeight * 0.6)
             canvasWidth canvasHeight ].

Definition drawFrameWithBlending (w : Window) (exactFrame : Q) (s : Scroller)
  : Scroller :=
  if negb (ctx s) then s else
  let frameIndex1 := Qfloor exactFrame in
  let frameIndex2 := Z.min (Qceiling exactFrame) (totalFrames (config s) - 1) in
  let blendFactor := exactFrame - inject_Z frameIndex1 in
  match images s !! frameIndex1 with
  | None => s
  | Some img1 =>
    if negb (truthy (naturalWidth img1)) then s else
    let canvasWidth := clientWidth w in
    let canvasHeight := clientHeight w in
    let dimensions := calculateCoverDimensions canvasWidth canvasHeight img1 in
    let first := [DrawImage img1 1 dimensions] in
    let second :=
      match images s !! frameIndex2 with
      | Some img2 =>
        if negb (frameIndex1 =? frameIndex2)%Z && Qltb 0.01 blendFactor
           && truthy (naturalWidth img2)
        then [DrawImage img2 blendFactor dimensions]
        else []
      | None => []
      end in
    set_painted (first ++ second ++ applyDepthGrading w exactFrame s) s
  end.

Definition drawFrame (w : Window) (index : Q) (s : Scroller) : Scroller :=
  drawFrameWithBlending w index s.

(** Assigning [canvas.width] clears the canvas. *)
Definition resizeCanvas (w : Window) (s : Scroller) : Scroller :=
  if negb (ctx s) then s else
  let s := set_painted [] s in
  match images s !! Qfloor (currentFrame s) with
  | Some _ => drawFrameWithBlending w (currentFrame s) s
  | None => s
  end.

(** *** Loading images *)

(** What the browser does outside the class: whether it decodes WebP, and
    what requesting frame [index] in a given format ends in, an image
    ([onload]) or nothing ([onerror]). *)
Record Browser := {
  window : Window;
  decodesWebP : bool;
  fetch : ImageFormat -> Z -> option Image
}.

(** How a promise settles. *)
Inductive Outcome :=
| Fulfilled
| Rejected (e : Error).

Definition updateProgress (s : Scroller) : Scroller :=
  let progress :=
    inject_Z (loadedCount s) / inject_Z (totalFrames (config s)) * 100 in
  let s := call (onProgress (config s))
                (CallProgress progress (loadedCount s) (totalFrames (config s))) s in
  call (onLoad (config s) && (loadedCount s =? totalFrames (config s))%Z) CallLoad s.

(** The [img.onload] handler of [loadImage]. *)
Definition img_onload (index : Z) (img : Image) (s : Scroller) : Scroller :=
  let s := set_images (<[index := img]> (images s)) s in
  let s := set_loadedImages ({[index]} ∪ loadedImages s) s in
  let s := set_loadedCount (loadedCount s + 1)%Z s in
  updateProgress s.

(** The request made by [loadImage] comes back: [onload] stores the image
    and fulfils the promise, [onerror] rejects it. *)
Definition settleImage (b : Browser) (index : Z) (s : Scroller)
  : Scroller * Outcome :=
  match fetch b (imageFormat (config s)) index with
  | Some img => (img_onload index img s, Fulfilled)
  | None => (s, Rejected (FrameLoadFailed index))
  end.

(** [await this.loadImage(index)]: fulfilled at once when the frame is
    already loaded, otherwise after the request settles. *)
Definition loadImage (b : Browser) (index : Z) (s : Scroller)
  : Scroller * Outcome :=
  if bool_decide (index ∈ loadedImages s) then (s, Fulfilled)
  else settleImage b index s.

Definition priorityFrames (s : Scroller) : list Z :=
  [ 0; totalFrames (config s) / 2; totalFrames (config s) - 1 ]%Z.

(** [for (const frameIndex of priorityFrames) await this.loadImage(frameIndex)]:
    a rejected load is thrown out of the loop. *)
Fixpoint loadInOrder (b : Browser) (frames : list Z) (s : Scroller)
  : Scroller * Outcome :=
  match frames with
  | [] => (s, Fulfilled)
  | i :: rest =>
    match loadImage b i s with
    | (s', Fulfilled) => loadInOrder b rest s'
    | (s', Rejected e) => (s', Rejected e)
    end
  end.

(** The indices [0 <= i < n] in increasing order. *)
Definition indices (n : Z) : list Z := map Z.of_nat (seq 0 (Z.to_nat n)).

Definition includes (l : list Z) (i : Z) : bool := existsb (Z.eqb i) l.

(** The frames [loadImage] is called for by the second loop of
    [preloadImages]. *)
Definition remainingFrames (s : Scroller) : list Z :=
  filter (fun i => negb (includes (priorityFrames s) i))
         (indices (totalFrames (config s))).

(** Those of them whose call issues a request (the others are fulfilled
    at once). *)
Definition batchRequests (s : Scroller) : list Z :=
  filter (fun i => negb (bool_decide (i ∈ loadedImages s))) (remainingFrames s).

(** [await Promise.all(loadPromises)], the requests settling in the order
    [order]: fulfilled when all of them are, rejected as soon as one is.
    The third component is the requests still in flight at that moment. *)
Fixpoint awaitAll (b : Browser) (order : list Z) (s : Scroller)
  : Scroller * Outcome * list Z :=
  match order with
  | [] => (s, Fulfilled, [])
  | i :: rest =>
    match settleImage b i s with
    | (s', Fulfilled) => awaitAll b rest s'
    | (s', Rejected e) => (s', Rejected e, rest)
    end
  end.

(** [preloadImages], the concurrent requests settling in the order [order]
    (a permutation of [batchRequests]). *)
Definition preloadImages (b : Browser) (order : list Z) (s : Scroller)
  : Scroller * Outcome * list Z :=
  match loadInOrder b (priorityFrames s) s with
  | (s, Rejected e) => (s, Rejected e, [])
  | (s, Fulfilled) =>
    let s := match images s !! 0%Z with
             | Some _ => drawFrame (window b) 0 s
             | None => s
             end in
    awaitAll b order s
  end.

(** *** Scroll position *)

Definition easeInOutCubic (t : Q) : Q :=
  if Qltb t 0.5
  then 4 * t * t * t
  else 1 - Math_pow (-2 * t + 2) 3 / 2.

(** The frames [lazyLoadNearbyFrames] visits:
    [for (i = currentIndex; i < currentIndex + preloadRange && i < totalFrames; i++)]. *)
Definition nearbyFrames (currentIndex : Z) (s : Scroller) : list Z :=
  let stop := Z.min (currentIndex + preloadCount (config s)) (totalFrames (config s)) in
  map (fun k => (currentIndex + Z.of_nat k)%Z) (seq 0 (Z.to_nat (stop - currentIndex))).

(** Requests are issued and not awaited; a rejection is swallowed when it
    settles (see [imageSettled]). *)
Definition lazyLoadNearbyFrames (currentIndex : Z) (s : Scroller) : Scroller :=
  let wanted :=
    filter (fun i => negb (bool_decide (i ∈ loadedImages s)))
           (nearbyFrames currentIndex s) in
  set_inflight (inflight s ++ wanted) s.

(** The normalised scroll progress computed by [updateScrollPosition]. *)
Definition scrollProgress (w : Window) : Q :=
  let scrollHeight := scrollHeight w - innerHeight w in
  let scrolled := pageYOffset w in
  if Qltb 0 scrollHeight
  then Math_max 0 (Math_min 1 (scrolled / scrollHeight))
  else 0.

Definition updateScrollPosition (w : Window) (s : Scroller) : Scroller :=
  let scrolled := pageYOffset w in
  let scrollProgress := scrollProgress w in
  let deltaScroll := scrolled - lastScrollY s in
  let s := set_scrollVelocity (Math_abs deltaScroll) s in
  let s := set_lastScrollY scrolled s in
  let easedProgress := easeInOutCubic scrollProgress in
  let s := set_targetFrame (easedProgress * lastFrame s) s in
  lazyLoadNearbyFrames (Qfloor (targetFrame s)) s.

(** A request that is not awaited by [init] settles: [onload] as in
    [loadImage]; a rejection has no effect (it is caught and ignored by
    [lazyLoadNearbyFrames], or belongs to a [Promise.all] that is already
    rejected). *)
Fixpoint remove_first (i : Z) (l : list Z) : list Z :=
  match l with
  | [] => []
  | j :: rest => if (i =? j)%Z then rest else j :: remove_first i rest
  end.

Definition imageSettled (b : Browser) (index : Z) (s : Scroller) : Scroller :=
  if includes (inflight s) index
  then fst (settleImage b index (set_inflight (remove_first index (inflight s)) s))
  else s.

(** *** The draw loop *)

Definition requestAnimationFrame (s : Scroller) : Scroller :=
  set_animationFrameId
    (Some (match animationFrameId s with Some n => S n | None => 1%nat end)) s.

Definition adaptiveSmoothness (s : Scroller) : Q :=
  if Qltb 50 (scrollVelocity s) then 0.12 else 0.06.

Definition velocityThreshold : Q := 0.05.

(** The body of the [animate] callback of [startAnimationLoop]. *)
Definition animate (w : Window) (timestamp : Q) (s : Scroller) : Scroller :=
  let s := if truthy (lastFrameTime s)
           then let delta := timestamp - lastFrameTime s in
                set_fps (1000 / delta) s
           else s in
  let s := set_lastFrameTime timestamp s in
  let adaptiveSmoothness := adaptiveSmoothness s in
  let diff := targetFrame s - currentFrame s in
  let s := set_velocity (velocity s + diff * adaptiveSmoothness) s in
  let s := set_velocity (velocity s * 0.75) s in
  let s := set_currentFrame (currentFrame s + velocity s) s in
  let s := set_currentFrame
             (Math_max 0 (Math_min (currentFrame s) (lastFrame s))) s in
  let s := if Qltb (Math_abs (velocity s)) velocityThreshold
           then set_currentFrame (Math_round (currentFrame s)) s
           else s in
  let s := drawFrameWithBlending w (currentFrame s) s in
  requestAnimationFrame s.

Definition startAnimationLoop (s : Scroller) : Scroller := requestAnimationFrame s.

(** *** Public operations *)

Definition getProgress (s : Scroller) : Q := currentFrame s / lastFrame s.

Definition jumpToFrame (w : Window) (frameIndex : Q) (s : Scroller) : Scroller :=
  let clampedIndex := Math_max 0 (Math_min frameIndex (lastFrame s)) in
  let s := set_currentFrame clampedIndex s in
  let s := set_targetFrame clampedIndex s in
  drawFrame w (Math_floor clampedIndex) s.

Definition jumpToProgress (w : Window) (percentage : Q) (s : Scroller) : Scroller :=
  let frame := (percentage / 100) * lastFrame s in
  jumpToFrame w frame s.

Definition pause (s : Scroller) : Scroller :=
  match animationFrameId s with
  | Some _ => set_animationFrameId None s
  | None => s
  end.

Definition resume (s : Scroller) : Scroller :=
  match animationFrameId s with
  | Some _ => s
  | None => startAnimationLoop s
  end.

(** [destroy] cancels the pending frame callback but leaves the handle in
    [animationFrameId]. *)
Definition destroy (s : Scroller) : Scroller :=
  let s := set_images ∅ s in
  let s := set_loadedImages ∅ s in
  let s := if ctx s then set_painted [] s else s in
  set_ctx false s.

Record Metrics := {
  m_fps : Q;
  m_currentFrame : Q;
  m_totalFrames : Z;
  m_loadedFrames : Z;
  m_progress : Q;
  m_isMobile : bool
}.

Definition getMetrics (s : Scroller) : Metrics :=
  {| m_fps := Math_round (fps s);
     m_currentFrame := Math_floor (currentFrame s);
     m_totalFrames := totalFrames (config s);
     m_loadedFrames := loadedCount s;
     m_progress := getProgress s;
     m_isMobile := isMobile s |}.

(** *** Initialisation *)

(** The first step of [init]: device detection and the mobile frame count. *)
Definition detectDevice (w : Window) (s : Scroller) : Scroller :=
  let s := set_isMobile (Qle_bool (innerWidth w) (mobileBreakpoint (config s))) s in
  if isMobile s
  then set_config (set_totalFrames (mobileFrameCount (config s)) (config s)) s
  else s.

Definition checkWebPSupport (b : Browser) (s : Scroller) : Scroller :=
  let s := set_supportsWebP (Some (decodesWebP b)) s in
  if decodesWebP b then s
  else set_config (set_imageFormat jpg (config s)) s.

Definition setupCanvas (w : Window) (s : Scroller) : Scroller * Outcome :=
  if negb (canvasFound w)
  then (s, Rejected (CanvasNotFound (canvasId (config s))))
  else (resizeCanvas w (set_ctx true s), Fulfilled).

Definition setupScrollListener (w : Window) (s : Scroller) : Scroller :=
  updateScrollPosition w s.

(** The [catch] block of [init]. *)
Definition initFailed (e : Error) (s : Scroller) : Scroller :=
  call (onError (config s)) (CallError e) s.

(** [init], run to its end; [order] is the order in which the concurrent
    requests of [preloadImages] settle.  When the preload is rejected the
    requests that have not settled yet stay in flight. *)
Definition init (b : Browser) (order : list Z) (s : Scroller) : Scroller :=
  let s := detectDevice (window b) s in
  let s := checkWebPSupport b s in
  match setupCanvas (window b) s with
  | (s, Rejected e) => initFailed e s
  | (s, Fulfilled) =>
    match preloadImages b order s with
    | (s, Rejected e, pending) => initFailed e (set_inflight (inflight s ++ pending) s)
    | (s, Fulfilled, _) =>
      let s := setupScrollListener (window b) s in
      let s := startAnimationLoop s in
      let s := set_isLoading false s in
      call (onReady (config s)) CallReady s
    end
  end.

(** The invariant of the playback position. *)
Definition in_range (s : Scroller) : Prop :=
  0 <= currentFrame s /\ currentFrame s <= lastFrame s.

(** [s'] differs from [s] at most in the image store, the load counter, the
    canvas and the callback trace: the fields written while loading. *)
Definition loader_writes (s s' : Scroller) : Prop :=
  s' = set_painted (painted s')
         (set_calls (calls s')
            (set_loadedCount (loadedCount s')
               (set_loadedImages (loadedImages s')
                  (set_images (images s') s)))).

(** The instance [s] with another value of [config.smoothing]. *)
Definition withSmoothing (v : Q) (s : Scroller) : Scroller :=
  set_config (set_smoothing v (config s)) s.

(** Two [options] objects that differ at most in [smoothing]. *)
Definition differOnlyInSmoothing (o1 o2 : Options) : Prop :=
  opt_canvasId o1 = opt_canvasId o2
  /\ opt_imagePath o1 = opt_imagePath o2
  /\ opt_imagePrefix o1 = opt_imagePrefix o2
  /\ opt_imageFormat o1 = opt_imageFormat o2
  /\ opt_totalFrames o1 = opt_totalFrames o2
  /\ opt_preloadCount o1 = opt_preloadCount o2
  /\ opt_mobileFrameCount o1 = opt_mobileFrameCount o2
  /\ opt_mobileBreakpoint o1 = opt_mobileBreakpoint o2
  /\ opt_onLoad o1 = opt_onLoad o2
  /\ opt_onProgress o1 = opt_onProgress o2
  /\ opt_onReady o1 = opt_onReady o2
  /\ opt_onError o1 = opt_onError o2.

(** The draw loop has come to rest on the frame nearest to the target. *)
Definition settled (s : Scroller) : Prop :=
  Math_abs (velocity s) < velocityThreshold
  /\ currentFrame s == Math_round (targetFrame s).

(** *** A session

    What happens to an instance once [init] is over: the browser runs the
    frame callback, reports scrolling and resizing, settles image
    requests, and the page calls the public operations.  [setupResizeListener]
    and the scroll listener only register these handlers.  The frame
    callback runs while a handle is recorded in [animationFrameId]; as
    [destroy] leaves the handle in place, the session admits frame callbacks
    after [destroy] that the browser has in fact cancelled. *)
Inductive Event :=
| AnimationFrame (w : Window) (timestamp : Q)
| Scrolled (w : Window)
| Resized (w : Window)
| ImageSettled (b : Browser) (index : Z)
| JumpToFrame (w : Window) (frameIndex : Q)
| JumpToProgress (w : Window) (percentage : Q)
| Pause
| Resume
| Destroy.

Definition handle (e : Event) (s : Scroller) : Scroller :=
  match e with
  | AnimationFrame w timestamp =>
    match animationFrameId s with
    | Some _ => animate w timestamp s
    | None => s
    end
  | Scrolled w => updateScrollPosition w s
  | Resized w => resizeCanvas w s
  | ImageSettled b index => imageSettled b index s
  | JumpToFrame w frameIndex => jumpToFrame w frameIndex s
  | JumpToProgress w percentage => jumpToProgress w percentage s
  | Pause => pause s
  | Resume => resume s
  | Destroy => destroy s
  end.

Definition run (es : list Event) (s : Scroller) : Scroller :=
  fold_left (fun s e => handle e s) es s.

(** The requests in flight settle one after the other, in the order
    [pending]. *)
Fixpoint settleAll (b : Browser) (pending : list Z) (s : Scroller) : Scroller :=
  match pending with
  | [] => s
  | i :: rest => settleAll b rest (handle (ImageSettled b i) s)
  end.

(** Every request in flight has settled. *)
Definition drain (b : Browser) (s : Scroller) : Scroller :=
  settleAll b (inflight s) s.

(** Requesting frame [i] succeeds. *)
Definition available (b : Browser) (s : Scroller) (i : Z) : bool :=
  match fetch b (imageFormat (config s)) i with
  | Some _ => true
  | None => false
  end.

(** The load counter counts the stored frames, and every stored frame is
    one whose request succeeded. *)
Definition counted (b : Browser) (s : Scroller) : Prop :=
  loadedCount s = Z.of_nat (size (loadedImages s))
  /\ (forall j, j ∈ loadedImages s -> available b s j = true).

(** [onReady] has not been called. *)
Definition notReady (c : Call) : Prop :=
  match c with
  | CallReady => False
  | _ => True
  end.

Definition quiet (s : Scroller) : Prop := Forall notReady (calls s).

(** [n] consecutive runs of the frame callback, the scroll position being
    held fixed; the callback of tick [i] gets the timestamp [clock i]. *)
Fixpoint ticks (w : Window) (clock : nat -> Q) (n : nat) (s : Scroller) : Scroller :=
  match n with
  | O => s
  | S n' => animate w (clock n') (ticks w clock n' s)
  end.

(** *** Frame files *)

Definition formatName (f : ImageFormat) : string :=
  match f with
  | webp => "webp"
  | jpg => "jpg"
  end.

(** [String(index + 1).padStart(3, '0')] *)
Definition frameNumber (index : Z) : string := padStart 3 (String_of_int (index + 1)).

(** The [imagePath] that [loadImage] requests for frame [index]. *)
Definition framePath (c : Config) (index : Z) : string :=
  String.append (imagePath c)
    (String.append (imagePrefix c)
       (String.append (frameNumber index)
          (String.append "." (formatName (imageFormat c))))).

(** *** Helpers and listeners *)

Definition lerp (start end_ factor : Q) : Q := start + (end_ - start) * factor.

(** The scroll listener of [setupScrollListener]: the instance, the
    listener's [ticking] flag and the number of frame callbacks it has
    requested that have not run yet. *)
Record Listening := {
  scroller : Scroller;
  ticking : bool;
  requested : nat
}.

(** [setupScrollListener]: the listener is registered and the position is
    read once. *)
Definition listen (w : Window) (s : Scroller) : Listening :=
  {| scroller := updateScrollPosition w s; ticking := false; requested := 0 |}.

(** [handleScroll], run at every scroll event. *)
Definition handleScroll (l : Listening) : Listening :=
  if negb (ticking l)
  then {| scroller := scroller l; ticking := true; requested := S (requested l) |}
  else l.

(** A frame callback requested by [handleScroll] runs. *)
Definition scrollFrame (w : Window) (l : Listening) : Listening :=
  match requested l with
  | O => l
  | S n =>
    {| scroller := updateScrollPosition w (scroller l); ticking := false;
       requested := n |}
  end.

Inductive ScrollStep :=
| ScrollEvent
| ScrollFrame (w : Window).

Definition scrollStep (e : ScrollStep) (l : Listening) : Listening :=
  match e with
  | ScrollEvent => handleScroll l
  | ScrollFrame w => scrollFrame w l
  end.

(** *** Vocabulary of the properties *)

(** The number of calls of [onLoad] in a trace. *)
Fixpoint loadCalls (cs : list Call) : nat :=
  match cs with
  | [] => O
  | CallLoad :: rest => S (loadCalls rest)
  | _ :: rest => loadCalls rest
  end.

(** What the canvas shows is nothing, or one frame drawn opaque, at most
    one more frame blended over it at an opacity in (0.01, 1) in the same
    rectangle, the green wash at an intensity in [0.03, 0.05] and the
    centre glow. *)
Definition picture (l : list Layer) : Prop :=
  l = []
  \/ exists img1 d blend g cw ch cx cy r,
      l = DrawImage img1 1 d :: blend ++ [FillTint g cw ch; FillGlow cx cy r cw ch]
      /\ 0.03 <= g /\ g <= 0.05
      /\ (blend = []
          \/ exists img2 alpha,
              blend = [DrawImage img2 alpha d] /\ 0.01 < alpha /\ alpha < 1).

(** Every frame of the sequence is stored and none is being requested. *)
Definition allLoaded (s : Scroller) : Prop :=
  inflight s = []
  /\ forall i, (0 <= i < totalFrames (config s))%Z -> i ∈ loadedImages s.

(** The events that leave the image store in place. *)
Definition keepsImages (e : Event) : Prop :=
  match e with
  | Destroy => False
  | _ => True
  end.

(** The events that happen by themselves while the page is left alone:
    frame callbacks, scrolling and settled requests. *)
Definition passive (e : Event) : Prop :=
  match e with
  | AnimationFrame _ _ | Scrolled _ | ImageSettled _ _ => True
  | _ => False
  end.

(** The image store and the set of loaded frames agree. *)
Definition stored (s : Scroller) : Prop :=
  forall i, i ∈ loadedImages s <-> is_Some (images s !! i).

(** [onLoad] has been called once if the counter has reached [totalFrames],
    and not at all otherwise. *)
Definition loadReported (s : Scroller) : Prop :=
  loadCalls (calls s)
  = if onLoad (config s) && (totalFrames (config s) <=? loadedCount s)%Z
    then 1%nat else 0%nat.

(** The arguments of the calls of [onProgress] in a trace. *)
Fixpoint progressCalls (cs : list Call) : list (Q * Z * Z) :=
  match cs with
  | [] => []
  | CallProgress progress loaded total :: rest =>
    (progress, loaded, total) :: progressCalls rest
  | _ :: rest => progressCalls rest
  end.

(** The reports [onProgress] gets while the counter goes from 1 to [n]. *)
Definition progressReports (total : Z) (n : Z) : list (Q * Z * Z) :=
  map (fun k => (inject_Z (Z.of_nat k) / inject_Z total * 100, Z.of_nat k, total))
      (seq 1 (Z.to_nat n)).

(** The calls of [onProgress] so far report the counter going up from 1. *)
Definition progressReported (s : Scroller) : Prop :=
  (0 <= loadedCount s)%Z
  /\ progressCalls (calls s)
     = if onProgress (config s)
       then progressReports (totalFrames (config s)) (loadedCount s)
       else [].

End ForestScroller.

(** ** ForestAmbient: data model and operations

    The overlay's painting (fog, rays, glows, vignette, tint) changes nothing
    but pixels of its own canvas; the model keeps the state the draw loop
    updates: the entity pools and the values driven by scrolling. *)

Module ForestAmbient.
Import JS.
Local Open Scope Q_scope.

Record Config := {
  particleCount : Z;
  sparkleCount : Z;
  particleSpeed : Q;
  fogIntensity : Q;
  vignetteIntensity : Q;
  lightRays : bool;
  soundEnabled : bool;
  colorTint : string
}.

Inductive ParticleType := leaf | speck.

Module Particle.
Record t := {
  x : Q;
  y : Q;
  size : Q;
  speedX : Q;
  speedY : Q;
  opacity : Q;
  rotation : Q;
  rotationSpeed : Q;
  depth : Q;
  type : ParticleType
}.
End Particle.

Module Sparkle.
Record t := {
  x : Q;
  y : Q;
  size : Q;
  baseSpeedX : Q;
  baseSpeedY : Q;
  speedX : Q;
  speedY : Q;
  opacity : Q;
  twinkle : Q;
  twinkleSpeed : Q;
  depth : Q;
  hue : Q;
  pulsePhase : Q;
  pulseSpeed : Q
}.
End Sparkle.

Record Ambient := {
  config : Config;
  particles : list Particle.t;
  sparkles : list Sparkle.t;
  lightRayOpacity : Q;
  scrollProgress : Q;
  scrollVelocity : Q;
  lastScrollY : Q;
  velocityMultiplier : Q
}.

(** The size of the window, read anew at every use. *)
Record Window := {
  innerWidth : Q;
  innerHeight : Q
}.

(** [Math.random()]: the successive values are those of a stream, read at
    a cursor that each call advances. *)
Definition Random := nat -> Q.

Definition updateProgress (progress : Q) (a : Ambient) : Ambient :=
  let midProgress := 1 - Math_abs (progress - 0.5) * 2 in
  {| config := config a;
     particles := particles a;
     sparkles := sparkles a;
     lightRayOpacity := midProgress * 0.5 + 0.2;
     scrollProgress := progress;
     scrollVelocity := scrollVelocity a;
     lastScrollY := lastScrollY a;
     velocityMultiplier := velocityMultiplier a |}.

(** The update of one particle in [drawParticles]: move, rotate, wrap. *)
Definition moveParticle (w : Window) (velocityFactor : Q) (random : Random)
           (cursor : nat) (p : Particle.t) : Particle.t * nat :=
  let x := Particle.x p + Particle.speedX p * (1 + Particle.depth p) * velocityFactor in
  let y := Particle.y p + Particle.speedY p * (1 + Particle.depth p) * velocityFactor in
  let rotation := Particle.rotation p + Particle.rotationSpeed p * velocityFactor in
  let x := if Qltb x (-10) then innerWidth w + 10 else x in
  let x := if Qltb (innerWidth w + 10) x then -10 else x in
  let '(x, y, cursor) :=
    if Qltb (innerHeight w + 10) y
    then (random cursor * innerWidth w, -10, S cursor)
    else (x, y, cursor) in
  ({| Particle.x := x; Particle.y := y;
      Particle.size := Particle.size p;
      Particle.speedX := Particle.speedX p;
      Particle.speedY := Particle.speedY p;
      Particle.opacity := Particle.opacity p;
      Particle.rotation := rotation;
      Particle.rotationSpeed := Particle.rotationSpeed p;
      Particle.depth := Particle.depth p;
      Particle.type := Particle.type p |}, cursor).

(** The update of one sparkle in [drawSparkles]. *)
Definition moveSparkle (w : Window) (velocityFactor : Q) (random : Random)
           (cursor : nat) (k : Sparkle.t) : Sparkle.t * nat :=
  let twinkle := Sparkle.twinkle k + Sparkle.twinkleSpeed k in
  let pulsePhase := Sparkle.pulsePhase k + Sparkle.pulseSpeed k in
  let speedX := Sparkle.baseSpeedX k * velocityFactor in
  let speedY := Sparkle.baseSpeedY k * velocityFactor in
  let x := Sparkle.x k + speedX * (0.8 + Sparkle.depth k * 0.4) in
  let y := Sparkle.y k + speedY * (0.8 + Sparkle.depth k * 0.4) in
  let x := if Qltb x (-10) then innerWidth w + 10 else x in
  let x := if Qltb (innerWidth w + 10) x then -10 else x in
  let '(x, y, cursor) :=
    if Qltb (innerHeight w + 10) y
    then (random cursor * innerWidth w, -10, S cursor)
    else (x, y, cursor) in
  ({| Sparkle.x := x; Sparkle.y := y;
      Sparkle.size := Sparkle.size k;
      Sparkle.baseSpeedX := Sparkle.baseSpeedX k;
      Sparkle.baseSpeedY := Sparkle.baseSpeedY k;
      Sparkle.speedX := speedX;
      Sparkle.speedY := speedY;
      Sparkle.opacity := Sparkle.opacity k;
      Sparkle.twinkle := twinkle;
      Sparkle.twinkleSpeed := Sparkle.twinkleSpeed k;
      Sparkle.depth := Sparkle.depth k;
      Sparkle.hue := Sparkle.hue k;
      Sparkle.pulsePhase := pulsePhase;
      Sparkle.pulseSpeed := Sparkle.pulseSpeed k |}, cursor).

(** [pool.forEach(update)], threading the cursor of [Math.random]. *)
Fixpoint forEach {A : Type} (update : nat -> A -> A * nat) (cursor : nat)
         (pool : list A) : list A * nat :=
  match pool with
  | [] => ([], cursor)
  | e :: rest =>
    let '(e', cursor) := update cursor e in
    let '(rest', cursor) := forEach update cursor rest in
    (e' :: rest', cursor)
  end.

Definition set_pools (ps : list Particle.t) (ks : list Sparkle.t) (a : Ambient)
  : Ambient :=
  {| config := config a;
     particles := ps;
     sparkles := ks;
     lightRayOpacity := lightRayOpacity a;
     scrollProgress := scrollProgress a;
     scrollVelocity := scrollVelocity a;
     lastScrollY := lastScrollY a;
     velocityMultiplier := velocityMultiplier a |}.

Definition drawParticles (w : Window) (random : Random) (cursor : nat) (a : Ambient)
  : Ambient * nat :=
  let '(ps, cursor) :=
    forEach (moveParticle w (velocityMultiplier a) random) cursor (particles a) in
  (set_pools ps (sparkles a) a, cursor).

Definition drawSparkles (w : Window) (random : Random) (cursor : nat) (a : Ambient)
  : Ambient * nat :=
  let '(ks, cursor) :=
    forEach (moveSparkle w (velocityMultiplier a) random) cursor (sparkles a) in
  (set_pools (particles a) ks a, cursor).

(** One run of the [animate] callback of [startAnimation]. *)
Definition animate (w : Window) (random : Random) (cursor : nat) (a : Ambient)
  : Ambient * nat :=
  let '(a, cursor) := drawParticles w random cursor a in
  drawSparkles w random cursor a.

(** A position no farther than the 10 pixel wrap margin outside the window
    on the left, on the right and below. *)
Definition within_margin (w : Window) (x y : Q) : Prop :=
  -10 <= x /\ x <= innerWidth w + 10 /\ y <= innerHeight w + 10.


(** An entity that is not above the top margin and does not move up. *)
Definition particle_falls (velocityFactor : Q) (p : Particle.t) : Prop :=
  -10 <= Particle.y p
  /\ 0 <= Particle.speedY p * (1 + Particle.depth p) * velocityFactor.

Definition sparkle_falls (velocityFactor : Q) (k : Sparkle.t) : Prop :=
  -10 <= Sparkle.y k
  /\ 0 <= Sparkle.baseSpeedY k * velocityFactor * (0.8 + Sparkle.depth k * 0.4).

(** *** Construction *)

(** The [options] object given to the constructor. *)
Record Options := {
  opt_particleCount : option Z;
  opt_sparkleCount : option Z;
  opt_particleSpeed : option Q;
  opt_fogIntensity : option Q;
  opt_vignetteIntensity : option Q;
  opt_lightRays : option bool;
  opt_soundEnabled : option bool;
  opt_colorTint : option string
}.

(** The constructor's merge of [options] with the defaults;
    [lightRays] is [options.lightRays !== false]. *)
Definition mergeOptions (o : Options) : Config :=
  {| particleCount := orZ (opt_particleCount o) 40;
     sparkleCount := orZ (opt_sparkleCount o) 30;
     particleSpeed := orQ (opt_particleSpeed o) 0.3;
     fogIntensity := orQ (opt_fogIntensity o) 0.15;
     vignetteIntensity := orQ (opt_vignetteIntensity o) 0.3;
     lightRays := match opt_lightRays o with
                  | Some false => false
                  | _ => true
                  end;
     soundEnabled := orB (opt_soundEnabled o);
     colorTint := orS (opt_colorTint o) "rgba(27, 94, 32, 0.08)" |}.

(** The constructor, up to its call of [init]. *)
Definition construct (o : Options) : Ambient :=
  {| config := mergeOptions o;
     particles := [];
     sparkles := [];
     lightRayOpacity := 0;
     scrollProgress := 0;
     scrollVelocity := 0;
     lastScrollY := 0;
     velocityMultiplier := 1 |}.

(** The object pushed by one turn of the loop of [createParticles]; the
    properties are evaluated in the order they are written. *)
Definition createParticle (w : Window) (c : Config) (random : Random) (cursor : nat)
  : Particle.t * nat :=
  ({| Particle.x := random cursor * innerWidth w;
      Particle.y := random (cursor + 1)%nat * innerHeight w;
      Particle.size := random (cursor + 2)%nat * 5 + 2;
      Particle.speedX := (random (cursor + 3)%nat - 0.5) * particleSpeed c;
      Particle.speedY := random (cursor + 4)%nat * particleSpeed c * 0.5 + 0.2;
      Particle.opacity := random (cursor + 5)%nat * 0.6 + 0.3;
      Particle.rotation := random (cursor + 6)%nat * Math_PI * 2;
      Particle.rotationSpeed := (random (cursor + 7)%nat - 0.5) * 0.02;
      Particle.depth := random (cursor + 8)%nat;
      Particle.type := if Qltb 0.7 (random (cursor + 9)%nat) then leaf else speck |},
   (cursor + 10)%nat).

(** The object pushed by one turn of the loop of [createSparkles]. *)
Definition createSparkle (w : Window) (random : Random) (cursor : nat)
  : Sparkle.t * nat :=
  ({| Sparkle.x := random cursor * innerWidth w;
      Sparkle.y := random (cursor + 1)%nat * innerHeight w;
      Sparkle.size := random (cursor + 2)%nat * 3 + 1;
      Sparkle.baseSpeedX := (random (cursor + 3)%nat - 0.5) * 0.4;
      Sparkle.baseSpeedY := random (cursor + 4)%nat * 0.3 + 0.1;
      Sparkle.speedX := 0;
      Sparkle.speedY := 0;
      Sparkle.opacity := random (cursor + 5)%nat * 0.8 + 0.4;
      Sparkle.twinkle := random (cursor + 6)%nat * Math_PI * 2;
      Sparkle.twinkleSpeed := random (cursor + 7)%nat * 0.05 + 0.02;
      Sparkle.depth := random (cursor + 8)%nat * 0.5 + 0.5;
      Sparkle.hue := random (cursor + 9)%nat * 20 + 35;
      Sparkle.pulsePhase := random (cursor + 10)%nat * Math_PI * 2;
      Sparkle.pulseSpeed := random (cursor + 11)%nat * 0.03 + 0.01 |},
   (cursor + 12)%nat).

(** [for (let i = 0; i < count; i++) pool.push(create())] *)
Fixpoint pushEach {A : Type} (create : nat -> A * nat) (count : nat) (cursor : nat)
  : list A * nat :=
  match count with
  | O => ([], cursor)
  | S count' =>
    let '(e, cursor) := create cursor in
    let '(rest, cursor) := pushEach create count' cursor in
    (e :: rest, cursor)
  end.

Definition createParticles (w : Window) (random : Random) (cursor : nat) (a : Ambient)
  : Ambient * nat :=
  let '(ps, cursor) :=
    pushEach (createParticle w (config a) random)
             (Z.to_nat (particleCount (config a))) cursor in
  (set_pools ps (sparkles a) a, cursor).

Definition createSparkles (w : Window) (random : Random) (cursor : nat) (a : Ambient)
  : Ambient * nat :=
  let '(ks, cursor) :=
    pushEach (createSparkle w random)
             (Z.to_nat (sparkleCount (config a))) cursor in
  (set_pools (particles a) ks a, cursor).

(** [init]: the pools are created and [startAnimation] runs [animate] once
    at once; the canvas, the listeners and the sound placeholder are not
    represented. *)
Definition init (w : Window) (random : Random) (cursor : nat) (a : Ambient)
  : Ambient * nat :=
  let '(a, cursor) := createParticles w random cursor a in
  let '(a, cursor) := createSparkles w random cursor a in
  animate w random cursor a.

(** *** Scroll velocity *)

Definition set_velocity (scrollVelocity velocityMultiplier lastScrollY : Q) (a : Ambient)
  : Ambient :=
  {| config := config a;
     particles := particles a;
     sparkles := sparkles a;
     lightRayOpacity := lightRayOpacity a;
     scrollProgress := scrollProgress a;
     scrollVelocity := scrollVelocity;
     lastScrollY := lastScrollY;
     velocityMultiplier := velocityMultiplier |}.

(** The scroll listener of [trackScrollVelocity]. *)
Definition onScroll (currentScrollY : Q) (a : Ambient) : Ambient :=
  let deltaScroll := Math_abs (currentScrollY - lastScrollY a) in
  let scrollVelocity := Math_min (deltaScroll / 50) 3 in
  let velocityMultiplier := velocityMultiplier a * 0.9 + scrollVelocity * 0.1 in
  set_velocity scrollVelocity velocityMultiplier currentScrollY a.

(** The callback of [setInterval(..., 50)] of [trackScrollVelocity]. *)
Definition decay (a : Ambient) : Ambient :=
  set_velocity (scrollVelocity a * 0.95)
               (Math_max 1 (velocityMultiplier a * 0.98))
               (lastScrollY a) a.

(** *** What the conditional layers paint *)

(** [drawLightRays] paints (at opacity [lightRayOpacity]) unless it returns
    at its first line. *)
Definition drawLightRays (a : Ambient) : option Q :=
  if negb (lightRays (config a)) || Qle_bool (lightRayOpacity a) 0
  then None
  else Some (lightRayOpacity a).

(** [drawGoldenBurst] paints a glow of intensity [burstIntensity] unless it
    returns at its first line. *)
Definition drawGoldenBurst (a : Ambient) : option Q :=
  if Qltb (velocityMultiplier a) 1.2
  then None
  else Some (Math_min ((velocityMultiplier a - 1) / 2) 0.3).

(** *** A session *)

Inductive Event :=
| AnimationFrame (w : Window)
| Scrolled (currentScrollY : Q)
| Interval
| Progress (progress : Q).

(** The instance and the cursor of [Math.random]. *)
Definition handle (random : Random) (e : Event) (st : Ambient * nat) : Ambient * nat :=
  match e with
  | AnimationFrame w => animate w random (snd st) (fst st)
  | Scrolled y => (onScroll y (fst st), snd st)
  | Interval => (decay (fst st), snd st)
  | Progress p => (updateProgress p (fst st), snd st)
  end.

Definition run (random : Random) (es : list Event) (st : Ambient * nat) : Ambient * nat :=
  fold_left (fun st e => handle random e st) es st.

(** [n] runs of the interval callback, no scroll event in between. *)
Fixpoint decays (n : nat) (a : Ambient) : Ambient :=
  match n with
  | O => a
  | S n' => decay (decays n' a)
  end.

(** *** Vocabulary of the properties *)

(** The ranges of the attributes a particle is created with. *)
Definition particle_born (w : Window) (c : Config) (p : Particle.t) : Prop :=
  0 <= Particle.x p /\ Particle.x p <= innerWidth w
  /\ 0 <= Particle.y p /\ Particle.y p <= innerHeight w
  /\ 2 <= Particle.size p /\ Particle.size p < 7
  /\ - (particleSpeed c * 0.5) <= Particle.speedX p
  /\ Particle.speedX p <= particleSpeed c * 0.5
  /\ 0.2 <= Particle.speedY p /\ Particle.speedY p <= particleSpeed c * 0.5 + 0.2
  /\ 0.3 <= Particle.opacity p /\ Particle.opacity p < 0.9
  /\ 0 <= Particle.depth p /\ Particle.depth p < 1.

(** The ranges of the attributes a sparkle is created with. *)
Definition sparkle_born (w : Window) (k : Sparkle.t) : Prop :=
  0 <= Sparkle.x k /\ Sparkle.x k <= innerWidth w
  /\ 0 <= Sparkle.y k /\ Sparkle.y k <= innerHeight w
  /\ 1 <= Sparkle.size k /\ Sparkle.size k < 4
  /\ -0.2 <= Sparkle.baseSpeedX k /\ Sparkle.baseSpeedX k < 0.2
  /\ 0.1 <= Sparkle.baseSpeedY k /\ Sparkle.baseSpeedY k < 0.4
  /\ Sparkle.speedX k = 0 /\ Sparkle.speedY k = 0
  /\ 0.4 <= Sparkle.opacity k /\ Sparkle.opacity k < 1.2
  /\ 0.5 <= Sparkle.depth k /\ Sparkle.depth k < 1
  /\ 35 <= Sparkle.hue k /\ Sparkle.hue k < 55.

(** The frame callbacks of a session all see the window [w]. *)
Definition sameWindow (w : Window) (e : Event) : Prop :=
  match e with
  | AnimationFrame w' => w' = w
  | _ => True
  end.

(** An entity within the margin, not above it, that does not move up. *)
Definition particle_settled (w : Window) (p : Particle.t) : Prop :=
  within_margin w (Particle.x p) (Particle.y p)
  /\ -10 <= Particle.y p /\ 0 <= Particle.speedY p /\ 0 <= Particle.depth p.

Definition sparkle_settled (w : Window) (k : Sparkle.t) : Prop :=
  within_margin w (Sparkle.x k) (Sparkle.y k)
  /\ -10 <= Sparkle.y k /\ 0 <= Sparkle.baseSpeedY k /\ 0 <= Sparkle.depth k.

(** What stays of a particle and of a sparkle while it moves. *)
Definition particle_kind (p : Particle.t) : Q * Q * Q * Q * Q * Q * ParticleType :=
  (Particle.size p, Particle.speedX p, Particle.speedY p, Particle.opacity p,
   Particle.rotationSpeed p, Particle.depth p, Particle.type p).

Definition sparkle_kind (k : Sparkle.t) : Q * Q * Q * Q * Q * Q * Q * Q :=
  (Sparkle.size k, Sparkle.baseSpeedX k, Sparkle.baseSpeedY k, Sparkle.opacity k,
   Sparkle.twinkleSpeed k, Sparkle.depth k, Sparkle.hue k, Sparkle.pulseSpeed k).

End ForestAmbient.

(** ** Concrete inputs *)

Module Examples.
Import ForestScroller.
Local Open Scope Q_scope.

(** [new ForestScroller()] *)
Definition noOptions : Options :=
  {| opt_canvasId := None; opt_imagePath := None; opt_imagePrefix := None;
     opt_imageFormat := None; opt_totalFrames := None; opt_smoothing := None;
     opt_preloadCount := None; opt_mobileFrameCount := None;
     opt_mobileBreakpoint := None; opt_onLoad := None; opt_onProgress := None;
     opt_onReady := None; opt_onError := None |}.

(** [new ForestScroller({ totalFrames, smoothing, onReady, onError })] *)
Definition options (frames : Z) (smooth : Q) : Options :=
  {| opt_canvasId := None; opt_imagePath := None; opt_imagePrefix := None;
     opt_imageFormat := None; opt_totalFrames := Some frames;
     opt_smoothing := Some smooth;
     opt_preloadCount := None; opt_mobileFrameCount := None;
     opt_mobileBreakpoint := None; opt_onLoad := None; opt_onProgress := None;
     opt_onReady := Some true; opt_onError := Some true |}.

(** A window [width] pixels wide and 800 high showing a page 1800 pixels
    high (so 1000 pixels of scrolling), scrolled down by [offset]. *)
Definition viewport (width offset : Q) : Window :=
  {| innerWidth := width; innerHeight := 800; pageYOffset := offset;
     scrollHeight := 1800; canvasFound := true;
     clientWidth := width; clientHeight := 800 |}.

(** A window showing a page that is no higher than the window. *)
Definition shortPage : Window :=
  {| innerWidth := 1024; innerHeight := 800; pageYOffset := 0;
     scrollHeight := 800; canvasFound := true;
     clientWidth := 1024; clientHeight := 800 |}.

Definition frameImage (i : Z) : Image :=
  {| src := i; naturalWidth := 1920; naturalHeight := 1080 |}.

(** A browser in which exactly the frames accepted by [ok] load. *)
Definition browser (w : Window) (ok : Z -> bool) : Browser :=
  {| window := w; decodesWebP := true;
     fetch := fun _ i => if ok i then Some (frameImage i) else None |}.

(** [new ForestScroller({ totalFrames, onLoad, onProgress })] *)
Definition watched (frames : Z) : Options :=
  {| opt_canvasId := None; opt_imagePath := None; opt_imagePrefix := None;
     opt_imageFormat := None; opt_totalFrames := Some frames;
     opt_smoothing := None;
     opt_preloadCount := None; opt_mobileFrameCount := None;
     opt_mobileBreakpoint := None; opt_onLoad := Some true;
     opt_onProgress := Some true;
     opt_onReady := None; opt_onError := None |}.

(** A page without the canvas element. *)
Definition noCanvas : Window :=
  {| innerWidth := 1024; innerHeight := 800; pageYOffset := 0;
     scrollHeight := 1800; canvasFound := false;
     clientWidth := 0; clientHeight := 0 |}.

Definition allFrames (i : Z) : bool := true.
Definition allBut (k : Z) (i : Z) : bool := negb (i =? k)%Z.

(** A light speck 0.1 pixel short of the left wrap line, drifting left. *)
Definition driftingSpeck : ForestAmbient.Particle.t :=
  {| ForestAmbient.Particle.x := -9.9; ForestAmbient.Particle.y := 100;
     ForestAmbient.Particle.size := 3;
     ForestAmbient.Particle.speedX := -0.2; ForestAmbient.Particle.speedY := 0.3;
     ForestAmbient.Particle.opacity := 0.5;
     ForestAmbient.Particle.rotation := 0;
     ForestAmbient.Particle.rotationSpeed := 0.01;
     ForestAmbient.Particle.depth := 0;
     ForestAmbient.Particle.type := ForestAmbient.speck |}.

(** A sparkle 0.1 pixel short of the bottom wrap line. *)
Definition sinkingSparkle : ForestAmbient.Sparkle.t :=
  {| ForestAmbient.Sparkle.x := 500; ForestAmbient.Sparkle.y := 809.9;
     ForestAmbient.Sparkle.size := 2;
     ForestAmbient.Sparkle.baseSpeedX := 0.1; ForestAmbient.Sparkle.baseSpeedY := 0.25;
     ForestAmbient.Sparkle.speedX := 0; ForestAmbient.Sparkle.speedY := 0;
     ForestAmbient.Sparkle.opacity := 0.8;
     ForestAmbient.Sparkle.twinkle := 1; ForestAmbient.Sparkle.twinkleSpeed := 0.03;
     ForestAmbient.Sparkle.depth := 0.5; ForestAmbient.Sparkle.hue := 40;
     ForestAmbient.Sparkle.pulsePhase := 2; ForestAmbient.Sparkle.pulseSpeed := 0.02 |}.

Definition ambientWindow : ForestAmbient.Window :=
  {| ForestAmbient.innerWidth := 1000; ForestAmbient.innerHeight := 800 |}.

(** [Math.random()] returning 1/2 every time. *)
Definition halves : ForestAmbient.Random := fun _ => 1 # 2.

(** [new ForestAmbient({ particleCount: 3, sparkleCount: 2 })] *)
Definition ambientOptions : ForestAmbient.Options :=
  {| ForestAmbient.opt_particleCount := Some 3%Z;
     ForestAmbient.opt_sparkleCount := Some 2%Z;
     ForestAmbient.opt_particleSpeed := None;
     ForestAmbient.opt_fogIntensity := None;
     ForestAmbient.opt_vignetteIntensity := None;
     ForestAmbient.opt_lightRays := None;
     ForestAmbient.opt_soundEnabled := None;
     ForestAmbient.opt_colorTint := None |}.

Definition ambient : ForestAmbient.Ambient :=
  {| ForestAmbient.config :=
       {| ForestAmbient.particleCount := 1; ForestAmbient.sparkleCount := 1;
          ForestAmbient.particleSpeed := 0.3; ForestAmbient.fogIntensity := 0.15;
          ForestAmbient.vignetteIntensity := 0.3; ForestAmbient.lightRays := true;
          ForestAmbient.soundEnabled := false;
          ForestAmbient.colorTint := "rgba(27, 94, 32, 0.08)" |};
     ForestAmbient.particles := [driftingSpeck];
     ForestAmbient.sparkles := [sinkingSparkle];
     ForestAmbient.lightRayOpacity := 0;
     ForestAmbient.scrollProgress := 0;
     ForestAmbient.scrollVelocity := 0;
     ForestAmbient.lastScrollY := 0;
     ForestAmbient.velocityMultiplier := 1 |}.

(** The order in which the concurrent requests of [preloadImages] settle
    when they settle in the order they were made. *)
Definition requestOrder (o : Options) (b : Browser) : list Z :=
  remainingFrames (checkWebPSupport b (detectDevice (window b) (construct o))).

(** A page opened on a desktop window, every frame loading, then scrolled
    down by a quarter of its scrollable height and left there. *)
Definition scrolledToQuarter : Scroller :=
  run [Scrolled (viewport 1024 250)]
      (init (browser (viewport 1024 0) allFrames)
            (requestOrder noOptions (browser (viewport 1024 0) allFrames))
            (construct noOptions)).

(** Frame callbacks 16 ms apart. *)
Definition clock16 (n : nat) : Q := inject_Z (16 * Z.of_nat (S n)).
End Examples.

(** * Properties *)

(** ** Facts about the JavaScript primitives *)

Module JSFacts.
Import JS.
Local Open Scope Q_scope.

Lemma Qltb_true (x y : Q) : Qltb x y = true <-> x < y.
Proof.
  unfold Qltb. rewrite negb_true_iff, <- not_true_iff_false, Qle_bool_iff.
  split; [apply Qnot_le_lt | apply Qlt_not_le].
Qed.

Lemma Qltb_false (x y : Q) : Qltb x y = false <-> y <= x.
Proof.
  unfold Qltb. rewrite negb_false_iff, Qle_bool_iff. reflexivity.
Qed.

Lemma Qltb_reflect (x y : Q) : reflect (x < y) (Qltb x y).
Proof.
  destruct (Qltb x y) eqn:E; constructor.
  - now apply Qltb_true.
  - apply Qltb_false in E. now apply Qle_not_lt.
Qed.

Lemma Math_max_spec (a b : Q) :
  (a < b /\ Math_max a b = b) \/ (b <= a /\ Math_max a b = a).
Proof.
  unfold Math_max. destruct (Qltb a b) eqn:E.
  - left. split; [now apply Qltb_true | reflexivity].
  - right. split; [now apply Qltb_false | reflexivity].
Qed.

Lemma Math_min_spec (a b : Q) :
  (b < a /\ Math_min a b = b) \/ (a <= b /\ Math_min a b = a).
Proof.
  unfold Math_min. destruct (Qltb b a) eqn:E.
  - left. split; [now apply Qltb_true | reflexivity].
  - right. split; [now apply Qltb_false | reflexivity].
Qed.

(** [Math.max(0, Math.min(x, hi))] lies in [[0, hi]] when the interval is
    not empty. *)
Lemma clamp_range (x hi : Q) :
  0 <= hi -> 0 <= Math_max 0 (Math_min x hi) /\ Math_max 0 (Math_min x hi) <= hi.
Proof.
  intros Hhi.
  destruct (Math_max_spec 0 (Math_min x hi)) as [[H1 ->] | [H1 ->]];
    destruct (Math_min_spec x hi) as [[H2 E] | [H2 E]];
    rewrite E in *; split; lra.
Qed.

(** It leaves a value of the interval alone. *)
Lemma clamp_inside (x hi : Q) :
  0 <= x -> x <= hi -> Math_max 0 (Math_min x hi) == x.
Proof.
  intros H0 H1.
  destruct (Math_max_spec 0 (Math_min x hi)) as [[H2 ->] | [H2 ->]];
    destruct (Math_min_spec x hi) as [[H3 E] | [H3 E]];
    rewrite E in *; lra.
Qed.

Lemma inject_Z_succ (z : Z) : inject_Z (z + 1) == inject_Z z + 1.
Proof. rewrite inject_Z_plus. reflexivity. Qed.

Lemma inject_Z_half_floor (z : Z) (e : Q) :
  -(1 # 2) <= e -> e < 1 # 2 -> Qfloor (inject_Z z + e + (1 # 2)) = z.
Proof.
  intros Hlo Hhi.
  pose proof (Qfloor_le (inject_Z z + e + (1 # 2))) as Hle.
  pose proof (Qlt_floor (inject_Z z + e + (1 # 2))) as Hlt.
  set (f := Qfloor (inject_Z z + e + (1 # 2))) in *.
  rewrite inject_Z_succ in Hlt.
  assert (inject_Z f < inject_Z (z + 1)) as H1 by (rewrite inject_Z_succ; lra).
  assert (inject_Z z < inject_Z (f + 1)) as H2 by (rewrite inject_Z_succ; lra).
  rewrite <- Zlt_Qlt in H1, H2. lia.
Qed.

(** [Math.round] of a number less than a half away from an integer. *)
Lemma Math_round_near (z : Z) (x : Q) :
  inject_Z z - (1 # 2) <= x -> x < inject_Z z + (1 # 2) ->
  Math_round x = inject_Z z.
Proof.
  intros Hlo Hhi. unfold Math_round. f_equal.
  rewrite (Qfloor_comp _ (inject_Z z + (x - inject_Z z) + (1 # 2))) by ring.
  apply inject_Z_half_floor; lra.
Qed.

(** [Math.round] does not leave an interval with integer ends. *)
Lemma Math_round_range (lo hi : Z) (x : Q) :
  inject_Z lo <= x -> x <= inject_Z hi ->
  inject_Z lo <= Math_round x /\ Math_round x <= inject_Z hi.
Proof.
  intros Hlo Hhi. unfold Math_round.
  pose proof (Qfloor_le (x + (1 # 2))) as Hle.
  pose proof (Qlt_floor (x + (1 # 2))) as Hlt.
  set (f := Qfloor (x + (1 # 2))) in *.
  rewrite inject_Z_succ in Hlt.
  assert (inject_Z lo < inject_Z (f + 1)) as H1 by (rewrite inject_Z_succ; lra).
  assert (inject_Z f < inject_Z (hi + 1)) as H2 by (rewrite inject_Z_succ; lra).
  rewrite <- Zlt_Qlt in H1, H2.
  rewrite <- !Zle_Qle. lia.
Qed.

Lemma Math_pow_3 (x : Q) : Math_pow x 3 == x * x * x.
Proof. unfold Math_pow. simpl. ring. Qed.
End JSFacts.

(** ** ForestScroller: the scroll-to-frame mapping *)

Module ScrollMapping.
Import JS JSFacts ForestScroller.
Local Open Scope Q_scope.

Lemma easeInOutCubic_low (t : Q) : t < 0.5 -> easeInOutCubic t == 4 * t * t * t.
Proof.
  intros H. unfold easeInOutCubic.
  destruct (Qltb_reflect t 0.5); [reflexivity | contradiction].
Qed.

Lemma easeInOutCubic_high (t : Q) :
  0.5 <= t ->
  easeInOutCubic t == 1 - (2 - 2 * t) * (2 - 2 * t) * (2 - 2 * t) * (1 # 2).
Proof.
  intros H. unfold easeInOutCubic.
  destruct (Qltb_reflect t 0.5) as [Hlt | _]; [lra |].
  rewrite Math_pow_3. field.
Qed.

Lemma cube_monotone (a b : Q) : 0 <= a -> a <= b -> a * a * a <= b * b * b.
Proof.
  intros Ha Hab.
  assert (0 <= a * (b - a)) as H1 by (apply Qmult_le_0_compat; lra).
  assert (0 <= b * (b - a)) as H2 by (apply Qmult_le_0_compat; lra).
  assert (0 <= a * (b * b - a * a)) as H3 by (apply Qmult_le_0_compat; lra).
  assert (0 <= (b - a) * (b * b)) as H4
    by (apply Qmult_le_0_compat; [lra | apply Qmult_le_0_compat; lra]).
  lra.
Qed.

Lemma easeInOutCubic_monotone (p q : Q) :
  0 <= p -> p <= q -> q <= 1 -> easeInOutCubic p <= easeInOutCubic q.
Proof.
  intros H0 Hpq H1.
  destruct (Qlt_le_dec p 0.5) as [Hp | Hp]; destruct (Qlt_le_dec q 0.5) as [Hq | Hq].
  - rewrite !easeInOutCubic_low by assumption.
    pose proof (cube_monotone p q H0 Hpq). lra.
  - rewrite easeInOutCubic_low, easeInOutCubic_high by assumption.
    assert (p * p * p <= (1 # 2) * (1 # 2) * (1 # 2)) by (apply cube_monotone; lra).
    assert ((2 - 2 * q) * (2 - 2 * q) * (2 - 2 * q) <= 1 * 1 * 1)
      by (apply cube_monotone; lra).
    lra.
  - lra.
  - rewrite !easeInOutCubic_high by assumption.
    assert ((2 - 2 * q) * (2 - 2 * q) * (2 - 2 * q)
            <= (2 - 2 * p) * (2 - 2 * p) * (2 - 2 * p))
      by (apply cube_monotone; lra).
    lra.
Qed.

Lemma easeInOutCubic_0 : easeInOutCubic 0 == 0.
Proof. reflexivity. Qed.

Lemma easeInOutCubic_1 : easeInOutCubic 1 == 1.
Proof. reflexivity. Qed.

Lemma easeInOutCubic_range (p : Q) :
  0 <= p -> p <= 1 -> 0 <= easeInOutCubic p /\ easeInOutCubic p <= 1.
Proof.
  intros H0 H1. split.
  - rewrite <- easeInOutCubic_0. apply easeInOutCubic_monotone; lra.
  - rewrite <- easeInOutCubic_1. apply easeInOutCubic_monotone; lra.
Qed.

#[global] Instance easeInOutCubic_Proper : Proper (Qeq ==> Qeq) easeInOutCubic.
Proof.
  intros p q Hpq.
  destruct (Qlt_le_dec p 0.5) as [Hp | Hp].
  - rewrite !easeInOutCubic_low by lra. now rewrite Hpq.
  - rewrite !easeInOutCubic_high by lra. now rewrite Hpq.
Qed.

(** The progress computed from the window is a number of [[0, 1]]. *)
Lemma scrollProgress_range (w : Window) :
  0 <= scrollProgress w /\ scrollProgress w <= 1.
Proof.
  unfold scrollProgress. destruct (Qltb 0 (scrollHeight w - innerHeight w)).
  - destruct (Math_max_spec 0 (Math_min 1 (pageYOffset w / (scrollHeight w - innerHeight w))))
      as [[H1 ->] | [H1 ->]];
    destruct (Math_min_spec 1 (pageYOffset w / (scrollHeight w - innerHeight w)))
      as [[H2 E] | [H2 E]]; rewrite E in *; lra.
  - lra.
Qed.

Lemma targetFrame_updateScrollPosition (w : Window) (s : Scroller) :
  targetFrame (updateScrollPosition w s)
  = easeInOutCubic (scrollProgress w) * lastFrame s.
Proof. reflexivity. Qed.

Lemma lastFrame_nonneg (s : Scroller) :
  (1 <= totalFrames (config s))%Z -> 0 <= lastFrame s.
Proof.
  intros H. unfold lastFrame. change 0 with (inject_Z 0). rewrite <- Zle_Qle. lia.
Qed.

(** C5. The target frame computed by [updateScrollPosition] is monotone in
    the scroll progress and lies in [[0, totalFrames - 1]]: for progress
    values [p1 <= p2] of [[0, 1]], whatever windows produce them, the target
    for [p1] is at most the target for [p2], and both are in range. *)
Theorem targetFrame_monotone_in_range (s : Scroller) (w1 w2 : Window) (p1 p2 : Q) :
  (1 <= totalFrames (config s))%Z ->
  scrollProgress w1 == p1 -> scrollProgress w2 == p2 ->
  0 <= p1 -> p1 <= p2 -> p2 <= 1 ->
  targetFrame (updateScrollPosition w1 s) <= targetFrame (updateScrollPosition w2 s)
  /\ 0 <= targetFrame (updateScrollPosition w1 s) <= lastFrame s
  /\ 0 <= targetFrame (updateScrollPosition w2 s) <= lastFrame s.
Proof.
  intros HT E1 E2 H0 H12 H1.
  rewrite !targetFrame_updateScrollPosition, E1, E2.
  pose proof (lastFrame_nonneg s HT) as HL.
  pose proof (easeInOutCubic_monotone p1 p2 H0 H12 H1) as Hm.
  destruct (easeInOutCubic_range p1) as [Ha Hb]; [lra | lra |].
  destruct (easeInOutCubic_range p2) as [Hc Hd]; [lra | lra |].
  repeat split; nra.
Qed.
End ScrollMapping.

(** ** ForestScroller: which fields an operation writes *)

Module Footprint.
Import JS JSFacts ForestScroller.
Local Open Scope Q_scope.

(** Reduce field accesses of updated records, and nothing else. *)
Ltac fields :=
  cbn [config ctx images loadedImages currentFrame targetFrame isLoading
       loadedCount isMobile animationFrameId supportsWebP velocity lastScrollY
       scrollVelocity lastFrameTime fps inflight painted calls
       set_config set_ctx set_images set_loadedImages set_currentFrame
       set_targetFrame set_isLoading set_loadedCount set_isMobile
       set_animationFrameId set_supportsWebP set_velocity set_lastScrollY
       set_scrollVelocity set_lastFrameTime set_fps set_inflight set_painted
       set_calls fst snd] in *.

(** Drawing writes the canvas and nothing else. *)
Lemma drawFrameWithBlending_paints (w : Window) (x : Q) (s : Scroller) :
  drawFrameWithBlending w x s
  = set_painted (painted (drawFrameWithBlending w x s)) s.
Proof.
  unfold drawFrameWithBlending.
  destruct (ctx s); simpl; [| now destruct s].
  destruct (images s !! Qfloor x) as [img1 |]; [| now destruct s].
  destruct (truthy (naturalWidth img1)); simpl; [reflexivity | now destruct s].
Qed.

Lemma resizeCanvas_paints (w : Window) (s : Scroller) :
  resizeCanvas w s = set_painted (painted (resizeCanvas w s)) s.
Proof.
  unfold resizeCanvas.
  destruct (ctx s); simpl; [| now destruct s].
  destruct (images s !! Qfloor (currentFrame s)); [| reflexivity].
  rewrite drawFrameWithBlending_paints. reflexivity.
Qed.

Lemma call_calls (present : bool) (c : Call) (s : Scroller) :
  call present c s = set_calls (calls (call present c s)) s.
Proof. unfold call. destruct present; [reflexivity | now destruct s]. Qed.

(** A settled request touches the image store, the counter and the
    callbacks. *)
Lemma updateProgress_calls (s : Scroller) :
  updateProgress s = set_calls (calls (updateProgress s)) s.
Proof.
  unfold updateProgress.
  rewrite call_calls. rewrite (call_calls (onProgress _)). reflexivity.
Qed.

Lemma currentFrame_settleImage (b : Browser) (i : Z) (s : Scroller) :
  currentFrame (fst (settleImage b i s)) = currentFrame s
  /\ config (fst (settleImage b i s)) = config s.
Proof.
  unfold settleImage. destruct (fetch b _ i); [| now split].
  unfold img_onload. rewrite updateProgress_calls. now split.
Qed.

(** No event changes the configuration. *)
Lemma config_handle (e : Event) (s : Scroller) : config (handle e s) = config s.
Proof.
  destruct e; simpl.
  - destruct (animationFrameId s); [| reflexivity].
    unfold animate, requestAnimationFrame.
    rewrite drawFrameWithBlending_paints.
    unfold adaptiveSmoothness, lastFrame.
    destruct (truthy (lastFrameTime s)); fields;
      match goal with |- context [if Qltb (Math_abs ?v) ?c then _ else _] =>
        destruct (Qltb (Math_abs v) c) end;
      reflexivity.
  - reflexivity.
  - rewrite resizeCanvas_paints. reflexivity.
  - unfold imageSettled. destruct (includes (inflight s) index); [| reflexivity].
    now rewrite (proj2 (currentFrame_settleImage _ _ _)).
  - unfold jumpToFrame, drawFrame. rewrite drawFrameWithBlending_paints. reflexivity.
  - unfold jumpToProgress, jumpToFrame, drawFrame.
    rewrite drawFrameWithBlending_paints. reflexivity.
  - unfold pause. now destruct (animationFrameId s).
  - unfold resume. now destruct (animationFrameId s).
  - unfold destroy. simpl. now destruct (ctx s).
Qed.

Lemma config_run (es : list Event) (s : Scroller) : config (run es s) = config s.
Proof.
  revert s. induction es as [| e es IH]; intros s; [reflexivity |].
  simpl. unfold run in IH. rewrite IH. apply config_handle.
Qed.
End Footprint.

(** ** ForestScroller: the playback position stays in range *)

Module Playback.
Import JS JSFacts ForestScroller Footprint ScrollMapping.
Local Open Scope Q_scope.

(** What one run of the frame callback does to the velocity and to the
    position. *)
Lemma velocity_animate (w : Window) (t : Q) (s : Scroller) :
  velocity (animate w t s)
  = (velocity s + (targetFrame s - currentFrame s) * adaptiveSmoothness s) * 0.75.
Proof.
  unfold animate, requestAnimationFrame. rewrite drawFrameWithBlending_paints.
  unfold adaptiveSmoothness, lastFrame.
  destruct (truthy (lastFrameTime s)); fields;
    match goal with |- context [if Qltb (Math_abs ?v) ?c then _ else _] =>
      destruct (Qltb (Math_abs v) c) end;
    reflexivity.
Qed.

Lemma currentFrame_animate (w : Window) (t : Q) (s : Scroller) :
  currentFrame (animate w t s)
  = let v := velocity (animate w t s) in
    let c := Math_max 0 (Math_min (currentFrame s + v) (lastFrame s)) in
    if Qltb (Math_abs v) velocityThreshold then Math_round c else c.
Proof.
  rewrite velocity_animate.
  unfold animate, requestAnimationFrame. rewrite drawFrameWithBlending_paints.
  unfold adaptiveSmoothness, lastFrame.
  destruct (truthy (lastFrameTime s)); fields;
    match goal with |- context [if Qltb (Math_abs ?v) ?c then _ else _] =>
      destruct (Qltb (Math_abs v) c) end;
    reflexivity.
Qed.

Lemma targetFrame_animate (w : Window) (t : Q) (s : Scroller) :
  targetFrame (animate w t s) = targetFrame s
  /\ scrollVelocity (animate w t s) = scrollVelocity s
  /\ config (animate w t s) = config s.
Proof.
  unfold animate, requestAnimationFrame. rewrite drawFrameWithBlending_paints.
  unfold adaptiveSmoothness, lastFrame.
  destruct (truthy (lastFrameTime s)); fields;
    match goal with |- context [if Qltb (Math_abs ?v) ?c then _ else _] =>
      destruct (Qltb (Math_abs v) c) end;
    repeat split.
Qed.

Lemma in_range_animate (w : Window) (t : Q) (s : Scroller) :
  (1 <= totalFrames (config s))%Z -> in_range (animate w t s).
Proof.
  intros HT. unfold in_range.
  assert (lastFrame (animate w t s) = lastFrame s) as ->
    by (unfold lastFrame; now rewrite (proj2 (proj2 (targetFrame_animate w t s)))).
  rewrite currentFrame_animate. cbv zeta.
  pose proof (lastFrame_nonneg s HT) as HL.
  destruct (clamp_range (currentFrame s + velocity (animate w t s)) (lastFrame s) HL)
    as [H0 H1].
  destruct (Qltb _ velocityThreshold); [| now split].
  apply (Math_round_range 0 (totalFrames (config s) - 1)); assumption.
Qed.

Lemma in_range_jumpToFrame (w : Window) (x : Q) (s : Scroller) :
  (1 <= totalFrames (config s))%Z -> in_range (jumpToFrame w x s).
Proof.
  intros HT. unfold in_range, jumpToFrame, drawFrame.
  rewrite drawFrameWithBlending_paints. unfold lastFrame at 2. simpl.
  apply clamp_range. now apply lastFrame_nonneg.
Qed.

Lemma in_range_handle (e : Event) (s : Scroller) :
  (1 <= totalFrames (config s))%Z -> in_range s -> in_range (handle e s).
Proof.
  intros HT Hs. destruct e; simpl.
  - destruct (animationFrameId s); [now apply in_range_animate | assumption].
  - exact Hs.
  - rewrite resizeCanvas_paints. exact Hs.
  - unfold imageSettled. destruct (includes (inflight s) index); [| exact Hs].
    unfold in_range, lastFrame.
    destruct (currentFrame_settleImage b index
                (set_inflight (remove_first index (inflight s)) s)) as [-> ->].
    exact Hs.
  - now apply in_range_jumpToFrame.
  - now apply in_range_jumpToFrame.
  - unfold pause. now destruct (animationFrameId s).
  - unfold resume. now destruct (animationFrameId s).
  - unfold destroy, in_range, lastFrame. simpl. now destruct (ctx s).
Qed.

Lemma in_range_run (es : list Event) (s : Scroller) :
  (1 <= totalFrames (config s))%Z -> in_range s -> in_range (run es s).
Proof.
  revert s. induction es as [| e es IH]; intros s HT Hs; [exact Hs |].
  simpl. apply IH.
  - now rewrite config_handle.
  - now apply in_range_handle.
Qed.
End Playback.

(** ** ForestScroller: what loading leaves alone *)

Module Loading.
Import JS JSFacts ForestScroller Footprint.
Local Open Scope Q_scope.

Lemma loader_writes_refl (s : Scroller) : loader_writes s s.
Proof. unfold loader_writes. now destruct s. Qed.

Lemma loader_writes_trans (s1 s2 s3 : Scroller) :
  loader_writes s1 s2 -> loader_writes s2 s3 -> loader_writes s1 s3.
Proof.
  unfold loader_writes. intros H12 H23. rewrite H23. rewrite H12 at 1. reflexivity.
Qed.

Lemma loader_writes_painted (v : list Layer) (s : Scroller) :
  loader_writes s (set_painted v s).
Proof. unfold loader_writes. now destruct s. Qed.

Lemma loader_writes_draw (w : Window) (x : Q) (s : Scroller) :
  loader_writes s (drawFrameWithBlending w x s).
Proof. rewrite drawFrameWithBlending_paints. apply loader_writes_painted. Qed.

Lemma loader_writes_settleImage (b : Browser) (i : Z) (s : Scroller) :
  loader_writes s (fst (settleImage b i s)).
Proof.
  unfold settleImage. destruct (fetch b _ i); [| apply loader_writes_refl].
  unfold img_onload. rewrite updateProgress_calls.
  unfold loader_writes. now destruct s.
Qed.

Lemma loader_writes_loadImage (b : Browser) (i : Z) (s : Scroller) :
  loader_writes s (fst (loadImage b i s)).
Proof.
  unfold loadImage. destruct (bool_decide _);
    [apply loader_writes_refl | apply loader_writes_settleImage].
Qed.

Lemma loader_writes_loadInOrder (b : Browser) (frames : list Z) (s : Scroller) :
  loader_writes s (fst (loadInOrder b frames s)).
Proof.
  revert s. induction frames as [| i rest IH]; intros s; simpl.
  - apply loader_writes_refl.
  - pose proof (loader_writes_loadImage b i s) as H.
    destruct (loadImage b i s) as [s' [| e]]; simpl in H |- *.
    + eapply loader_writes_trans; [exact H | apply IH].
    + exact H.
Qed.

Lemma loader_writes_awaitAll (b : Browser) (order : list Z) (s : Scroller) :
  loader_writes s (fst (fst (awaitAll b order s))).
Proof.
  revert s. induction order as [| i rest IH]; intros s; simpl.
  - apply loader_writes_refl.
  - pose proof (loader_writes_settleImage b i s) as H.
    destruct (settleImage b i s) as [s' [| e]]; simpl in H |- *.
    + eapply loader_writes_trans; [exact H | apply IH].
    + exact H.
Qed.

Lemma loader_writes_preloadImages (b : Browser) (order : list Z) (s : Scroller) :
  loader_writes s (fst (fst (preloadImages b order s))).
Proof.
  unfold preloadImages.
  pose proof (loader_writes_loadInOrder b (priorityFrames s) s) as H.
  destruct (loadInOrder b (priorityFrames s) s) as [s' [| e]]; simpl in H |- *;
    [| exact H].
  eapply loader_writes_trans; [exact H |].
  eapply loader_writes_trans; [| apply loader_writes_awaitAll].
  destruct (images s' !! 0%Z); [apply loader_writes_draw | apply loader_writes_refl].
Qed.

(** The fields loading does not write. *)
Lemma loader_writes_keeps (s s' : Scroller) :
  loader_writes s s' ->
  config s' = config s /\ ctx s' = ctx s /\ currentFrame s' = currentFrame s
  /\ targetFrame s' = targetFrame s /\ velocity s' = velocity s
  /\ isLoading s' = isLoading s /\ isMobile s' = isMobile s
  /\ animationFrameId s' = animationFrameId s /\ inflight s' = inflight s
  /\ scrollVelocity s' = scrollVelocity s /\ lastScrollY s' = lastScrollY s.
Proof. intros ->. repeat split. Qed.
End Loading.

(** ** ForestScroller: initialisation, mobile detection and the range
    invariant *)

Module Initialisation.
Import JS JSFacts ForestScroller Footprint Loading Playback ScrollMapping.
Local Open Scope Q_scope.

(** The configuration in force once [init] has detected the device and
    probed the image format. *)
Lemma config_checkWebPSupport (b : Browser) (s : Scroller) :
  totalFrames (config (checkWebPSupport b s)) = totalFrames (config s)
  /\ currentFrame (checkWebPSupport b s) = currentFrame s
  /\ velocity (checkWebPSupport b s) = velocity s
  /\ isMobile (checkWebPSupport b s) = isMobile s.
Proof. unfold checkWebPSupport. now destruct (decodesWebP b). Qed.

Lemma currentFrame_detectDevice (w : Window) (s : Scroller) :
  currentFrame (detectDevice w s) = currentFrame s
  /\ velocity (detectDevice w s) = velocity s.
Proof.
  unfold detectDevice. fields.
  now destruct (Qle_bool (innerWidth w) (mobileBreakpoint (config s))).
Qed.

(** [init] leaves the playback position and the velocity alone, and the
    only thing it changes in the configuration is what device detection
    and the format probe change. *)
Lemma init_keeps (b : Browser) (order : list Z) (s : Scroller) :
  currentFrame (init b order s) = currentFrame s
  /\ velocity (init b order s) = velocity s
  /\ config (init b order s)
     = config (checkWebPSupport b (detectDevice (window b) s))
  /\ isMobile (init b order s) = isMobile (detectDevice (window b) s).
Proof.
  unfold init.
  destruct (currentFrame_detectDevice (window b) s) as [Hc1 Hv1].
  destruct (config_checkWebPSupport b (detectDevice (window b) s))
    as (_ & Hc2 & Hv2 & Hm).
  set (s2 := checkWebPSupport b (detectDevice (window b) s)) in *.
  assert (currentFrame s2 = currentFrame s) as Hc by congruence.
  assert (velocity s2 = velocity s) as Hv by congruence.
  rewrite <- Hm.
  clearbody s2. clear Hc1 Hv1 Hc2 Hv2 Hm.
  unfold setupCanvas, initFailed.
  destruct (canvasFound (window b)); cbn [negb].
  - set (s3 := resizeCanvas (window b) (set_ctx true s2)).
    assert (currentFrame s3 = currentFrame s /\ velocity s3 = velocity s
            /\ config s3 = config s2 /\ isMobile s3 = isMobile s2)
      as (Hc3 & Hv3 & Hk3 & Hm3)
      by (subst s3; rewrite resizeCanvas_paints; now repeat split).
    clearbody s3.
    pose proof (loader_writes_keeps _ _ (loader_writes_preloadImages b order s3))
      as (Hk & _ & Hc4 & _ & Hv4 & _ & Hm4 & _).
    destruct (preloadImages b order s3) as [[s4 [| e]] pending]; fields.
    + rewrite call_calls.
      unfold setupScrollListener, startAnimationLoop, requestAnimationFrame,
        updateScrollPosition, lazyLoadNearbyFrames.
      fields. repeat split; congruence.
    + rewrite call_calls. fields. repeat split; congruence.
  - rewrite call_calls. fields. now repeat split.
Qed.

Lemma detectDevice_mobile (w : Window) (s : Scroller) :
  innerWidth w <= mobileBreakpoint (config s) ->
  totalFrames (config (detectDevice w s)) = mobileFrameCount (config s)
  /\ isMobile (detectDevice w s) = true.
Proof.
  intros H. apply Qle_bool_iff in H. unfold detectDevice. fields.
  rewrite H. now split.
Qed.

Lemma detectDevice_desktop (w : Window) (s : Scroller) :
  mobileBreakpoint (config s) < innerWidth w ->
  totalFrames (config (detectDevice w s)) = totalFrames (config s)
  /\ isMobile (detectDevice w s) = false.
Proof.
  intros H. unfold detectDevice. fields.
  destruct (Qle_bool (innerWidth w) (mobileBreakpoint (config s))) eqn:E.
  - apply Qle_bool_iff in E. lra.
  - now split.
Qed.

(** C4 (as the code has it).  Device detection compares with [<=]: when the
    viewport width is at most [mobileBreakpoint] (the breakpoint itself
    included) [init] replaces [totalFrames] by [mobileFrameCount]; when it is
    greater, [totalFrames] is left as configured.  Nothing that happens
    afterwards changes [totalFrames] again. *)
Theorem mobile_detection_inclusive
        (o : Options) (b : Browser) (order : list Z) (es : list Event) :
  (innerWidth (window b) <= mobileBreakpoint (config (construct o)) ->
   totalFrames (config (init b order (construct o)))
   = mobileFrameCount (config (construct o))
   /\ isMobile (init b order (construct o)) = true)
  /\ (mobileBreakpoint (config (construct o)) < innerWidth (window b) ->
      totalFrames (config (init b order (construct o)))
      = totalFrames (config (construct o))
      /\ isMobile (init b order (construct o)) = false)
  /\ totalFrames (config (run es (init b order (construct o))))
     = totalFrames (config (init b order (construct o))).
Proof.
  destruct (init_keeps b order (construct o)) as (_ & _ & -> & ->).
  rewrite (proj1 (config_checkWebPSupport b _)).
  split; [apply detectDevice_mobile |].
  split; [apply detectDevice_desktop |].
  rewrite config_run.
  destruct (init_keeps b order (construct o)) as (_ & _ & -> & _).
  apply config_checkWebPSupport.
Qed.

(** C6. The playback position satisfies [0 <= currentFrame <= totalFrames - 1]
    at all times: it is 0 at construction and is still 0 when [init] is over,
    and every event of a session (a run of the draw loop with its spring
    update, clamp and snap, [jumpToFrame] and [jumpToProgress] with any
    argument, scrolling, resizing, a settled image, pause, resume, destroy)
    keeps it in range. *)
Theorem currentFrame_always_in_range
        (o : Options) (b : Browser) (order : list Z) (es : list Event) :
  (1 <= totalFrames (config (init b order (construct o))))%Z ->
  currentFrame (construct o) = 0
  /\ in_range (init b order (construct o))
  /\ in_range (run es (init b order (construct o))).
Proof.
  intros HT.
  assert (in_range (init b order (construct o))) as H0.
  { unfold in_range.
    rewrite (proj1 (init_keeps b order (construct o))).
    split; [apply Qle_refl | now apply lastFrame_nonneg]. }
  split; [reflexivity |]. split; [exact H0 |].
  now apply in_range_run.
Qed.
End Initialisation.

(** ** ForestScroller: worked cases of mobile detection and scrolling *)

Module Cases.
Import JS JSFacts ForestScroller Footprint Loading Playback ScrollMapping
       Initialisation Examples.
Local Open Scope Q_scope.

(** C4, the two widths named with the property: 500 is mobile and gets the
    60 mobile frames, 1024 keeps the 120 configured ones. *)
Lemma mobile_detection_500_1024 :
  totalFrames (config (init (browser (viewport 500 0) allFrames) [] (construct noOptions)))
  = mobileFrameCount (config (construct noOptions))
  /\ totalFrames (config (init (browser (viewport 1024 0) allFrames) [] (construct noOptions)))
     = totalFrames (config (construct noOptions)).
Proof.
  split.
  - destruct (mobile_detection_inclusive
                noOptions (browser (viewport 500 0) allFrames) [] []) as (H & _ & _).
    apply H. vm_compute. discriminate.
  - destruct (mobile_detection_inclusive
                noOptions (browser (viewport 1024 0) allFrames) [] []) as (_ & H & _).
    apply H. vm_compute. reflexivity.
Defined.

(** C4 as stated fails at the breakpoint itself: a window exactly 768 pixels
    wide is not below the breakpoint 768, and yet [totalFrames] is replaced
    (120 becomes 60). *)
Lemma width_at_breakpoint_is_mobile :
  ~ (forall (o : Options) (b : Browser) (order : list Z),
        ~ innerWidth (window b) < mobileBreakpoint (config (construct o)) ->
        totalFrames (config (init b order (construct o)))
        = totalFrames (config (construct o))).
Proof.
  intros H.
  assert (~ innerWidth (window (browser (viewport 768 0) allFrames))
            < mobileBreakpoint (config (construct noOptions))) as Hw
      by (vm_compute; discriminate).
  pose proof (H noOptions (browser (viewport 768 0) allFrames)
                (requestOrder noOptions (browser (viewport 768 0) allFrames)) Hw) as E.
  pose proof (f_equal totalFrames
                (proj1 (proj2 (proj2
                   (init_keeps (browser (viewport 768 0) allFrames)
                      (requestOrder noOptions (browser (viewport 768 0) allFrames))
                      (construct noOptions)))))) as Hk.
  assert (totalFrames
            (config (checkWebPSupport (browser (viewport 768 0) allFrames)
                       (detectDevice (window (browser (viewport 768 0) allFrames))
                          (construct noOptions)))) = 60%Z) as E60
      by (vm_compute; reflexivity).
  assert (totalFrames (config (construct noOptions)) = 120%Z) as E120
      by (vm_compute; reflexivity).
  congruence.
Qed.

(** C10. [updateScrollPosition] does not divide when the document has no
    scrollable extent: when [scrollHeight - innerHeight] is zero or negative
    the progress is 0 and so is the target frame. *)
Theorem updateScrollPosition_no_extent (w : Window) (s : Scroller) :
  scrollHeight w - innerHeight w <= 0 ->
  scrollProgress w = 0 /\ targetFrame (updateScrollPosition w s) == 0.
Proof.
  intros H.
  assert (scrollProgress w = 0) as E.
  { unfold scrollProgress.
    destruct (Qltb_reflect 0 (scrollHeight w - innerHeight w)); [lra | reflexivity]. }
  split; [exact E |].
  rewrite targetFrame_updateScrollPosition, E. rewrite easeInOutCubic_0. ring.
Qed.

Lemma updateScrollPosition_no_extent_witness :
  scrollProgress shortPage = 0
  /\ targetFrame (updateScrollPosition shortPage (construct noOptions)) == 0.
Proof.
  apply (updateScrollPosition_no_extent shortPage (construct noOptions)).
  vm_compute. discriminate.
Defined.

Lemma targetFrame_monotone_in_range_witness :
  targetFrame (updateScrollPosition (viewport 1024 250) (construct noOptions))
  <= targetFrame (updateScrollPosition (viewport 1024 500) (construct noOptions))
  /\ 0 <= targetFrame (updateScrollPosition (viewport 1024 250) (construct noOptions))
     <= lastFrame (construct noOptions)
  /\ 0 <= targetFrame (updateScrollPosition (viewport 1024 500) (construct noOptions))
     <= lastFrame (construct noOptions).
Proof.
  apply (targetFrame_monotone_in_range (construct noOptions)
           (viewport 1024 250) (viewport 1024 500) (1 # 4) (1 # 2)).
  - vm_compute. discriminate.
  - vm_compute. reflexivity.
  - vm_compute. reflexivity.
  - vm_compute. discriminate.
  - vm_compute. discriminate.
  - vm_compute. discriminate.
Defined.

Lemma currentFrame_always_in_range_witness :
  currentFrame (construct noOptions) = 0
  /\ in_range (init (browser (viewport 1024 0) allFrames) [] (construct noOptions))
  /\ in_range (run [Scrolled (viewport 1024 400);
                    AnimationFrame (viewport 1024 400) 16;
                    JumpToFrame (viewport 1024 400) 500;
                    JumpToProgress (viewport 1024 400) (-20)]
                   (init (browser (viewport 1024 0) allFrames) [] (construct noOptions))).
Proof.
  apply (currentFrame_always_in_range noOptions (browser (viewport 1024 0) allFrames) []).
  vm_compute. discriminate.
Defined.

(** A few evaluations of the model. *)
Example easeInOutCubic_quarters :
  easeInOutCubic 0.25 == 1 # 16 /\ easeInOutCubic 0.5 == 1 # 2
  /\ easeInOutCubic 0.75 == 15 # 16.
Proof. repeat split. Qed.

Example Math_round_halves :
  Math_round 2.5 = 3 /\ Math_round 2.4 = 2 /\ Math_round (-2.5) = -2.
Proof. repeat split. Qed.

Example zero_option_is_default :
  totalFrames (mergeOptions (options 0 0)) = 120%Z
  /\ smoothing (mergeOptions (options 0 0)) = 0.1.
Proof. split; reflexivity. Qed.

Example priorityFrames_default :
  priorityFrames (construct noOptions) = [0; 60; 119]%Z.
Proof. reflexivity. Qed.

Example page_opened_and_scrolled :
  m_loadedFrames (getMetrics scrolledToQuarter) = 120%Z
  /\ targetFrame scrolledToQuarter == 7.4375
  /\ scrollVelocity scrolledToQuarter == 250
  /\ inflight scrolledToQuarter = []
  /\ isLoading scrolledToQuarter = false.
Proof. vm_compute. repeat split. Qed.
End Cases.

(** ** ForestScroller: programmatic navigation *)

Module Navigation.
Import JS JSFacts ForestScroller Footprint Examples.
Local Open Scope Q_scope.

(** What [drawFrameWithBlending] paints depends on the context, the image
    store and the configuration only. *)
Lemma drawFrameWithBlending_set (w : Window) (x c : Q) (s : Scroller) :
  drawFrameWithBlending w x (set_targetFrame c (set_currentFrame c s))
  = set_targetFrame c (set_currentFrame c (drawFrameWithBlending w x s)).
Proof.
  unfold drawFrameWithBlending, applyDepthGrading, lastFrame. fields.
  destruct (ctx s); cbn [negb]; [| reflexivity].
  destruct (images s !! Qfloor x) as [img1 |]; [| reflexivity].
  destruct (truthy (naturalWidth img1)); reflexivity.
Qed.

(** Painting the same frame twice paints the same thing. *)
Lemma drawFrameWithBlending_twice (w : Window) (x : Q) (s : Scroller) :
  drawFrameWithBlending w x (drawFrameWithBlending w x s)
  = drawFrameWithBlending w x s.
Proof.
  unfold drawFrameWithBlending, applyDepthGrading, lastFrame.
  destruct (ctx s) eqn:Hctx; cbn [negb]; [| now rewrite Hctx].
  destruct (images s !! Qfloor x) as [img1 |] eqn:H1;
    [| now rewrite Hctx, H1].
  destruct (truthy (naturalWidth img1)) eqn:Ht; cbn [negb];
    [| now rewrite Hctx, H1, Ht].
  fields. rewrite Hctx, H1, Ht. reflexivity.
Qed.

Lemma set_frames_twice (c : Q) (s : Scroller) :
  set_targetFrame c (set_currentFrame c (set_targetFrame c (set_currentFrame c s)))
  = set_targetFrame c (set_currentFrame c s).
Proof. reflexivity. Qed.

Lemma lastFrame_jumpToFrame (w : Window) (x : Q) (s : Scroller) :
  lastFrame (jumpToFrame w x s) = lastFrame s.
Proof.
  unfold jumpToFrame, drawFrame, lastFrame.
  rewrite drawFrameWithBlending_paints. reflexivity.
Qed.

Lemma jumpToFrame_twice (w : Window) (x : Q) (s : Scroller) :
  jumpToFrame w x (jumpToFrame w x s) = jumpToFrame w x s.
Proof.
  unfold jumpToFrame at 1. rewrite lastFrame_jumpToFrame.
  unfold jumpToFrame, drawFrame.
  set (c := Math_max 0 (Math_min x (lastFrame s))).
  rewrite !drawFrameWithBlending_set.
  rewrite drawFrameWithBlending_twice. reflexivity.
Qed.

(** C8. [jumpToFrame] and [jumpToProgress] are idempotent: a second call
    with the same argument leaves the whole instance, and so [currentFrame],
    [targetFrame] and the canvas contents, as the first call left them. *)
Theorem jump_idempotent (w : Window) (x : Q) (s : Scroller) :
  jumpToFrame w x (jumpToFrame w x s) = jumpToFrame w x s
  /\ jumpToProgress w x (jumpToProgress w x s) = jumpToProgress w x s
  /\ currentFrame (jumpToFrame w x (jumpToFrame w x s))
     = currentFrame (jumpToFrame w x s)
  /\ targetFrame (jumpToFrame w x (jumpToFrame w x s))
     = targetFrame (jumpToFrame w x s)
  /\ painted (jumpToFrame w x (jumpToFrame w x s)) = painted (jumpToFrame w x s)
  /\ currentFrame (jumpToProgress w x (jumpToProgress w x s))
     = currentFrame (jumpToProgress w x s)
  /\ painted (jumpToProgress w x (jumpToProgress w x s))
     = painted (jumpToProgress w x s).
Proof.
  assert (jumpToProgress w x (jumpToProgress w x s) = jumpToProgress w x s) as HP.
  { unfold jumpToProgress at 1.
    assert (lastFrame (jumpToProgress w x s) = lastFrame s) as ->
      by apply lastFrame_jumpToFrame.
    unfold jumpToProgress. apply jumpToFrame_twice. }
  rewrite jumpToFrame_twice, HP. repeat split.
Qed.
End Navigation.

(** ** ForestScroller: the [smoothing] option is never read *)

Module Smoothing.
Import JS JSFacts ForestScroller Footprint Examples.
Local Open Scope Q_scope.

(** Take the instance and its configuration apart and reduce the field
    accesses; both sides of a commutation with [withSmoothing] then differ at
    most in tests that the two sides share. *)
Ltac reduce_fields :=
  cbn [config ctx images loadedImages currentFrame targetFrame isLoading
       loadedCount isMobile animationFrameId supportsWebP velocity lastScrollY
       scrollVelocity lastFrameTime fps inflight painted calls
       set_config set_ctx set_images set_loadedImages set_currentFrame
       set_targetFrame set_isLoading set_loadedCount set_isMobile
       set_animationFrameId set_supportsWebP set_velocity set_lastScrollY
       set_scrollVelocity set_lastFrameTime set_fps set_inflight set_painted
       set_calls canvasId imagePath imagePrefix imageFormat totalFrames
       smoothing preloadCount mobileFrameCount mobileBreakpoint onLoad
       onProgress onReady onError set_imageFormat set_totalFrames
       set_smoothing fst snd negb andb].

Ltac open_instance s :=
  unfold withSmoothing; destruct s as [[] ? ? ? ? ? ? ? ? ? ? ? ? ? ? ? ? ? ?];
  reduce_fields.

Ltac split_tests :=
  repeat (reduce_fields;
          match goal with
          | |- context [match ?c with _ => _ end] =>
            lazymatch c with
            | context [match _ with _ => _ end] => fail
            | _ => destruct c
            end
          end);
  reduce_fields.

Lemma withSmoothing_withSmoothing (u v : Q) (s : Scroller) :
  withSmoothing u (withSmoothing v s) = withSmoothing u s.
Proof. now open_instance s. Qed.

Lemma withSmoothing_draw (v : Q) (w : Window) (x : Q) (s : Scroller) :
  drawFrameWithBlending w x (withSmoothing v s)
  = withSmoothing v (drawFrameWithBlending w x s).
Proof.
  unfold drawFrameWithBlending, applyDepthGrading, lastFrame.
  open_instance s. split_tests; reflexivity.
Qed.

Lemma withSmoothing_resizeCanvas (v : Q) (w : Window) (s : Scroller) :
  resizeCanvas w (withSmoothing v s) = withSmoothing v (resizeCanvas w s).
Proof.
  unfold resizeCanvas.
  assert (forall p, set_painted p (withSmoothing v s)
                    = withSmoothing v (set_painted p s)) as E by reflexivity.
  replace (ctx (withSmoothing v s)) with (ctx s) by reflexivity.
  destruct (ctx s); cbn [negb]; [| reflexivity].
  rewrite E.
  replace (images (withSmoothing v (set_painted [] s))) with (images (set_painted [] s))
    by reflexivity.
  replace (currentFrame (withSmoothing v (set_painted [] s)))
    with (currentFrame (set_painted [] s)) by reflexivity.
  destruct (images (set_painted [] s) !! _); [apply withSmoothing_draw | reflexivity].
Qed.

Lemma withSmoothing_settleImage (v : Q) (b : Browser) (i : Z) (s : Scroller) :
  settleImage b i (withSmoothing v s)
  = (withSmoothing v (fst (settleImage b i s)), snd (settleImage b i s)).
Proof.
  unfold settleImage, img_onload, updateProgress, call.
  open_instance s. split_tests; reflexivity.
Qed.

Lemma withSmoothing_loadImage (v : Q) (b : Browser) (i : Z) (s : Scroller) :
  loadImage b i (withSmoothing v s)
  = (withSmoothing v (fst (loadImage b i s)), snd (loadImage b i s)).
Proof.
  unfold loadImage.
  replace (loadedImages (withSmoothing v s)) with (loadedImages s) by reflexivity.
  destruct (bool_decide _); [reflexivity | apply withSmoothing_settleImage].
Qed.

Lemma withSmoothing_loadInOrder (v : Q) (b : Browser) (frames : list Z) (s : Scroller) :
  loadInOrder b frames (withSmoothing v s)
  = (withSmoothing v (fst (loadInOrder b frames s)), snd (loadInOrder b frames s)).
Proof.
  revert s. induction frames as [| i rest IH]; intros s; [reflexivity |].
  cbn [loadInOrder]. rewrite withSmoothing_loadImage.
  destruct (loadImage b i s) as [s' [| e]]; cbn [fst snd]; [apply IH | reflexivity].
Qed.

Lemma withSmoothing_awaitAll (v : Q) (b : Browser) (order : list Z) (s : Scroller) :
  awaitAll b order (withSmoothing v s)
  = (withSmoothing v (fst (fst (awaitAll b order s))),
     snd (fst (awaitAll b order s)), snd (awaitAll b order s)).
Proof.
  revert s. induction order as [| i rest IH]; intros s; [reflexivity |].
  cbn [awaitAll]. rewrite withSmoothing_settleImage.
  destruct (settleImage b i s) as [s' [| e]]; cbn [fst snd]; [apply IH | reflexivity].
Qed.

Lemma withSmoothing_preloadImages (v : Q) (b : Browser) (order : list Z) (s : Scroller) :
  preloadImages b order (withSmoothing v s)
  = (withSmoothing v (fst (fst (preloadImages b order s))),
     snd (fst (preloadImages b order s)), snd (preloadImages b order s)).
Proof.
  unfold preloadImages.
  replace (priorityFrames (withSmoothing v s)) with (priorityFrames s) by reflexivity.
  rewrite withSmoothing_loadInOrder.
  destruct (loadInOrder b (priorityFrames s) s) as [s' [| e]]; cbn [fst snd];
    [| reflexivity].
  replace (images (withSmoothing v s')) with (images s') by reflexivity.
  destruct (images s' !! 0%Z).
  - unfold drawFrame. rewrite withSmoothing_draw. apply withSmoothing_awaitAll.
  - apply withSmoothing_awaitAll.
Qed.
Lemma withSmoothing_updateScrollPosition (v : Q) (w : Window) (s : Scroller) :
  updateScrollPosition w (withSmoothing v s)
  = withSmoothing v (updateScrollPosition w s).
Proof.
  unfold updateScrollPosition, lazyLoadNearbyFrames, nearbyFrames, lastFrame.
  now open_instance s.
Qed.

Lemma withSmoothing_animate (v : Q) (w : Window) (t : Q) (s : Scroller) :
  animate w t (withSmoothing v s) = withSmoothing v (animate w t s).
Proof.
  unfold animate.
  set (physics := fun s0 : Scroller =>
    let s1 := set_lastFrameTime t s0 in
    let s2 := set_velocity
                (velocity s1
                 + (targetFrame s1 - currentFrame s1) * adaptiveSmoothness s1) s1 in
    let s3 := set_velocity (velocity s2 * 0.75) s2 in
    let s4 := set_currentFrame (currentFrame s3 + velocity s3) s3 in
    let s5 := set_currentFrame
                (Math_max 0 (Math_min (currentFrame s4) (lastFrame s4))) s4 in
    if Qltb (Math_abs (velocity s5)) velocityThreshold
    then set_currentFrame (Math_round (currentFrame s5)) s5
    else s5).
  assert (forall s0, physics (withSmoothing v s0) = withSmoothing v (physics s0)) as HP.
  { intros s0. subst physics. unfold adaptiveSmoothness, lastFrame. cbv zeta.
    open_instance s0. split_tests; reflexivity. }
  assert (forall s0, requestAnimationFrame (withSmoothing v s0)
                     = withSmoothing v (requestAnimationFrame s0)) as HR
      by reflexivity.
  assert (forall s0, currentFrame (withSmoothing v s0) = currentFrame s0) as HC
      by reflexivity.
  change (requestAnimationFrame
            (let s1 := physics (if truthy (lastFrameTime (withSmoothing v s))
                                then set_fps (1000 / (t - lastFrameTime (withSmoothing v s)))
                                             (withSmoothing v s)
                                else withSmoothing v s) in
             drawFrameWithBlending w (currentFrame s1) s1)
          = withSmoothing v
              (requestAnimationFrame
                 (let s1 := physics (if truthy (lastFrameTime s)
                                     then set_fps (1000 / (t - lastFrameTime s)) s
                                     else s) in
                  drawFrameWithBlending w (currentFrame s1) s1))).
  cbv zeta.
  replace (lastFrameTime (withSmoothing v s)) with (lastFrameTime s) by reflexivity.
  destruct (truthy (lastFrameTime s)).
  - change (set_fps (1000 / (t - lastFrameTime s)) (withSmoothing v s))
      with (withSmoothing v (set_fps (1000 / (t - lastFrameTime s)) s)).
    now rewrite HP, HC, withSmoothing_draw, HR.
  - now rewrite HP, HC, withSmoothing_draw, HR.
Qed.

Lemma withSmoothing_jumpToFrame (v : Q) (w : Window) (x : Q) (s : Scroller) :
  jumpToFrame w x (withSmoothing v s) = withSmoothing v (jumpToFrame w x s).
Proof.
  unfold jumpToFrame, drawFrame.
  replace (lastFrame (withSmoothing v s)) with (lastFrame s) by reflexivity.
  set (c := Math_max 0 (Math_min x (lastFrame s))).
  change (set_targetFrame c (set_currentFrame c (withSmoothing v s)))
    with (withSmoothing v (set_targetFrame c (set_currentFrame c s))).
  apply withSmoothing_draw.
Qed.

Lemma withSmoothing_imageSettled (v : Q) (b : Browser) (i : Z) (s : Scroller) :
  imageSettled b i (withSmoothing v s) = withSmoothing v (imageSettled b i s).
Proof.
  unfold imageSettled.
  replace (inflight (withSmoothing v s)) with (inflight s) by reflexivity.
  destruct (includes (inflight s) i); [| reflexivity].
  change (set_inflight (remove_first i (inflight s)) (withSmoothing v s))
    with (withSmoothing v (set_inflight (remove_first i (inflight s)) s)).
  now rewrite withSmoothing_settleImage.
Qed.

Lemma withSmoothing_handle (v : Q) (e : Event) (s : Scroller) :
  handle e (withSmoothing v s) = withSmoothing v (handle e s).
Proof.
  destruct e; cbn [handle].
  - replace (animationFrameId (withSmoothing v s)) with (animationFrameId s)
      by reflexivity.
    destruct (animationFrameId s); [apply withSmoothing_animate | reflexivity].
  - apply withSmoothing_updateScrollPosition.
  - apply withSmoothing_resizeCanvas.
  - apply withSmoothing_imageSettled.
  - apply withSmoothing_jumpToFrame.
  - unfold jumpToProgress.
    replace (lastFrame (withSmoothing v s)) with (lastFrame s) by reflexivity.
    apply withSmoothing_jumpToFrame.
  - unfold pause. open_instance s. split_tests; reflexivity.
  - unfold resume, startAnimationLoop, requestAnimationFrame.
    open_instance s. split_tests; reflexivity.
  - unfold destroy. open_instance s. split_tests; reflexivity.
Qed.

Lemma withSmoothing_run (v : Q) (es : list Event) (s : Scroller) :
  run es (withSmoothing v s) = withSmoothing v (run es s).
Proof.
  revert s. induction es as [| e es IH]; intros s; [reflexivity |].
  cbn [run fold_left]. rewrite withSmoothing_handle. apply IH.
Qed.

Lemma withSmoothing_init (v : Q) (b : Browser) (order : list Z) (s : Scroller) :
  init b order (withSmoothing v s) = withSmoothing v (init b order s).
Proof.
  unfold init.
  assert (checkWebPSupport b (detectDevice (window b) (withSmoothing v s))
          = withSmoothing v (checkWebPSupport b (detectDevice (window b) s))) as ->.
  { unfold checkWebPSupport, detectDevice. open_instance s. split_tests; reflexivity. }
  set (s2 := checkWebPSupport b (detectDevice (window b) s)). clearbody s2.
  unfold setupCanvas.
  replace (canvasId (config (withSmoothing v s2))) with (canvasId (config s2))
    by reflexivity.
  destruct (canvasFound (window b)); cbn [negb].
  - change (set_ctx true (withSmoothing v s2)) with (withSmoothing v (set_ctx true s2)).
    rewrite withSmoothing_resizeCanvas, withSmoothing_preloadImages.
    destruct (preloadImages b order (resizeCanvas (window b) (set_ctx true s2)))
      as [[s4 [| e]] pending]; cbn [fst snd].
    + unfold setupScrollListener. rewrite withSmoothing_updateScrollPosition.
      unfold startAnimationLoop, requestAnimationFrame, call.
      set (s5 := updateScrollPosition (window b) s4). clearbody s5.
      open_instance s5. split_tests; reflexivity.
    + unfold initFailed, call. open_instance s4. split_tests; reflexivity.
  - unfold initFailed, call. open_instance s2. split_tests; reflexivity.
Qed.

Lemma construct_differOnlyInSmoothing (o1 o2 : Options) :
  differOnlyInSmoothing o1 o2 ->
  construct o1 = withSmoothing (smoothing (config (construct o1))) (construct o2).
Proof.
  unfold differOnlyInSmoothing, construct, mergeOptions, withSmoothing.
  intros (H1 & H2 & H3 & H4 & H5 & H6 & H7 & H8 & H9 & H10 & H11 & H12).
  reduce_fields. now rewrite H1, H2, H3, H4, H5, H6, H7, H8, H9, H10, H11, H12.
Qed.

(** C9.  The [smoothing] option has no effect: two instances built from
    options that differ only in [smoothing], and going through the same
    initialisation and the same events, have the same velocity, position and
    target after every event, painted the same canvas, made the same
    callbacks and report the same metrics.  The spring constant is one of the
    two fixed values 0.12 and 0.06. *)
Theorem smoothing_has_no_effect
        (o1 o2 : Options) (b : Browser) (order : list Z) (es : list Event) :
  differOnlyInSmoothing o1 o2 ->
  let s1 := run es (init b order (construct o1)) in
  let s2 := run es (init b order (construct o2)) in
  velocity s1 = velocity s2
  /\ currentFrame s1 = currentFrame s2
  /\ targetFrame s1 = targetFrame s2
  /\ painted s1 = painted s2
  /\ calls s1 = calls s2
  /\ getMetrics s1 = getMetrics s2
  /\ (adaptiveSmoothness s1 = 0.12 \/ adaptiveSmoothness s1 = 0.06)
  /\ adaptiveSmoothness s1 = adaptiveSmoothness s2.
Proof.
  intros Hd s1 s2.
  assert (s1 = withSmoothing (smoothing (config (construct o1))) s2) as E.
  { subst s1 s2. rewrite (construct_differOnlyInSmoothing o1 o2 Hd) at 1.
    now rewrite withSmoothing_init, withSmoothing_run. }
  rewrite E. repeat split.
  unfold adaptiveSmoothness. destruct (Qltb 50 _); [now left | now right].
Qed.


Lemma smoothing_has_no_effect_witness :
  getMetrics (run [Scrolled (viewport 1024 250); AnimationFrame (viewport 1024 250) 16]
                  (init (browser (viewport 1024 0) allFrames)
                        (requestOrder (options 5 0.1) (browser (viewport 1024 0) allFrames))
                        (construct (options 5 0.1))))
  = getMetrics (run [Scrolled (viewport 1024 250); AnimationFrame (viewport 1024 250) 16]
                    (init (browser (viewport 1024 0) allFrames)
                          (requestOrder (options 5 0.1) (browser (viewport 1024 0) allFrames))
                          (construct (options 5 0.3)))).
Proof.
  assert (differOnlyInSmoothing (options 5 0.1) (options 5 0.3)) as Hd
      by (unfold differOnlyInSmoothing; repeat split).
  pose proof (smoothing_has_no_effect
              (options 5 0.1) (options 5 0.3) (browser (viewport 1024 0) allFrames)
              (requestOrder (options 5 0.1) (browser (viewport 1024 0) allFrames))
              [Scrolled (viewport 1024 250); AnimationFrame (viewport 1024 250) 16]
              Hd) as H.
  cbv zeta in H.
  destruct H as (_ & _ & _ & _ & _ & Hm & _).
  exact Hm.
Defined.
End Smoothing.

(** ** ForestAmbient: light rays and the wrapping of the entity pools *)

Module AmbientFacts.
Import JS JSFacts ForestAmbient Examples.
Local Open Scope Q_scope.

Lemma lightRayOpacity_updateProgress (p : Q) (a : Ambient) :
  lightRayOpacity (updateProgress p a) = (1 - Math_abs (p - 0.5) * 2) * 0.5 + 0.2.
Proof. reflexivity. Qed.

Lemma lightRayOpacity_left (p : Q) (a : Ambient) :
  p <= 0.5 -> lightRayOpacity (updateProgress p a) == p + 0.2.
Proof.
  intros H. rewrite lightRayOpacity_updateProgress. unfold Math_abs.
  rewrite Qabs_neg by lra. ring.
Qed.

Lemma lightRayOpacity_right (p : Q) (a : Ambient) :
  0.5 <= p -> lightRayOpacity (updateProgress p a) == 1.2 - p.
Proof.
  intros H. rewrite lightRayOpacity_updateProgress. unfold Math_abs.
  rewrite Qabs_pos by lra. ring.
Qed.

(** C7.  As a function of the progress [p] in [[0, 1]] the light-ray opacity
    set by [updateProgress] is largest at [p = 0.5], strictly decreases as
    [p] moves from 0.5 towards 0 or towards 1, and is smallest at [p = 0] and
    [p = 1], where it is still positive (0.2). *)
Theorem lightRayOpacity_peaks_at_half (a : Ambient) (p q : Q) :
  0 <= p -> p < q -> q <= 1 ->
  lightRayOpacity (updateProgress p a) <= lightRayOpacity (updateProgress 0.5 a)
  /\ lightRayOpacity (updateProgress q a) <= lightRayOpacity (updateProgress 0.5 a)
  /\ (q <= 0.5 ->
      lightRayOpacity (updateProgress p a) < lightRayOpacity (updateProgress q a))
  /\ (0.5 <= p ->
      lightRayOpacity (updateProgress q a) < lightRayOpacity (updateProgress p a))
  /\ lightRayOpacity (updateProgress 0 a) <= lightRayOpacity (updateProgress p a)
  /\ lightRayOpacity (updateProgress 1 a) <= lightRayOpacity (updateProgress q a)
  /\ lightRayOpacity (updateProgress 0 a) == lightRayOpacity (updateProgress 1 a)
  /\ 0 < lightRayOpacity (updateProgress 0 a).
Proof.
  intros H0 Hpq H1.
  rewrite (lightRayOpacity_left 0), (lightRayOpacity_right 1),
    (lightRayOpacity_left 0.5) by lra.
  destruct (Qlt_le_dec p 0.5) as [Hp | Hp]; destruct (Qlt_le_dec q 0.5) as [Hq | Hq].
  - rewrite (lightRayOpacity_left p), (lightRayOpacity_left q) by lra.
    repeat split; intros; lra.
  - rewrite (lightRayOpacity_left p), (lightRayOpacity_right q) by lra.
    repeat split; intros; lra.
  - lra.
  - rewrite (lightRayOpacity_right p), (lightRayOpacity_right q) by lra.
    repeat split; intros; lra.
Qed.

Lemma lightRayOpacity_peaks_at_half_witness :
  lightRayOpacity (updateProgress 0.25 ambient)
  < lightRayOpacity (updateProgress 0.5 ambient)
  /\ lightRayOpacity (updateProgress 1 ambient)
     < lightRayOpacity (updateProgress 0.5 ambient).
Proof.
  split.
  - destruct (lightRayOpacity_peaks_at_half ambient 0.25 0.5) as (_ & _ & H & _).
    + vm_compute. discriminate.
    + vm_compute. reflexivity.
    + vm_compute. discriminate.
    + apply H. vm_compute. discriminate.
  - destruct (lightRayOpacity_peaks_at_half ambient 0.5 1) as (_ & _ & _ & H & _).
    + vm_compute. discriminate.
    + vm_compute. reflexivity.
    + vm_compute. discriminate.
    + apply H. vm_compute. discriminate.
Defined.

(** The wrap shared by particles and sparkles, as the three [if]s of the
    sources. *)
Lemma wrap_within_margin (w : Window) (r x y : Q) :
  0 <= innerWidth w -> 0 <= innerHeight w -> 0 <= r -> r < 1 ->
  let x1 := if Qltb x (-10) then innerWidth w + 10 else x in
  let x2 := if Qltb (innerWidth w + 10) x1 then -10 else x1 in
  let x3 := if Qltb (innerHeight w + 10) y then r * innerWidth w else x2 in
  let y3 := if Qltb (innerHeight w + 10) y then -10 else y in
  within_margin w x3 y3 /\ (-10 <= y -> -10 <= y3).
Proof.
  intros HW HH Hr0 Hr1. cbv zeta. unfold within_margin.
  assert (0 <= r * innerWidth w) by (apply Qmult_le_0_compat; lra).
  assert (0 <= (1 - r) * innerWidth w) by (apply Qmult_le_0_compat; lra).
  destruct (Qltb_reflect x (-10));
    match goal with
    | |- context [Qltb (innerWidth w + 10) ?z] =>
      destruct (Qltb_reflect (innerWidth w + 10) z)
    end;
    destruct (Qltb_reflect (innerHeight w + 10) y);
    repeat split; intros; lra.
Qed.

Lemma moveParticle_within_margin
      (w : Window) (f : Q) (random : Random) (cursor : nat) (p : Particle.t) :
  0 <= innerWidth w -> 0 <= innerHeight w ->
  (forall n, 0 <= random n /\ random n < 1) ->
  let p' := fst (moveParticle w f random cursor p) in
  within_margin w (Particle.x p') (Particle.y p')
  /\ (particle_falls f p -> particle_falls f p').
Proof.
  intros HW HH Hr. cbv zeta.
  destruct (Hr cursor) as [Hr0 Hr1].
  pose proof (wrap_within_margin w (random cursor)
                (Particle.x p + Particle.speedX p * (1 + Particle.depth p) * f)
                (Particle.y p + Particle.speedY p * (1 + Particle.depth p) * f)
                HW HH Hr0 Hr1) as Hwrap.
  cbv zeta in Hwrap. unfold moveParticle, particle_falls.
  destruct (Qltb (innerHeight w + 10) _);
    cbn [fst Particle.x Particle.y Particle.speedY Particle.depth];
    (split; [apply Hwrap | intros [Hy Hs]; split; [apply Hwrap; lra | exact Hs]]).
Qed.

Lemma moveSparkle_within_margin
      (w : Window) (f : Q) (random : Random) (cursor : nat) (k : Sparkle.t) :
  0 <= innerWidth w -> 0 <= innerHeight w ->
  (forall n, 0 <= random n /\ random n < 1) ->
  let k' := fst (moveSparkle w f random cursor k) in
  within_margin w (Sparkle.x k') (Sparkle.y k')
  /\ (sparkle_falls f k -> sparkle_falls f k').
Proof.
  intros HW HH Hr. cbv zeta.
  destruct (Hr cursor) as [Hr0 Hr1].
  pose proof (wrap_within_margin w (random cursor)
                (Sparkle.x k + Sparkle.baseSpeedX k * f * (0.8 + Sparkle.depth k * 0.4))
                (Sparkle.y k + Sparkle.baseSpeedY k * f * (0.8 + Sparkle.depth k * 0.4))
                HW HH Hr0 Hr1) as Hwrap.
  cbv zeta in Hwrap. unfold moveSparkle, sparkle_falls.
  destruct (Qltb (innerHeight w + 10) _);
    cbn [fst Sparkle.x Sparkle.y Sparkle.baseSpeedY Sparkle.depth];
    (split; [apply Hwrap | intros [Hy Hs]; split; [apply Hwrap; lra | exact Hs]]).
Qed.

(** A property established by the update of one entity holds of the whole
    pool after [forEach]; one that the update preserves is preserved. *)
Lemma forEach_Forall {A : Type} (update : nat -> A -> A * nat) (P Q : A -> Prop) :
  (forall c e, P e -> Q (fst (update c e))) ->
  forall pool c, Forall P pool -> Forall Q (fst (forEach update c pool)).
Proof.
  intros Hstep pool. induction pool as [| e rest IH]; intros c Hall.
  - constructor.
  - inversion Hall as [| ? ? He Hrest]; subst. cbn [forEach].
    specialize (Hstep c e He).
    destruct (update c e) as [e' c'].
    specialize (IH c' Hrest).
    destruct (forEach update c' rest) as [rest' c''].
    constructor; assumption.
Qed.


Section OneWindow.
Variable w : Window.
Variable random : Random.
Hypothesis width_nonneg : 0 <= innerWidth w.
Hypothesis height_nonneg : 0 <= innerHeight w.
Hypothesis random_range : forall n, 0 <= random n /\ random n < 1.



End OneWindow.


End AmbientFacts.

(** ** ForestScroller: coming to rest *)

Module Rest.
Import JS JSFacts ForestScroller Footprint Playback ScrollMapping Examples.
Local Open Scope Q_scope.

Lemma ticks_keeps (w : Window) (clock : nat -> Q) (n : nat) (s : Scroller) :
  targetFrame (ticks w clock n s) = targetFrame s
  /\ scrollVelocity (ticks w clock n s) = scrollVelocity s
  /\ config (ticks w clock n s) = config s.
Proof.
  induction n as [| n IH]; [now repeat split |].
  cbn [ticks].
  destruct (targetFrame_animate w (clock n) (ticks w clock n s)) as (-> & -> & ->).
  exact IH.
Qed.

Lemma adaptiveSmoothness_cases (s : Scroller) :
  adaptiveSmoothness s = 0.12 \/ adaptiveSmoothness s = 0.06.
Proof. unfold adaptiveSmoothness. destruct (Qltb 50 _); [now left | now right]. Qed.

Lemma Math_abs_bounds (x : Q) : - Math_abs x <= x /\ x <= Math_abs x.
Proof.
  unfold Math_abs. split.
  - pose proof (Qle_Qabs (- x)) as H. rewrite Qabs_opp in H. lra.
  - apply Qle_Qabs.
Qed.

(** The nearest frame of a target in range is a frame in range. *)
Lemma Math_round_targetFrame (s : Scroller) :
  0 <= targetFrame s -> targetFrame s <= lastFrame s ->
  exists z : Z, Math_round (targetFrame s) = inject_Z z
                /\ 0 <= inject_Z z /\ inject_Z z <= lastFrame s.
Proof.
  intros H0 H1. exists (Qfloor (targetFrame s + (1 # 2))).
  split; [reflexivity |].
  apply (Math_round_range 0 (totalFrames (config s) - 1)); assumption.
Qed.

(** One run of the frame callback from rest on the nearest frame, the
    target being close enough to it, ends at rest on the nearest frame. *)
Lemma settled_animate (w : Window) (t : Q) (s : Scroller) :
  0 <= targetFrame s -> targetFrame s <= lastFrame s ->
  Math_abs (targetFrame s - Math_round (targetFrame s)) * adaptiveSmoothness s * 3
  <= velocityThreshold ->
  settled s -> settled (animate w t s).
Proof.
  intros H0 H1 Hnear [Hv Hc]. unfold settled.
  destruct (targetFrame_animate w t s) as (-> & _ & _).
  destruct (Math_round_targetFrame s H0 H1) as (z & Hz & Hz0 & Hz1).
  rewrite Hz in *.
  pose proof (Math_abs_bounds (targetFrame s - inject_Z z)) as [Hd0 Hd1].
  set (d := Math_abs (targetFrame s - inject_Z z)) in *.
  apply Qabs_Qlt_condition in Hv. unfold velocityThreshold in *.
  assert (-(1 # 20) < velocity (animate w t s) /\ velocity (animate w t s) < 1 # 20)
    as [Hv0 Hv1].
  { rewrite velocity_animate.
    destruct Hv as [Hva Hvb]. clearbody d.
    destruct (adaptiveSmoothness_cases s) as [E | E]; rewrite E in *; split; lra. }
  assert (Qltb (Math_abs (velocity (animate w t s))) 0.05 = true) as Hsnap.
  { apply Qltb_true. apply Qabs_Qlt_condition. split; lra. }
  split.
  - apply Qabs_Qlt_condition. split; lra.
  - rewrite currentFrame_animate. cbv zeta. unfold velocityThreshold. rewrite Hsnap.
    set (v' := velocity (animate w t s)) in *.
    rewrite (Math_round_near z); [reflexivity | |].
    + destruct (Math_max_spec 0 (Math_min (currentFrame s + v') (lastFrame s)))
        as [[Ha ->] | [Ha ->]];
      destruct (Math_min_spec (currentFrame s + v') (lastFrame s))
        as [[Hb E] | [Hb E]]; rewrite E in *; lra.
    + destruct (Math_max_spec 0 (Math_min (currentFrame s + v') (lastFrame s)))
        as [[Ha ->] | [Ha ->]];
      destruct (Math_min_spec (currentFrame s + v') (lastFrame s))
        as [[Hb E] | [Hb E]]; rewrite E in *; lra.
Qed.

(** Where a rest persists.  With the scroll position held fixed on a
    target within [1 / (60 * smoothing constant)] of its nearest frame (5/18
    of a frame for the constant 0.06, 5/36 for 0.12; every whole-numbered
    target qualifies), once a tick leaves [|velocity| < 0.05] and
    [currentFrame = round(targetFrame)], every later tick does.  That such
    a tick comes is not part of the statement. *)
Lemma settled_stays_settled (w : Window) (clock : nat -> Q) (n : nat) (s : Scroller) :
  0 <= targetFrame s -> targetFrame s <= lastFrame s ->
  Math_abs (targetFrame s - Math_round (targetFrame s)) * adaptiveSmoothness s * 3
  <= velocityThreshold ->
  settled s ->
  settled (ticks w clock n s)
  /\ Math_abs (velocity (ticks w clock n s)) < velocityThreshold
  /\ currentFrame (ticks w clock n s) == Math_round (targetFrame s).
Proof.
  intros H0 H1 Hnear Hs.
  assert (settled (ticks w clock n s)) as H.
  { induction n as [| n IH]; [exact Hs |].
    cbn [ticks].
    destruct (ticks_keeps w clock n s) as (Ht & Hsv & Hk).
    apply settled_animate; try assumption.
    - now rewrite Ht.
    - rewrite Ht. unfold lastFrame. now rewrite Hk.
    - rewrite Ht. unfold adaptiveSmoothness. now rewrite Hsv. }
  split; [exact H |]. destruct H as [Hv Hc].
  split; [exact Hv |].
  now rewrite (proj1 (ticks_keeps w clock n s)) in Hc.
Qed.

(** While the loop rests on the nearest frame the velocity is driven by the
    distance between the target and that frame. *)
Lemma velocity_after_rest (w : Window) (clock : nat -> Q) (n : nat) (s : Scroller) :
  settled (ticks w clock n s) ->
  velocity (ticks w clock (S n) s)
  == (velocity (ticks w clock n s)
      + (targetFrame s - Math_round (targetFrame s)) * adaptiveSmoothness s) * 0.75.
Proof.
  intros [_ Hc]. cbn [ticks]. rewrite velocity_animate.
  destruct (ticks_keeps w clock n s) as (Ht & Hsv & _).
  rewrite Ht in *. unfold adaptiveSmoothness. rewrite Hsv. rewrite Hc. reflexivity.
Qed.

(** Every rational is below some natural number of steps. *)
Lemma steps_beyond (c delta : Q) :
  0 < delta -> exists m : nat, c <= delta * (inject_Z (Z.of_nat m) + 3).
Proof.
  intros Hd. exists (Z.to_nat (Qceiling (c / delta))).
  pose proof (Qle_ceiling (c / delta)) as Hc.
  assert (inject_Z (Qceiling (c / delta))
          <= inject_Z (Z.of_nat (Z.to_nat (Qceiling (c / delta))))) as Hm
      by (rewrite <- Zle_Qle; lia).
  assert (delta * (c / delta) == c) as E by (apply Qmult_div_r; lra).
  assert (delta * (c / delta)
          <= delta * inject_Z (Z.of_nat (Z.to_nat (Qceiling (c / delta))))) as Hle
      by (apply Qmult_le_l; [exact Hd | lra]).
  lra.
Qed.

(** A velocity pushed by [p] at every tick, with [3 * p] above the
    threshold, does not stay below the threshold. *)
Lemma pushed_above_threshold (a : nat -> Q) (p : Q) :
  0.05 < p * 3 ->
  - 0.05 < a O ->
  (forall m, a (S m) == (a m + p) * 0.75) ->
  ~ (forall m, a m < 0.05).
Proof.
  intros Hp H0 Hstep Hall.
  assert (forall m, (3 * p - a m) * (inject_Z (Z.of_nat m) + 3) <= 3 * (3 * p - a O)) as Hgap.
  { induction m as [| m IH].
    - change (inject_Z (Z.of_nat 0)) with 0. lra.
    - rewrite Nat2Z.inj_succ. unfold Z.succ. rewrite inject_Z_succ.
      pose proof (Hall m) as Hm. rewrite (Hstep m).
      set (g := 3 * p - a m) in *. set (q := inject_Z (Z.of_nat m)) in *.
      assert (0 <= q) as Hq
          by (subst q; change 0 with (inject_Z 0); rewrite <- Zle_Qle; lia).
      assert (0 <= g * q) as Hgq by (apply Qmult_le_0_compat; [subst g; lra | exact Hq]).
      assert ((3 * p - (a m + p) * 0.75) * (q + 1 + 3) == g * (q + 3) - (1 # 4) * (g * q))
        as -> by (subst g; ring).
      lra. }
  destruct (steps_beyond (3 * (3 * p + 0.05)) (3 * p - 0.05)) as [m Hm]; [lra |].
  specialize (Hgap m). pose proof (Hall m) as Ham.
  set (q := inject_Z (Z.of_nat m) + 3) in *.
  assert (0 < q) as Hq.
  { subst q. assert (0 <= inject_Z (Z.of_nat m))
      by (change 0 with (inject_Z 0); rewrite <- Zle_Qle; lia). lra. }
  assert ((3 * p - 0.05) * q < (3 * p - a m) * q) as Hlt
      by (apply Qmult_lt_compat_r; [exact Hq | lra]).
  lra.
Qed.

Lemma pushed_beyond_threshold (a : nat -> Q) (p : Q) :
  0.05 < Qabs p * 3 ->
  (forall m, a (S m) == (a m + p) * 0.75) ->
  ~ (forall m, Qabs (a m) < 0.05).
Proof.
  intros Hp Hstep Hall.
  assert (forall m, - 0.05 < a m /\ a m < 0.05) as Hb
      by (intros m; destruct (proj1 (Qabs_Qlt_condition _ _) (Hall m)); split; lra).
  destruct (Qlt_le_dec p 0) as [Hneg | Hpos].
  - rewrite Qabs_neg in Hp by lra.
    apply (pushed_above_threshold (fun m => - a m) (- p)).
    + lra.
    + destruct (Hb O). lra.
    + intros m. rewrite (Hstep m). ring.
    + intros m. destruct (Hb m). lra.
  - rewrite Qabs_pos in Hp by lra.
    apply (pushed_above_threshold a p); [lra | apply Hb | exact Hstep | apply Hb].
Qed.

(** Farther than [1 / (60 * smoothing constant)] from the nearest frame the
    loop never stays at rest. *)
Lemma rest_unstable_beyond_threshold (w : Window) (clock : nat -> Q) (s : Scroller) :
  velocityThreshold
  < Math_abs (targetFrame s - Math_round (targetFrame s)) * adaptiveSmoothness s * 3 ->
  ~ (exists N : nat, forall n : nat, (N <= n)%nat -> settled (ticks w clock n s)).
Proof.
  intros Hfar [N H].
  apply (pushed_beyond_threshold
           (fun m => velocity (ticks w clock (N + m) s))
           ((targetFrame s - Math_round (targetFrame s)) * adaptiveSmoothness s)).
  - unfold velocityThreshold, Math_abs in Hfar. rewrite Qabs_Qmult.
    rewrite (Qabs_pos (adaptiveSmoothness s)); [exact Hfar |].
    destruct (adaptiveSmoothness_cases s) as [-> | ->]; lra.
  - intros m. rewrite Nat.add_succ_r. apply velocity_after_rest. apply H. lia.
  - intros m. apply H. lia.
Qed.

(** C2 (the loop does not come to rest).  A page of the default 120 frames
    is scrolled by one scroll event to a quarter of its height and left
    there: the target is frame 7.4375, whose nearest frame is 7, and the
    smoothing constant is 0.12.  The draw loop is to end at rest on frame
    7, with [|velocity| < 0.05] from some tick on; it never does: whenever
    the snap has put [currentFrame] on the nearest frame, the spring, still
    aimed at 7.4375, pushes the velocity back above the threshold (its
    rest value is 3 * 0.12 * 0.4375 = 0.1575) and the loop leaves the frame
    again, so that no tick [N] is followed by rest only. *)
Theorem fractional_target_never_settles :
  targetFrame scrolledToQuarter == 7.4375
  /\ Math_round (targetFrame scrolledToQuarter) == 7
  /\ adaptiveSmoothness scrolledToQuarter == 0.12
  /\ 0 <= targetFrame scrolledToQuarter
  /\ targetFrame scrolledToQuarter <= lastFrame scrolledToQuarter
  /\ ~ (exists N : nat, forall n : nat, (N <= n)%nat ->
          Math_abs (velocity (ticks (viewport 1024 250) clock16 n scrolledToQuarter))
          < velocityThreshold
          /\ currentFrame (ticks (viewport 1024 250) clock16 n scrolledToQuarter)
             == Math_round (targetFrame scrolledToQuarter)).
Proof.
  split; [vm_compute; reflexivity |]. split; [vm_compute; reflexivity |].
  split; [vm_compute; reflexivity |].
  split; [vm_compute; discriminate |]. split; [vm_compute; discriminate |].
  intros [N H].
  apply (rest_unstable_beyond_threshold (viewport 1024 250) clock16 scrolledToQuarter);
    [vm_compute; reflexivity |].
  exists N. intros n Hn. destruct (H n Hn) as [Hv Hc]. split; [exact Hv |].
  now rewrite (proj1 (ticks_keeps (viewport 1024 250) clock16 n scrolledToQuarter)).
Qed.

Lemma settled_stays_settled_witness :
  settled (ticks (viewport 1024 250) clock16 3
                 (jumpToFrame (viewport 1024 250) 7 scrolledToQuarter)).
Proof.
  refine (proj1 (settled_stays_settled (viewport 1024 250) clock16 3
           (jumpToFrame (viewport 1024 250) 7 scrolledToQuarter) _ _ _ _)).
  - vm_compute. discriminate.
  - vm_compute. discriminate.
  - vm_compute. discriminate.
  - split; vm_compute; reflexivity.
Defined.
End Rest.

(** ** ForestScroller: preloading and failed loads *)

Module Preload.
Import JS JSFacts ForestScroller Footprint Loading Initialisation Examples.
Local Open Scope Z_scope.

Lemma available_loader_writes (b : Browser) (s s' : Scroller) (i : Z) :
  loader_writes s s' -> available b s' i = available b s i.
Proof.
  intros H. unfold available.
  now rewrite (proj1 (loader_writes_keeps s s' H)).
Qed.

(** Loading calls [onProgress] and [onLoad] only. *)
Lemma quiet_updateProgress (s : Scroller) : quiet s -> quiet (updateProgress s).
Proof.
  unfold quiet. intros H. unfold updateProgress, call.
  destruct (onProgress (config s)); fields;
    match goal with |- context [if ?c then _ else _] => destruct c end; fields;
    repeat (apply Forall_app; split); auto; repeat constructor.
Qed.

Lemma quiet_settleImage (b : Browser) (i : Z) (s : Scroller) :
  quiet s -> quiet (fst (settleImage b i s)).
Proof.
  intros H. unfold settleImage.
  destruct (fetch b _ i); [| exact H].
  cbn [fst]. unfold img_onload. now apply quiet_updateProgress.
Qed.

Lemma quiet_loadInOrder (b : Browser) (frames : list Z) (s : Scroller) :
  quiet s -> quiet (fst (loadInOrder b frames s)).
Proof.
  revert s. induction frames as [| i rest IH]; intros s H; [exact H |].
  cbn [loadInOrder].
  assert (quiet (fst (loadImage b i s))) as H1.
  { unfold loadImage. destruct (bool_decide _); [exact H | now apply quiet_settleImage]. }
  destruct (loadImage b i s) as [s1 [| e]]; cbn [fst] in *; [now apply IH | exact H1].
Qed.

Lemma quiet_awaitAll (b : Browser) (order : list Z) (s : Scroller) :
  quiet s -> quiet (fst (fst (awaitAll b order s))).
Proof.
  revert s. induction order as [| i rest IH]; intros s H; [exact H |].
  cbn [awaitAll].
  pose proof (quiet_settleImage b i s H) as H1.
  destruct (settleImage b i s) as [s1 [| e]]; cbn [fst] in *; [now apply IH | exact H1].
Qed.

(** A request for a frame that is not stored yet settles. *)
Lemma settleImage_spec (b : Browser) (i : Z) (s : Scroller) :
  i ∉ loadedImages s -> counted b s ->
  counted b (fst (settleImage b i s))
  /\ (available b s i = true ->
      snd (settleImage b i s) = Fulfilled
      /\ loadedImages (fst (settleImage b i s)) = {[i]} ∪ loadedImages s)
  /\ (available b s i = false ->
      snd (settleImage b i s) = Rejected (FrameLoadFailed i)
      /\ fst (settleImage b i s) = s).
Proof.
  intros Hi (Hc & Hav).
  pose proof (loader_writes_settleImage b i s) as Hw.
  unfold available in *. unfold settleImage in *.
  destruct (fetch b (imageFormat (config s)) i) as [img |] eqn:Hf; cbn [fst snd] in *.
  - split; [| split; [intros _ | discriminate]].
    + unfold counted, available.
      rewrite (proj1 (loader_writes_keeps _ _ Hw)).
      unfold img_onload in *. rewrite updateProgress_calls. fields.
      split.
      * rewrite Hc, size_union by (apply disjoint_singleton_l; exact Hi).
        rewrite size_singleton. lia.
      * intros j Hj. apply elem_of_union in Hj as [Hj | Hj].
        -- apply elem_of_singleton in Hj. subst j. now rewrite Hf.
        -- now apply Hav.
    + split; [reflexivity |].
      unfold img_onload. rewrite updateProgress_calls. reflexivity.
  - split; [now split | split; [discriminate | now intros _]].
Qed.

(** [await this.loadImage(i)], whether frame [i] is stored already or not. *)
Lemma loadImage_spec (b : Browser) (i : Z) (s : Scroller) :
  counted b s ->
  counted b (fst (loadImage b i s))
  /\ loadedImages s ⊆ loadedImages (fst (loadImage b i s))
  /\ loadedImages (fst (loadImage b i s)) ⊆ {[i]} ∪ loadedImages s
  /\ (snd (loadImage b i s) = Fulfilled -> i ∈ loadedImages (fst (loadImage b i s)))
  /\ (forall e, snd (loadImage b i s) = Rejected e ->
                e = FrameLoadFailed i /\ available b s i = false)
  /\ (available b s i = true -> snd (loadImage b i s) = Fulfilled).
Proof.
  intros Hc. unfold loadImage.
  destruct (bool_decide (i ∈ loadedImages s)) eqn:Hin.
  - apply bool_decide_eq_true in Hin. cbn [fst snd].
    split; [exact Hc |]. split; [reflexivity |].
    split; [apply union_subseteq_r |]. split; [intros _; exact Hin |].
    split; [intros e He; discriminate | reflexivity].
  - apply bool_decide_eq_false in Hin.
    destruct (settleImage_spec b i s Hin Hc) as (Hc' & Hok & Hko).
    split; [exact Hc' |].
    destruct (available b s i) eqn:Hav.
    + destruct (Hok eq_refl) as [Ho Hl]. rewrite Ho, Hl.
      split; [apply union_subseteq_r |]. split; [reflexivity |].
      split; [intros _; apply elem_of_union_l; now apply elem_of_singleton |].
      split; [intros e He; discriminate | reflexivity].
    + destruct (Hko eq_refl) as [Ho Hs]. rewrite Ho, Hs.
      split; [reflexivity |]. split; [apply union_subseteq_r |].
      split; [discriminate |].
      split; [intros e He; inversion He; now split | discriminate].
Qed.

(** The sequential loop over the priority frames. *)
Lemma loadInOrder_spec (b : Browser) (frames : list Z) (s : Scroller) :
  counted b s ->
  counted b (fst (loadInOrder b frames s))
  /\ loadedImages s ⊆ loadedImages (fst (loadInOrder b frames s))
  /\ (forall j, j ∈ loadedImages (fst (loadInOrder b frames s)) ->
                j ∈ loadedImages s \/ In j frames)
  /\ (snd (loadInOrder b frames s) = Fulfilled ->
      forall j, In j frames -> j ∈ loadedImages (fst (loadInOrder b frames s)))
  /\ (forall e, snd (loadInOrder b frames s) = Rejected e ->
                exists k, In k frames /\ e = FrameLoadFailed k
                          /\ available b s k = false)
  /\ ((forall j, In j frames -> available b s j = true) ->
      snd (loadInOrder b frames s) = Fulfilled).
Proof.
  revert s. induction frames as [| i rest IH]; intros s Hc.
  - cbn [loadInOrder fst snd].
    split; [exact Hc |]. split; [reflexivity |]. split; [intros j Hj; now left |].
    split; [intros _ j [] |]. split; [intros e He; discriminate | reflexivity].
  - cbn [loadInOrder].
    destruct (loadImage_spec b i s Hc) as (Hc1 & Hs1 & Hs2 & Hf1 & Hr1 & Ha1).
    pose proof (loader_writes_loadImage b i s) as Hw.
    destruct (loadImage b i s) as [s1 [| e1]]; cbn [fst snd] in *.
    + destruct (IH s1 Hc1) as (Hc2 & Hsub & Hsup & Hf2 & Hr2 & Ha2).
      split; [exact Hc2 |]. split; [now transitivity (loadedImages s1) |].
      split; [| split; [| split]].
      * intros j Hj. destruct (Hsup j Hj) as [Hj1 | Hj1]; [| right; now right].
        apply Hs2 in Hj1. apply elem_of_union in Hj1 as [Hj1 | Hj1];
          [right; left; now apply elem_of_singleton in Hj1; subst | now left].
      * intros Hout j [<- | Hj]; [apply Hsub, Hf1; reflexivity | now apply Hf2].
      * intros e He. destruct (Hr2 e He) as (k & Hk & -> & Hav).
        exists k. split; [now right |]. split; [reflexivity |].
        now rewrite <- (available_loader_writes b s s1 k Hw).
      * intros Hall. apply Ha2. intros j Hj.
        rewrite (available_loader_writes b s s1 j Hw). apply Hall. now right.
    + split; [exact Hc1 |]. split; [exact Hs1 |]. split; [| split; [| split]].
      * intros j Hj. apply Hs2 in Hj. apply elem_of_union in Hj as [Hj | Hj];
          [right; left; now apply elem_of_singleton in Hj; subst | now left].
      * discriminate.
      * intros e He. inversion He; subst e1.
        destruct (Hr1 e eq_refl) as [-> Hav].
        exists i. split; [now left | now split].
      * intros Hall. specialize (Ha1 (Hall i (or_introl eq_refl))). discriminate.
Qed.

(** [await Promise.all(...)] over requests for distinct frames that are not
    stored: what is stored or still in flight afterwards is what was stored
    or requested before, and the outcome is the first failure, if any. *)
Lemma awaitAll_spec (b : Browser) (order : list Z) (s : Scroller) :
  counted b s -> NoDup order -> (forall j, In j order -> j ∉ loadedImages s) ->
  counted b (fst (fst (awaitAll b order s)))
  /\ NoDup (snd (awaitAll b order s))
  /\ (forall j, In j (snd (awaitAll b order s)) ->
                j ∉ loadedImages (fst (fst (awaitAll b order s))))
  /\ (forall j, j ∈ loadedImages (fst (fst (awaitAll b order s)))
                \/ (In j (snd (awaitAll b order s)) /\ available b s j = true)
                <-> j ∈ loadedImages s \/ (In j order /\ available b s j = true))
  /\ (snd (fst (awaitAll b order s)) = Fulfilled ->
      snd (awaitAll b order s) = []
      /\ forall j, In j order -> available b s j = true)
  /\ (forall e, snd (fst (awaitAll b order s)) = Rejected e ->
                exists k, In k order /\ e = FrameLoadFailed k
                          /\ available b s k = false)
  /\ ((forall j, In j order -> available b s j = true) ->
      snd (fst (awaitAll b order s)) = Fulfilled).
Proof.
  revert s. induction order as [| i rest IH]; intros s Hc Hnd Hfresh.
  - cbn [awaitAll fst snd].
    split; [exact Hc |]. split; [constructor |]. split; [intros j [] |].
    split; [intros j; cbn [In]; tauto |].
    split; [intros _; split; [reflexivity | intros j []] |].
    split; [intros e He; discriminate | reflexivity].
  - cbn [awaitAll].
    apply NoDup_cons in Hnd as [Hi Hnd].
    assert (i ∉ loadedImages s) as Hil by (apply Hfresh; now left).
    destruct (settleImage_spec b i s Hil Hc) as (Hc1 & Hok & Hko).
    pose proof (loader_writes_settleImage b i s) as Hw.
    destruct (available b s i) eqn:Hav.
    + destruct (Hok eq_refl) as [Ho Hl]. clear Hok Hko.
      destruct (settleImage b i s) as [s1 o1]; cbn [fst snd] in *. subst o1.
      assert (forall j, In j rest -> j ∉ loadedImages s1) as Hfresh1.
      { intros j Hj. rewrite Hl. apply not_elem_of_union. split.
        - apply not_elem_of_singleton. intros ->. apply Hi.
          now apply list_elem_of_In.
        - apply Hfresh. now right. }
      destruct (IH s1 Hc1 Hnd Hfresh1) as (Hc2 & Hnd2 & Hf2 & Hiff & Hful & Hrej & Hall).
      assert (forall j, available b s1 j = available b s j) as Hav1
          by (intros j; now apply available_loader_writes).
      split; [exact Hc2 |]. split; [exact Hnd2 |]. split; [exact Hf2 |].
      split; [| split; [| split]].
      * intros j. rewrite <- (Hav1 j), Hiff, Hl, (Hav1 j), elem_of_union,
          elem_of_singleton. cbn [In]. split.
        -- intros [[-> | H] | [H1 H2]]; [right; split; [now left | exact Hav]
                                         | now left | right; split; [now right | exact H2]].
        -- intros [H | [[<- | H1] H2]]; [left; now right | left; now left
                                         | right; now split].
      * intros Hout. destruct (Hful Hout) as [Hp Ha]. split; [exact Hp |].
        intros j [<- | Hj]; [exact Hav | rewrite <- Hav1; now apply Ha].
      * intros e He. destruct (Hrej e He) as (k & Hk & -> & Hka).
        exists k. split; [now right |]. split; [reflexivity | now rewrite <- Hav1].
      * intros Ha. apply Hall. intros j Hj. rewrite Hav1. apply Ha. now right.
    + destruct (Hko eq_refl) as [Ho Hs]. clear Hok Hko.
      destruct (settleImage b i s) as [s1 o1]; cbn [fst snd] in *. subst o1 s1.
      split; [exact Hc |]. split; [exact Hnd |].
      split; [intros j Hj; apply Hfresh; now right |].
      split; [| split; [| split]].
      * intros j. cbn [In]. split.
        -- intros [H | [H1 H2]]; [now left | right; split; [now right | exact H2]].
        -- intros [H | [[<- | H1] H2]]; [now left | congruence | right; now split].
      * discriminate.
      * intros e He. inversion He; subst e. exists i. split; [now left | now split].
      * intros Ha. specialize (Ha i (or_introl eq_refl)). congruence.
Qed.



(** The requests in flight settle: the frames that load are added to the
    store, the others change nothing. *)
Lemma settleAll_spec (b : Browser) (pending : list Z) (s : Scroller) :
  counted b s -> NoDup pending -> (forall j, In j pending -> j ∉ loadedImages s) ->
  inflight s = pending ->
  counted b (settleAll b pending s)
  /\ config (settleAll b pending s) = config s
  /\ (forall j, j ∈ loadedImages (settleAll b pending s)
                <-> j ∈ loadedImages s \/ (In j pending /\ available b s j = true)).
Proof.
  revert s. induction pending as [| i rest IH]; intros s Hc Hnd Hfresh Hin.
  - cbn [settleAll]. split; [exact Hc |]. split; [reflexivity |].
    intros j. cbn [In]. tauto.
  - cbn [settleAll handle]. unfold imageSettled. rewrite Hin.
    cbn [includes existsb remove_first]. rewrite Z.eqb_refl. cbn [orb].
    set (s0 := set_inflight rest s).
    apply NoDup_cons in Hnd as [Hi Hnd].
    assert (counted b s0) as Hc0 by exact Hc.
    assert (i ∉ loadedImages s0) as Hi0 by (apply Hfresh; now left).
    destruct (settleImage_spec b i s0 Hi0 Hc0) as (Hc1 & Hok & Hko).
    pose proof (loader_writes_settleImage b i s0) as Hw.
    destruct (loader_writes_keeps _ _ Hw) as (Hk & _ & _ & _ & _ & _ & _ & _ & Hinf & _).
    assert (forall j, available b (fst (settleImage b i s0)) j = available b s j) as Hav1
        by (intros j; now rewrite (available_loader_writes b s0 _ j Hw)).
    assert (forall j, In j rest -> j ∉ loadedImages (fst (settleImage b i s0))) as Hfresh1.
    { intros j Hj. destruct (available b s0 i) eqn:Hav.
      - rewrite (proj2 (Hok eq_refl)). apply not_elem_of_union. split.
        + apply not_elem_of_singleton. intros ->. apply Hi. now apply list_elem_of_In.
        + apply Hfresh. now right.
      - rewrite (proj2 (Hko eq_refl)). apply Hfresh. now right. }
    destruct (IH (fst (settleImage b i s0)) Hc1 Hnd Hfresh1 Hinf) as (Hc2 & Hk2 & Hiff).
    split; [exact Hc2 |]. split; [now rewrite Hk2, Hk |].
    intros j. rewrite Hiff, Hav1. cbn [In].
    destruct (available b s0 i) eqn:Hav.
    + rewrite (proj2 (Hok eq_refl)), elem_of_union, elem_of_singleton.
      change (available b s0 i) with (available b s i) in Hav. split.
      * intros [[-> | H] | [H1 H2]]; [right; split; [now left | exact Hav]
                                      | now left | right; split; [now right | exact H2]].
      * intros [H | [[<- | H1] H2]]; [left; now right | left; now left
                                      | right; now split].
    + rewrite (proj2 (Hko eq_refl)).
      change (available b s0 i) with (available b s i) in Hav.
      change (loadedImages s0) with (loadedImages s). split.
      * intros [H | [H1 H2]]; [now left | right; split; [now right | exact H2]].
      * intros [H | [[<- | H1] H2]]; [now left | congruence | right; now split].
Qed.

(** *** The frames requested by [preloadImages] *)

Lemma includes_In (l : list Z) (i : Z) : includes l i = true <-> In i l.
Proof.
  unfold includes. rewrite existsb_exists. split.
  - intros (j & Hj & E). apply Z.eqb_eq in E. now subst.
  - intros H. exists i. split; [exact H | apply Z.eqb_refl].
Qed.

Lemma In_indices (n i : Z) : In i (indices n) <-> 0 <= i < n.
Proof.
  unfold indices. rewrite in_map_iff. split.
  - intros (k & <- & Hk). apply in_seq in Hk. lia.
  - intros H. exists (Z.to_nat i). split; [lia | apply in_seq; lia].
Qed.

Lemma NoDup_indices (n : Z) : NoDup (indices n).
Proof.
  unfold indices. change (NoDup (Z.of_nat <$> seq 0 (Z.to_nat n))).
  apply NoDup_fmap_2; [apply _ | apply NoDup_seq].
Qed.

Lemma In_remainingFrames (s : Scroller) (i : Z) :
  In i (remainingFrames s)
  <-> 0 <= i < totalFrames (config s) /\ ~ In i (priorityFrames s).
Proof.
  unfold remainingFrames.
  rewrite <- list_elem_of_In, list_elem_of_filter, list_elem_of_In, In_indices.
  rewrite <- includes_In.
  destruct (includes (priorityFrames s) i); cbn [negb]; intuition (auto; congruence).
Qed.

Lemma NoDup_remainingFrames (s : Scroller) : NoDup (remainingFrames s).
Proof. unfold remainingFrames. apply NoDup_filter, NoDup_indices. Qed.

Lemma In_priorityFrames (s : Scroller) (i : Z) :
  1 <= totalFrames (config s) ->
  In i (priorityFrames s) -> 0 <= i < totalFrames (config s).
Proof.
  intros HT. unfold priorityFrames. cbn [In].
  pose proof (Z.div_pos (totalFrames (config s)) 2).
  pose proof (Z.div_lt_upper_bound (totalFrames (config s)) 2 (totalFrames (config s))).
  intros [<- | [<- | [<- | []]]]; lia.
Qed.

(** Every frame is requested, by the first loop or by the second. *)
Lemma frame_requested (s : Scroller) (order : list Z) (i : Z) :
  Permutation order (remainingFrames s) ->
  0 <= i < totalFrames (config s) ->
  In i (priorityFrames s) \/ In i order.
Proof.
  intros Hp Hi.
  destruct (includes (priorityFrames s) i) eqn:E.
  - left. now apply includes_In.
  - right. apply (Permutation_in i (Permutation_sym Hp)).
    apply In_remainingFrames. split; [exact Hi |].
    rewrite <- includes_In. congruence.
Qed.

(** *** [init] up to the preload *)

(** The instance when [preloadImages] starts: nothing is loaded, nothing is
    in flight, no callback was called and the loop is not running. *)
Lemma before_preload (b : Browser) (o : Options) :
  let s1 := checkWebPSupport b (detectDevice (window b) (construct o)) in
  loadedImages s1 = ∅ /\ images s1 = ∅ /\ loadedCount s1 = 0 /\ calls s1 = []
  /\ inflight s1 = [] /\ animationFrameId s1 = None /\ isLoading s1 = true.
Proof.
  cbv zeta. unfold checkWebPSupport, detectDevice. fields.
  destruct (decodesWebP b);
    destruct (Qle_bool (innerWidth (window b)) (mobileBreakpoint (config (construct o))));
    now repeat split.
Qed.

Lemma init_preload (b : Browser) (order : list Z) (o : Options) :
  canvasFound (window b) = true ->
  let s1 := checkWebPSupport b (detectDevice (window b) (construct o)) in
  init b order (construct o)
  = match preloadImages b order (set_painted [] (set_ctx true s1)) with
    | (s, Rejected e, pending) =>
      initFailed e (set_inflight (inflight s ++ pending) s)
    | (s, Fulfilled, _) =>
      call (onReady (config s)) CallReady
           (set_isLoading false
              (startAnimationLoop (setupScrollListener (window b) s)))
    end.
Proof.
  intros Hcanvas. cbv zeta. unfold init, setupCanvas. rewrite Hcanvas. cbn [negb].
  destruct (before_preload b o) as (_ & Hi & _). cbv zeta in Hi.
  unfold resizeCanvas. fields. rewrite Hi, lookup_empty.
  destruct (preloadImages b order _) as [[s [| e]] pending]; reflexivity.
Qed.

Lemma quiet_not_ready (s : Scroller) : quiet s -> ~ In CallReady (calls s).
Proof.
  unfold quiet. rewrite Forall_forall. intros H Hin.
  apply list_elem_of_In in Hin. exact (H _ Hin).
Qed.

(** The [catch] block: [onError] is called, [onReady] is not, and nothing
    else changes. *)
Lemma initFailed_spec (e : Error) (s : Scroller) :
  quiet s ->
  ~ In CallReady (calls (initFailed e s))
  /\ (onError (config s) = true -> In (CallError e) (calls (initFailed e s)))
  /\ initFailed e s = set_calls (calls (initFailed e s)) s.
Proof.
  intros Hq. unfold initFailed. rewrite call_calls. fields.
  unfold call. destruct (onError (config s)); fields.
  - split; [| split; [intros _; apply in_or_app; right; now left | reflexivity]].
    intros Hin. apply in_app_or in Hin as [Hin | [Hin | []]]; [| discriminate].
    exact (quiet_not_ready s Hq Hin).
  - split; [exact (quiet_not_ready s Hq) | split; [discriminate | now destruct s]].
Qed.

Section Init.
Variable o : Options.
Variable b : Browser.
Variable order : list Z.

Let s1 : Scroller := checkWebPSupport b (detectDevice (window b) (construct o)).
Let frame (i : Z) : Prop := 0 <= i < totalFrames (config s1).

Hypothesis canvas_found : canvasFound (window b) = true.
Hypothesis some_frames : 1 <= totalFrames (config s1).
Hypothesis order_requests : Permutation order (remainingFrames s1).

Let s2 : Scroller := set_painted [] (set_ctx true s1).

Lemma counted_before_preload : counted b s2 /\ quiet s2.
Proof.
  destruct (before_preload b o) as (Hl & _ & Hc & Hcalls & _). cbv zeta in *.
  fold s1 in Hl, Hc, Hcalls.
  split; [split |].
  - subst s2. fields. rewrite Hc, Hl. reflexivity.
  - subst s2. fields. rewrite Hl. intros j Hj. now apply not_elem_of_empty in Hj.
  - unfold quiet. subst s2. fields. rewrite Hcalls. constructor.
Qed.

Lemma order_spec (j : Z) : In j order <-> frame j /\ ~ In j (priorityFrames s1).
Proof.
  unfold frame. rewrite <- In_remainingFrames. split; apply Permutation_in;
    [exact order_requests | exact (Permutation_sym order_requests)].
Qed.

(** How [init] ends: either every frame loaded and the instance is ready,
    or a load failed and initialisation stopped there, the requests of the
    batch that had not settled staying in flight. *)
Lemma init_post :
  let s := init b order (construct o) in
  counted b s /\ NoDup (inflight s)
  /\ (forall j, In j (inflight s) -> j ∉ loadedImages s)
  /\ (((forall i, frame i -> available b s1 i = true)
       /\ (onReady (config s) = true -> In CallReady (calls s))
       /\ animationFrameId s <> None /\ isLoading s = false
       /\ (forall j, j ∈ loadedImages s <-> frame j))
      \/ ((exists k, frame k /\ available b s1 k = false
                     /\ (onError (config s) = true ->
                         In (CallError (FrameLoadFailed k)) (calls s)))
          /\ ~ In CallReady (calls s)
          /\ animationFrameId s = None /\ isLoading s = true
          /\ ((forall i, In i (priorityFrames s1) -> available b s1 i = true) ->
              forall i, frame i -> available b s1 i = true ->
                        i ∈ loadedImages s \/ In i (inflight s)))).
Proof.
  cbv zeta. rewrite (init_preload b order o canvas_found). cbv zeta. fold s1. fold s2.
  destruct counted_before_preload as [Hc2 Hq2].
  destruct (before_preload b o) as (Hl1 & _ & _ & _ & Hinf1 & Hraf1 & Hload1).
  cbv zeta in Hl1, Hinf1, Hraf1, Hload1. fold s1 in Hl1, Hinf1, Hraf1, Hload1.
  unfold preloadImages.
  change (priorityFrames s2) with (priorityFrames s1).
  destruct (loadInOrder_spec b (priorityFrames s1) s2 Hc2)
    as (Hc3 & Hsub3 & Hsup3 & Hful3 & Hrej3 & Hall3).
  pose proof (quiet_loadInOrder b (priorityFrames s1) s2 Hq2) as Hq3.
  pose proof (loader_writes_loadInOrder b (priorityFrames s1) s2) as Hw3.
  destruct (loadInOrder b (priorityFrames s1) s2) as [s3 [| e3]]; cbn [fst snd] in *.
  - (* the priority frames are loaded *)
    set (s3' := match images s3 !! 0 with
                | Some _ => drawFrame (window b) 0 s3
                | None => s3
                end).
    assert (loader_writes s3 s3') as Hw3'.
    { subst s3'. destruct (images s3 !! 0);
        [apply loader_writes_draw | apply loader_writes_refl]. }
    assert (s3' = set_painted (painted s3') s3) as Hs3'.
    { subst s3'. destruct (images s3 !! 0); [| now destruct s3].
      unfold drawFrame. now rewrite drawFrameWithBlending_paints at 1. }
    assert (counted b s3') as Hc3' by (rewrite Hs3'; exact Hc3).
    assert (quiet s3') as Hq3' by (rewrite Hs3'; exact Hq3).
    assert (loadedImages s3' = loadedImages s3) as Hl3' by (now rewrite Hs3').
    assert (forall j, available b s3' j = available b s1 j) as Hav3.
    { intros j. rewrite (available_loader_writes b s3 s3' j Hw3').
      now rewrite (available_loader_writes b s2 s3 j Hw3). }
    assert (forall j, j ∈ loadedImages s3' <-> In j (priorityFrames s1)) as Hprio.
    { intros j. rewrite Hl3'. split.
      - intros Hj. destruct (Hsup3 j Hj) as [Hj' | Hj']; [| exact Hj'].
        change (loadedImages s2) with (loadedImages s1) in Hj'.
        rewrite Hl1 in Hj'. now apply not_elem_of_empty in Hj'.
      - now apply Hful3. }
    assert (NoDup order) as Hnd.
    { apply (NoDup_Permutation_proper _ _ order_requests), NoDup_remainingFrames. }
    assert (forall j, In j order -> j ∉ loadedImages s3') as Hfresh.
    { intros j Hj Hin. apply Hprio in Hin. apply order_spec in Hj. tauto. }
    destruct (awaitAll_spec b order s3' Hc3' Hnd Hfresh)
      as (Hc4 & Hnd4 & Hf4 & Hiff4 & Hful4 & Hrej4 & Hall4).
    pose proof (quiet_awaitAll b order s3' Hq3') as Hq4.
    pose proof (loader_writes_awaitAll b order s3') as Hw4.
    assert (loader_writes s2 (fst (fst (awaitAll b order s3')))) as Hw24
        by (eapply loader_writes_trans; [exact Hw3 |];
            eapply loader_writes_trans; [exact Hw3' | exact Hw4]).
    destruct (loader_writes_keeps _ _ Hw24)
      as (Hk & _ & _ & _ & _ & Hil & _ & Hraf & Hinf & _).
    destruct (awaitAll b order s3') as [[s4 [| e4]] pending]; cbn [fst snd] in *.
    + (* and so are all the others: ready *)
      destruct (Hful4 eq_refl) as [-> Hok4].
      assert (forall j, j ∈ loadedImages s4 <-> frame j) as Hall.
      { intros j. split.
        - intros Hj. destruct (proj1 (Hiff4 j) (or_introl Hj)) as [Hj' | [Hj' _]].
          + apply Hprio in Hj'. now apply In_priorityFrames.
          + now apply order_spec in Hj'.
        - intros Hj. destruct (frame_requested s1 order j order_requests Hj) as [Hp | Ho].
          + destruct (proj2 (Hiff4 j) (or_introl (proj2 (Hprio j) Hp))) as [H | [[] _]].
            exact H.
          + destruct (proj2 (Hiff4 j) (or_intror (conj Ho (Hok4 j Ho)))) as [H | [[] _]].
            exact H. }
      unfold setupScrollListener, startAnimationLoop, requestAnimationFrame.
      rewrite call_calls.
      unfold updateScrollPosition, lazyLoadNearbyFrames. fields.
      split; [exact Hc4 |].
      split; [| split].
      * rewrite Hinf. change (inflight s2) with (inflight s1). rewrite Hinf1.
        cbn [app]. apply NoDup_filter.
        unfold nearbyFrames.
        match goal with
        | |- NoDup (map ?f ?l) => change (NoDup (f <$> l))
        end.
        apply NoDup_fmap_2; [intros x y H; lia | apply NoDup_seq].
      * rewrite Hinf. change (inflight s2) with (inflight s1). rewrite Hinf1.
        cbn [app]. intros j Hj. apply list_elem_of_In, list_elem_of_filter in Hj.
        destruct Hj as [Hj _]. apply Is_true_true in Hj.
        apply negb_true_iff, bool_decide_eq_false in Hj. exact Hj.
      * left. split; [| split; [| split; [| split]]].
        -- intros i Hi. destruct (frame_requested s1 order i order_requests Hi) as [Hp | Ho].
           ++ rewrite <- Hav3. apply Hc3'. now apply Hprio.
           ++ rewrite <- Hav3. now apply Hok4.
        -- intros Hr. unfold call. rewrite Hr. fields.
           apply in_or_app. right. now left.
        -- rewrite Hraf. change (animationFrameId s2) with (animationFrameId s1).
           rewrite Hraf1. discriminate.
        -- reflexivity.
        -- exact Hall.
    + (* a request of the batch failed *)
      destruct (Hrej4 e4 eq_refl) as (k & Hk1 & -> & Hk2).
      assert (inflight s4 ++ pending = pending) as Hpend.
      { rewrite Hinf. change (inflight s2) with (inflight s1). now rewrite Hinf1. }
      rewrite Hpend.
      set (s5 := set_inflight pending s4).
      assert (quiet s5) as Hq5 by exact Hq4.
      destruct (initFailed_spec (FrameLoadFailed k) s5 Hq5) as (Hnr & Herr & Heq).
      rewrite Heq. subst s5. fields.
      split; [exact Hc4 |]. split; [exact Hnd4 |]. split; [exact Hf4 |].
      right. split; [| split; [| split; [| split]]].
      * exists k. split; [now apply order_spec in Hk1 |].
        split; [now rewrite <- Hav3 |]. exact Herr.
      * exact Hnr.
      * rewrite Hraf. exact Hraf1.
      * rewrite Hil. exact Hload1.
      * intros _ i Hi Hai.
        destruct (frame_requested s1 order i order_requests Hi) as [Hp | Ho].
        -- destruct (proj2 (Hiff4 i) (or_introl (proj2 (Hprio i) Hp))) as [H | [H _]];
             [now left | now right].
        -- rewrite <- Hav3 in Hai.
           destruct (proj2 (Hiff4 i) (or_intror (conj Ho Hai))) as [H | [H _]];
             [now left | now right].
  - (* a priority frame failed *)
    destruct (Hrej3 e3 eq_refl) as (k & Hk1 & -> & Hk2).
    destruct (loader_writes_keeps _ _ Hw3)
      as (Hk & _ & _ & _ & _ & Hil & _ & Hraf & Hinf & _).
    assert (inflight s3 ++ [] = []) as Hpend.
    { rewrite Hinf. change (inflight s2) with (inflight s1). now rewrite Hinf1. }
    rewrite Hpend.
    set (s5 := set_inflight [] s3).
    assert (quiet s5) as Hq5 by exact Hq3.
    destruct (initFailed_spec (FrameLoadFailed k) s5 Hq5) as (Hnr & Herr & Heq).
    rewrite Heq. subst s5. fields.
    split; [exact Hc3 |]. split; [constructor |]. split; [intros j [] |].
    right. split; [| split; [| split; [| split]]].
    + exists k. split; [now apply In_priorityFrames |]. split; [exact Hk2 | exact Herr].
    + exact Hnr.
    + rewrite Hraf. exact Hraf1.
    + rewrite Hil. exact Hload1.
    + intros Hp. specialize (Hp k Hk1).
      change (available b s2 k) with (available b s1 k) in Hk2. congruence.
Qed.
End Init.

Lemma size_all_frames (X : gset Z) (n : Z) :
  0 <= n -> (forall j, j ∈ X <-> 0 <= j < n) -> Z.of_nat (size X) = n.
Proof.
  intros Hn HX.
  assert (X = list_to_set (indices n)) as ->.
  { apply set_eq. intros j.
    rewrite elem_of_list_to_set, list_elem_of_In, In_indices. apply HX. }
  rewrite size_list_to_set by apply NoDup_indices.
  unfold indices. rewrite length_map, length_seq. lia.
Qed.

(** C1 (as the code has it).  [preloadImages] awaits the three priority
    frames one after the other and then the remaining frames together with
    [Promise.all], and [loadImage] rejects on a failed load.  So [init]
    completes (the draw loop is started, [onReady] is called and all
    [totalFrames] frames are counted) when every frame loads; as soon as one
    load fails the preload is rejected, [onError] is called in place of
    [onReady] and the draw loop is not started.  A failed load in the
    concurrent batch does not stop the other requests: once they have
    settled every frame that can be loaded is stored.  In all cases
    [getMetrics().loadedFrames] counts the stored frames, each of them a
    successful load. *)
Theorem preload_rejected_by_failed_load
        (o : Options) (b : Browser) (order : list Z) :
  canvasFound (window b) = true ->
  1 <= totalFrames (config (checkWebPSupport b (detectDevice (window b) (construct o)))) ->
  Permutation order
    (remainingFrames (checkWebPSupport b (detectDevice (window b) (construct o)))) ->
  let s1 := checkWebPSupport b (detectDevice (window b) (construct o)) in
  let s := init b order (construct o) in
  let frame i := 0 <= i < totalFrames (config s1) in
  ((forall i, frame i -> available b s1 i = true) ->
   (onReady (config s) = true -> In CallReady (calls s))
   /\ animationFrameId s <> None /\ isLoading s = false
   /\ m_loadedFrames (getMetrics s) = totalFrames (config s1))
  /\ (forall k, frame k -> available b s1 k = false ->
      ~ In CallReady (calls s) /\ animationFrameId s = None /\ isLoading s = true
      /\ (onError (config s) = true ->
          exists k', frame k' /\ available b s1 k' = false
                     /\ In (CallError (FrameLoadFailed k')) (calls s)))
  /\ ((forall i, In i (priorityFrames s1) -> available b s1 i = true) ->
      forall i, frame i -> available b s1 i = true -> i ∈ loadedImages (drain b s))
  /\ m_loadedFrames (getMetrics (drain b s))
     = Z.of_nat (size (loadedImages (drain b s)))
  /\ (forall i, i ∈ loadedImages (drain b s) -> available b s1 i = true).
Proof.
  intros Hcanvas HT Hperm s1 s frame.
  assert (0 <= totalFrames (config s1)) as HT0 by (subst s1; lia).
  pose proof (init_post o b order Hcanvas HT Hperm) as Hpost. cbv zeta in Hpost.
  fold s1 in Hpost. fold s in Hpost.
  destruct Hpost as (Hc & Hnd & Hfresh & Hcases).
  destruct (settleAll_spec b (inflight s) s Hc Hnd Hfresh eq_refl) as (Hcd & Hkd & Hiffd).
  fold (drain b s) in Hcd, Hkd, Hiffd.
  assert (config s = config s1) as Hk by apply init_keeps.
  assert (forall j, available b s j = available b s1 j) as Hav
      by (intros j; unfold available; now rewrite Hk).
  split; [| split; [| split; [| split]]].
  - intros Hallok.
    destruct Hcases as [(_ & Hready & Hraf & Hil & Hall) | ((k & Hk1 & Hk2 & _) & _)].
    + split; [exact Hready |]. split; [exact Hraf |]. split; [exact Hil |].
      change (m_loadedFrames (getMetrics s)) with (loadedCount s).
      rewrite (proj1 Hc). apply size_all_frames; [exact HT0 | exact Hall].
    + specialize (Hallok k Hk1). congruence.
  - intros k Hk1 Hk2.
    destruct Hcases as [(Hallok & _) | (Hex & Hnr & Hraf & Hil & _)].
    + specialize (Hallok k Hk1). congruence.
    + split; [exact Hnr |]. split; [exact Hraf |]. split; [exact Hil |].
      intros Herr. destruct Hex as (k' & Hk'1 & Hk'2 & Hk'3).
      exists k'. split; [exact Hk'1 |]. split; [exact Hk'2 | now apply Hk'3].
  - intros Hprio i Hi Hai. apply Hiffd.
    destruct Hcases as [(_ & _ & _ & _ & Hall) | (_ & _ & _ & _ & Hrest)].
    + left. now apply Hall.
    + destruct (Hrest Hprio i Hi Hai) as [H | H]; [now left |].
      right. split; [exact H | now rewrite Hav].
  - exact (proj1 Hcd).
  - intros i Hi. rewrite <- Hav. unfold available. rewrite <- Hkd.
    exact (proj2 Hcd i Hi).
Qed.

(** C1 as stated fails.  Five frames, a caller that listens to [onReady]
    and [onError].  When frame 3 (one of the concurrent batch) fails to load,
    [init] ends in its [catch] block: [onError] is the only callback made,
    [onReady] is not called, the draw loop is not started and the instance
    stays in its loading state.  When frame 0 (the first priority frame)
    fails, no other frame is ever requested: nothing is loaded although
    every other frame is available. *)
Lemma failed_load_aborts_init :
  let o := options 5 0.1 in
  let b3 := browser (viewport 1024 0) (allBut 3) in
  let b0 := browser (viewport 1024 0) (allBut 0) in
  let s3 := init b3 (requestOrder o b3) (construct o) in
  let s0 := init b0 (requestOrder o b0) (construct o) in
  requestOrder o b3 = [1; 3]
  /\ calls s3 = [CallError (FrameLoadFailed 3)]
  /\ ~ In CallReady (calls s3)
  /\ animationFrameId s3 = None
  /\ isLoading s3 = true
  /\ calls s0 = [CallError (FrameLoadFailed 0)]
  /\ inflight s0 = []
  /\ m_loadedFrames (getMetrics (drain b0 s0)) = 0
  /\ (forall i, i ∉ loadedImages (drain b0 s0)).
Proof.
  cbv zeta.
  assert (calls (init (browser (viewport 1024 0) (allBut 3))
                      (requestOrder (options 5 0.1) (browser (viewport 1024 0) (allBut 3)))
                      (construct (options 5 0.1)))
          = [CallError (FrameLoadFailed 3)]) as E3 by (vm_compute; reflexivity).
  split; [vm_compute; reflexivity |].
  split; [exact E3 |].
  split; [rewrite E3; intros [H | []]; discriminate |].
  split; [vm_compute; reflexivity |].
  split; [vm_compute; reflexivity |].
  split; [vm_compute; reflexivity |].
  split; [vm_compute; reflexivity |].
  split; [vm_compute; reflexivity |].
  intros i.
  assert (loadedImages
            (drain (browser (viewport 1024 0) (allBut 0))
               (init (browser (viewport 1024 0) (allBut 0))
                  (requestOrder (options 5 0.1) (browser (viewport 1024 0) (allBut 0)))
                  (construct (options 5 0.1)))) = ∅) as -> by (vm_compute; reflexivity).
  apply not_elem_of_empty.
Qed.

Lemma preload_rejected_by_failed_load_witness :
  let o := options 5 0.1 in
  let b3 := browser (viewport 1024 0) (allBut 3) in
  let s3 := init b3 (requestOrder o b3) (construct o) in
  ~ In CallReady (calls s3)
  /\ 1 ∈ loadedImages (drain b3 s3)
  /\ m_loadedFrames (getMetrics (drain b3 s3))
     = Z.of_nat (size (loadedImages (drain b3 s3))).
Proof.
  cbv zeta.
  assert (canvasFound (window (browser (viewport 1024 0) (allBut 3))) = true) as H1
      by reflexivity.
  assert (1 <= totalFrames
                 (config (checkWebPSupport (browser (viewport 1024 0) (allBut 3))
                            (detectDevice (window (browser (viewport 1024 0) (allBut 3)))
                               (construct (options 5 0.1)))))) as H2
      by (vm_compute; discriminate).
  destruct (preload_rejected_by_failed_load
              (options 5 0.1) (browser (viewport 1024 0) (allBut 3))
              (requestOrder (options 5 0.1) (browser (viewport 1024 0) (allBut 3)))
              H1 H2 (Permutation_refl _)) as (_ & Hfail & Hrest & Hcount & _).
  split; [| split].
  - apply (Hfail 3); [vm_compute; split; [discriminate | reflexivity] | vm_compute; reflexivity].
  - apply Hrest.
    + intros i [<- | [<- | [<- | []]]]; vm_compute; reflexivity.
    + vm_compute. split; [discriminate | reflexivity].
    + vm_compute. reflexivity.
  - exact Hcount.
Defined.
End Preload.

(** ** ForestScroller: the file a frame is loaded from *)

Module FrameFiles.
Import JS ForestScroller.
Local Open Scope Z_scope.

Lemma append_String (a : ascii) (s t : string) :
  String.append (String a s) t = String a (String.append s t).
Proof. reflexivity. Qed.

(** [k] zeros written in front of a numeral. *)
Lemma zeros_string_of_uint (k : nat) (d : Decimal.uint) :
  String.append (zeros k) (NilEmpty.string_of_uint d)
  = NilEmpty.string_of_uint (Nat.iter k Decimal.D0 d).
Proof.
  induction k as [| k IH]; [reflexivity |].
  cbn [zeros]. rewrite append_String, IH. reflexivity.
Qed.

Lemma of_uint_zeros (k : nat) (d : Decimal.uint) :
  Pos.of_uint (Nat.iter k Decimal.D0 d) = Pos.of_uint d.
Proof. induction k as [| k IH]; simpl; [reflexivity | exact IH]. Qed.

Lemma iter_D0_nonnil (k : nat) (d : Decimal.uint) :
  d <> Decimal.Nil -> Nat.iter k Decimal.D0 d <> Decimal.Nil.
Proof. destruct k; simpl; [tauto | discriminate]. Qed.

Lemma int_of_string_of_uint (u : Decimal.uint) :
  u <> Decimal.Nil ->
  NilZero.int_of_string (NilEmpty.string_of_uint u) = Some (Decimal.Pos u).
Proof.
  intros Hu. pose proof (NilEmpty.usu u) as H.
  destruct u; try congruence;
    cbn [NilEmpty.string_of_uint NilZero.int_of_string] in *;
    match goal with |- context [Ascii.eqb ?a ?b] =>
      change (Ascii.eqb a b) with false end;
    cbn [NilZero.uint_of_string]; now rewrite H.
Qed.

Lemma frameNumber_unfold (p : positive) :
  frameNumber (Z.pos p - 1)
  = NilEmpty.string_of_uint
      (Nat.iter (3 - String.length (NilEmpty.string_of_uint (Pos.to_uint p)))
                Decimal.D0 (Pos.to_uint p)).
Proof.
  unfold frameNumber, padStart, String_of_int.
  replace (Z.pos p - 1 + 1) with (Z.pos p) by lia.
  cbn [Z.to_int NilZero.string_of_int].
  assert (NilZero.string_of_uint (Pos.to_uint p)
          = NilEmpty.string_of_uint (Pos.to_uint p)) as ->.
  { pose proof (DecimalPos.Unsigned.to_uint_nonnil p).
    destruct (Pos.to_uint p); [congruence | reflexivity ..]. }
  apply zeros_string_of_uint.
Qed.

Lemma parseInt_frameNumber (index : Z) :
  0 <= index -> parseInt (frameNumber index) = Some (index + 1).
Proof.
  intros H.
  destruct (index + 1) as [| p |] eqn:E; try lia.
  replace index with (Z.pos p - 1) by lia.
  rewrite frameNumber_unfold. unfold parseInt.
  rewrite int_of_string_of_uint
    by apply iter_D0_nonnil, DecimalPos.Unsigned.to_uint_nonnil.
  cbn [option_map Z.of_int]. unfold Z.of_uint.
  rewrite of_uint_zeros, DecimalPos.Unsigned.of_to. reflexivity.
Qed.

Lemma length_append (s t : string) :
  String.length (String.append s t) = (String.length s + String.length t)%nat.
Proof.
  induction s as [| a s IH]; [reflexivity |].
  rewrite append_String. cbn [String.length]. now rewrite IH.
Qed.

Lemma length_zeros (k : nat) : String.length (zeros k) = k.
Proof. induction k as [| k IH]; simpl; [reflexivity | now rewrite IH]. Qed.

Lemma length_padStart (n : nat) (s : string) :
  String.length (padStart n s) = Nat.max n (String.length s).
Proof. unfold padStart. rewrite length_append, length_zeros. lia. Qed.

Lemma append_cancel_l (p s t : string) :
  String.append p s = String.append p t -> s = t.
Proof.
  induction p as [| a p IH]; [tauto |].
  rewrite !append_String. intros H. apply IH. congruence.
Qed.

Lemma append_cancel_r (s t u : string) :
  String.append s u = String.append t u -> s = t.
Proof.
  intros H.
  assert (String.length s = String.length t) as L.
  { apply (f_equal String.length) in H. rewrite !length_append in H. lia. }
  revert t H L. induction s as [| a s IH]; intros [| b t] H L;
    try discriminate L; [reflexivity |].
  rewrite !append_String in H. cbn [String.length] in L.
  injection H as -> H. f_equal. apply IH; [exact H | lia].
Qed.

(** X1.  Frame [index] (counted from 0) is loaded from the file numbered
    [index + 1]: the number in the file name is written in decimal, padded
    with zeros on the left to three characters and never cut, so that
    reading it back gives [index + 1], whatever the number of digits. *)
Theorem frameNumber_one_based (index : Z) :
  0 <= index ->
  parseInt (frameNumber index) = Some (index + 1)
  /\ (3 <= String.length (frameNumber index))%nat
  /\ (index < 999 -> String.length (frameNumber index) = 3%nat).
Proof.
  intros H. split; [now apply parseInt_frameNumber |].
  unfold frameNumber. rewrite length_padStart. split; [lia |].
  intros Hlt.
  enough (String.length (String_of_int (index + 1)) <= 3)%nat by lia.
  unfold String_of_int.
  destruct (index + 1) as [| p |] eqn:E; try lia.
  cbn [Z.to_int NilZero.string_of_int].
  assert (forallb (fun n => String.length (String_of_int (Z.of_nat n)) <=? 3)%nat
                  (seq 1 999) = true) as Hall by (vm_compute; reflexivity).
  rewrite forallb_forall in Hall.
  specialize (Hall (Pos.to_nat p)).
  rewrite positive_nat_Z in Hall. apply Nat.leb_le, Hall, in_seq. lia.
Qed.

(** X2.  Distinct frames are loaded from distinct files: the paths
    requested for two different frames differ, whatever the path, the
    prefix and the format configured. *)
Theorem framePath_injective (c : Config) (i j : Z) :
  0 <= i -> 0 <= j -> i <> j -> framePath c i <> framePath c j.
Proof.
  intros Hi Hj Hne H. apply Hne. unfold framePath in H.
  do 2 apply append_cancel_l in H. apply append_cancel_r in H.
  apply (f_equal parseInt) in H.
  rewrite !parseInt_frameNumber in H by assumption.
  injection H as H. lia.
Qed.

Lemma frameNumber_one_based_witness :
  parseInt (frameNumber 0) = Some 1
  /\ (3 <= String.length (frameNumber 0))%nat
  /\ (0 < 999 -> String.length (frameNumber 0) = 3%nat).
Proof. apply (frameNumber_one_based 0). lia. Defined.

Lemma framePath_injective_witness :
  framePath (mergeOptions Examples.noOptions) 9
  <> framePath (mergeOptions Examples.noOptions) 99.
Proof.
  apply (framePath_injective (mergeOptions Examples.noOptions) 9 99); lia.
Defined.

End FrameFiles.

(** ** ForestScroller: how a frame is fitted to the canvas *)

Module Cover.
Import JS JSFacts ForestScroller.
Local Open Scope Q_scope.

Lemma Qdiv_mult (a b : Q) : 0 < b -> a / b * b == a.
Proof. intros H. field. lra. Qed.

Lemma Qdiv_pos (a b : Q) : 0 < a -> 0 < b -> 0 < a / b.
Proof.
  intros Ha Hb. apply Qlt_shift_div_l; [exact Hb | lra].
Qed.

(** X3.  [calculateCoverDimensions] is the [object-fit: cover] fit: for a
    canvas and an image of positive sizes, the drawn rectangle keeps the
    aspect ratio of the image, covers the canvas in both directions,
    matches it exactly in one of them, and is centred on it (so that the
    offsets are never positive). *)
Theorem cover_covers_canvas (canvasWidth canvasHeight : Q) (img : Image) :
  0 < canvasWidth -> 0 < canvasHeight ->
  0 < naturalWidth img -> 0 < naturalHeight img ->
  let d := calculateCoverDimensions canvasWidth canvasHeight img in
  drawWidth d * naturalHeight img == drawHeight d * naturalWidth img
  /\ canvasWidth <= drawWidth d
  /\ canvasHeight <= drawHeight d
  /\ (drawWidth d == canvasWidth \/ drawHeight d == canvasHeight)
  /\ offsetX d * 2 + drawWidth d == canvasWidth
  /\ offsetY d * 2 + drawHeight d == canvasHeight
  /\ offsetX d <= 0 /\ offsetY d <= 0.
Proof.
  intros Hcw Hch Hnw Hnh.
  unfold calculateCoverDimensions.
  pose proof (Qdiv_mult canvasWidth canvasHeight Hch) as Ec.
  pose proof (Qdiv_mult (naturalWidth img) (naturalHeight img) Hnh) as Er.
  pose proof (Qdiv_pos _ _ Hnw Hnh) as Hr.
  set (c := canvasWidth / canvasHeight) in *.
  set (r := naturalWidth img / naturalHeight img) in *.
  destruct (Qltb_reflect r c) as [Hlt | Hge]; cbn [drawWidth drawHeight offsetX offsetY].
  - pose proof (Qdiv_mult canvasWidth r Hr) as Eh.
    set (h := canvasWidth / r) in *.
    assert (canvasHeight <= h) as Hh by nra.
    assert ((canvasHeight - h) / 2 == (canvasHeight - h) * (1 # 2)) as -> by field.
    repeat split; try lra; try nra.
  - apply Qnot_lt_le in Hge.
    assert ((canvasWidth - canvasHeight * r) / 2
            == (canvasWidth - canvasHeight * r) * (1 # 2)) as -> by field.
    assert (canvasWidth <= canvasHeight * r) as Hw by nra.
    repeat split; try lra; try nra.
Qed.

Lemma cover_covers_canvas_witness :
  let d := calculateCoverDimensions 1000 500 (Examples.frameImage 0) in
  drawWidth d * naturalHeight (Examples.frameImage 0)
  == drawHeight d * naturalWidth (Examples.frameImage 0)
  /\ 1000 <= drawWidth d
  /\ 500 <= drawHeight d
  /\ (drawWidth d == 1000 \/ drawHeight d == 500)
  /\ offsetX d * 2 + drawWidth d == 1000
  /\ offsetY d * 2 + drawHeight d == 500
  /\ offsetX d <= 0 /\ offsetY d <= 0.
Proof.
  apply (cover_covers_canvas 1000 500 (Examples.frameImage 0)); reflexivity.
Defined.
End Cover.

(** ** ForestScroller: what the canvas shows *)

Module Painting.
Import JS JSFacts ForestScroller Footprint Loading Playback ScrollMapping Initialisation.
Local Open Scope Q_scope.

Lemma picture_nil : picture [].
Proof. now left. Qed.

Lemma lastFrame_pos (s : Scroller) :
  (2 <= totalFrames (config s))%Z -> 1 <= lastFrame s.
Proof.
  intros H. unfold lastFrame.
  change 1 with (inject_Z 1). rewrite <- Zle_Qle. lia.
Qed.

(** The green wash of a frame of the sequence. *)
Lemma greenIntensity_range (x l : Q) :
  1 <= l -> 0 <= x -> x <= l ->
  0.03 <= 0.03 + x / l * 0.02 /\ 0.03 + x / l * 0.02 <= 0.05.
Proof.
  intros Hl H0 H1.
  assert (0 <= x / l) by (apply Qle_shift_div_l; lra).
  assert (x / l <= 1) by (apply Qle_shift_div_r; lra).
  split; lra.
Qed.

Lemma picture_draw (w : Window) (x : Q) (s : Scroller) :
  (2 <= totalFrames (config s))%Z -> 0 <= x -> x <= lastFrame s ->
  picture (painted s) -> picture (painted (drawFrameWithBlending w x s)).
Proof.
  intros HT H0 H1 Hp. unfold drawFrameWithBlending.
  destruct (ctx s); cbn [negb]; [| exact Hp].
  destruct (images s !! Qfloor x) as [img1 |]; [| exact Hp].
  destruct (truthy (naturalWidth img1)); cbn [negb]; [| exact Hp].
  fields. unfold applyDepthGrading. right.
  destruct (greenIntensity_range x (lastFrame s) (lastFrame_pos s HT) H0 H1)
    as [G0 G1].
  eexists _, _, _, _, _, _, _, _, _. split; [reflexivity |].
  split; [exact G0 |]. split; [exact G1 |].
  destruct (images s !! _) as [img2 |]; [| now left].
  destruct (negb _ && Qltb 0.01 (x - inject_Z (Qfloor x)) && _) eqn:E; [| now left].
  right. exists img2, (x - inject_Z (Qfloor x)). split; [reflexivity |].
  apply andb_prop in E as [E _]. apply andb_prop in E as [_ E].
  apply Qltb_true in E. split; [exact E |].
  pose proof (Qlt_floor x) as Hf. rewrite inject_Z_succ in Hf. lra.
Qed.

(** A run of the frame callback paints the position it has moved to. *)
Lemma picture_animate (w : Window) (t : Q) (s : Scroller) :
  (2 <= totalFrames (config s))%Z ->
  picture (painted s) -> picture (painted (animate w t s)).
Proof.
  intros HT Hp.
  assert (1 <= totalFrames (config s))%Z as HT1 by lia.
  pose proof (in_range_animate w t s HT1) as [R0 R1].
  assert (lastFrame (animate w t s) = lastFrame s) as EL
    by (unfold lastFrame; now rewrite (proj2 (proj2 (targetFrame_animate w t s)))).
  rewrite EL in R1. revert R0 R1.
  unfold animate, requestAnimationFrame.
  match goal with |- context [drawFrameWithBlending w (currentFrame ?S) ?S] =>
    set (s' := S) end.
  rewrite drawFrameWithBlending_paints. fields. intros R0 R1.
  assert (config s' = config s /\ painted s' = painted s) as [Ec Ep].
  { subst s'. unfold adaptiveSmoothness, lastFrame.
    destruct (truthy (lastFrameTime s)); fields;
      match goal with |- context [if Qltb (Math_abs ?v) ?c then _ else _] =>
        destruct (Qltb (Math_abs v) c) end; now split. }
  apply picture_draw.
  - now rewrite Ec.
  - exact R0.
  - unfold lastFrame. rewrite Ec. exact R1.
  - now rewrite Ep.
Qed.

Lemma picture_resizeCanvas (w : Window) (s : Scroller) :
  (2 <= totalFrames (config s))%Z -> in_range s ->
  picture (painted s) -> picture (painted (resizeCanvas w s)).
Proof.
  intros HT [R0 R1] Hp. unfold resizeCanvas.
  destruct (ctx s); cbn [negb]; [| exact Hp].
  fields. destruct (images s !! _); [| apply picture_nil].
  apply picture_draw; try assumption. apply picture_nil.
Qed.

Lemma floor_in_range (x : Q) (s : Scroller) :
  0 <= x -> x <= lastFrame s ->
  0 <= Math_floor x /\ Math_floor x <= lastFrame s.
Proof.
  intros H0 H1. unfold Math_floor, lastFrame in *.
  split.
  - change 0 with (inject_Z 0). rewrite <- Zle_Qle.
    apply (Qfloor_resp_le 0 x) in H0. exact H0.
  - rewrite <- Zle_Qle.
    apply Qfloor_resp_le in H1. now rewrite Qfloor_Z in H1.
Qed.

Lemma picture_jumpToFrame (w : Window) (x : Q) (s : Scroller) :
  (2 <= totalFrames (config s))%Z ->
  picture (painted s) -> picture (painted (jumpToFrame w x s)).
Proof.
  intros HT Hp. unfold jumpToFrame, drawFrame.
  pose proof (lastFrame_pos s HT) as HL.
  destruct (clamp_range x (lastFrame s)) as [C0 C1]; [lra |].
  destruct (floor_in_range _ s C0 C1) as [F0 F1].
  apply picture_draw; assumption.
Qed.

Lemma painted_settleImage (b : Browser) (i : Z) (s : Scroller) :
  painted (fst (settleImage b i s)) = painted s.
Proof.
  unfold settleImage. destruct (fetch b _ i); [| reflexivity].
  unfold img_onload. rewrite updateProgress_calls. reflexivity.
Qed.

Lemma picture_handle (e : Event) (s : Scroller) :
  (2 <= totalFrames (config s))%Z -> in_range s ->
  picture (painted s) -> picture (painted (handle e s)).
Proof.
  intros HT Hr Hp. destruct e; cbn [handle].
  - destruct (animationFrameId s); [now apply picture_animate | exact Hp].
  - exact Hp.
  - now apply picture_resizeCanvas.
  - unfold imageSettled. destruct (includes (inflight s) index); [| exact Hp].
    now rewrite painted_settleImage.
  - now apply picture_jumpToFrame.
  - now apply picture_jumpToFrame.
  - unfold pause. now destruct (animationFrameId s).
  - unfold resume. now destruct (animationFrameId s).
  - unfold destroy. fields. destruct (ctx s); [apply picture_nil | exact Hp].
Qed.

Lemma picture_run (es : list Event) (s : Scroller) :
  (2 <= totalFrames (config s))%Z -> in_range s ->
  picture (painted s) -> picture (painted (run es s)).
Proof.
  revert s. induction es as [| e es IH]; intros s HT Hr Hp; [exact Hp |].
  cbn [run fold_left]. apply IH.
  - now rewrite config_handle.
  - apply in_range_handle; [lia | exact Hr].
  - now apply picture_handle.
Qed.

Lemma painted_loadInOrder (b : Browser) (frames : list Z) (s : Scroller) :
  painted (fst (loadInOrder b frames s)) = painted s.
Proof.
  revert s. induction frames as [| i rest IH]; intros s; [reflexivity |].
  cbn [loadInOrder]. unfold loadImage.
  destruct (bool_decide _); [apply IH |].
  pose proof (painted_settleImage b i s) as H.
  destruct (settleImage b i s) as [s' [| e]]; cbn [fst] in *; [| exact H].
  now rewrite IH.
Qed.

Lemma painted_awaitAll (b : Browser) (order : list Z) (s : Scroller) :
  painted (fst (fst (awaitAll b order s))) = painted s.
Proof.
  revert s. induction order as [| i rest IH]; intros s; [reflexivity |].
  cbn [awaitAll].
  pose proof (painted_settleImage b i s) as H.
  destruct (settleImage b i s) as [s' [| e]]; cbn [fst] in *; [| exact H].
  now rewrite IH.
Qed.

Lemma picture_preloadImages (b : Browser) (order : list Z) (s : Scroller) :
  (2 <= totalFrames (config s))%Z ->
  picture (painted s) -> picture (painted (fst (fst (preloadImages b order s)))).
Proof.
  intros HT Hp. unfold preloadImages.
  pose proof (painted_loadInOrder b (priorityFrames s) s) as H.
  pose proof (loader_writes_keeps _ _ (loader_writes_loadInOrder b (priorityFrames s) s))
    as (Hc & _).
  destruct (loadInOrder b (priorityFrames s) s) as [s' [| e]]; cbn [fst] in *;
    [| now rewrite H].
  rewrite painted_awaitAll.
  destruct (images s' !! 0%Z); [| now rewrite H].
  unfold drawFrame. apply picture_draw.
  - now rewrite Hc.
  - lra.
  - pose proof (lastFrame_pos s' ltac:(now rewrite Hc)). lra.
  - now rewrite H.
Qed.

Lemma painted_before_preload (b : Browser) (o : Options) :
  let s1 := checkWebPSupport b (detectDevice (window b) (construct o)) in
  painted s1 = [] /\ currentFrame s1 = 0.
Proof.
  unfold checkWebPSupport, detectDevice. fields.
  destruct (decodesWebP b), (Qle_bool _ _); now split.
Qed.

Lemma picture_init (b : Browser) (order : list Z) (o : Options) :
  (2 <= totalFrames (config (init b order (construct o))))%Z ->
  picture (painted (init b order (construct o))).
Proof.
  intros HT.
  rewrite (proj1 (proj2 (proj2 (init_keeps b order (construct o))))) in HT.
  destruct (painted_before_preload b o) as [Ep Ec].
  unfold init.
  set (s1 := checkWebPSupport b (detectDevice (window b) (construct o))) in *.
  clearbody s1.
  unfold setupCanvas, initFailed.
  destruct (canvasFound (window b)); cbn [negb].
  - set (s2 := resizeCanvas (window b) (set_ctx true s1)).
    assert (config s2 = config s1) as Ek
      by (subst s2; now rewrite resizeCanvas_paints).
    assert (picture (painted s2)) as Hp2.
    { subst s2. apply picture_resizeCanvas.
      - exact HT.
      - unfold in_range. fields. rewrite Ec.
        pose proof (lastFrame_pos (set_ctx true s1) HT). lra.
      - fields. rewrite Ep. apply picture_nil. }
    clearbody s2.
    pose proof (picture_preloadImages b order s2 ltac:(now rewrite Ek) Hp2) as Hp3.
    destruct (preloadImages b order s2) as [[s3 [| e]] pending]; cbn [fst] in Hp3.
    + rewrite call_calls.
      unfold setupScrollListener, startAnimationLoop, requestAnimationFrame,
        updateScrollPosition, lazyLoadNearbyFrames.
      fields. exact Hp3.
    + rewrite call_calls. fields. exact Hp3.
  - rewrite call_calls. fields. rewrite Ep. apply picture_nil.
Qed.

(** X4.  With at least two frames, the canvas never shows anything but a
    well-formed picture: it is empty, or holds exactly one frame drawn
    opaque, at most one more frame blended over it in the same rectangle
    at an opacity strictly between 0.01 and 1, the green wash at an
    intensity between 0.03 and 0.05, and the centre glow; this holds when
    [init] is over and after every event of a session. *)
Theorem canvas_shows_picture
        (o : Options) (b : Browser) (order : list Z) (es : list Event) :
  (2 <= totalFrames (config (init b order (construct o))))%Z ->
  picture (painted (init b order (construct o)))
  /\ picture (painted (run es (init b order (construct o)))).
Proof.
  intros HT.
  pose proof (picture_init b order o HT) as Hp.
  split; [exact Hp |].
  apply picture_run; [exact HT | | exact Hp].
  unfold in_range.
  rewrite (proj1 (init_keeps b order (construct o))).
  pose proof (lastFrame_pos _ HT). cbn [currentFrame construct]. lra.
Qed.

Lemma canvas_shows_picture_witness :
  picture (painted (init (Examples.browser (Examples.viewport 1024 0) Examples.allFrames)
                         [] (construct Examples.noOptions)))
  /\ picture (painted
       (run [Scrolled (Examples.viewport 1024 400);
             AnimationFrame (Examples.viewport 1024 400) 16;
             Resized (Examples.viewport 800 400)]
            (init (Examples.browser (Examples.viewport 1024 0) Examples.allFrames)
                  [] (construct Examples.noOptions)))).
Proof.
  apply (canvas_shows_picture Examples.noOptions
           (Examples.browser (Examples.viewport 1024 0) Examples.allFrames) []).
  vm_compute. discriminate.
Defined.

(** On a paused player an event that happens by itself leaves the canvas,
    the playback position and the velocity alone, and the player paused. *)
Lemma paused_handle (e : Event) (s : Scroller) :
  passive e -> animationFrameId s = None ->
  animationFrameId (handle e s) = None
  /\ painted (handle e s) = painted s
  /\ currentFrame (handle e s) = currentFrame s
  /\ velocity (handle e s) = velocity s.
Proof.
  intros He Hs. destruct e; cbn [passive handle] in *; try contradiction.
  - rewrite Hs. now repeat split.
  - unfold updateScrollPosition, lazyLoadNearbyFrames. fields. now repeat split.
  - unfold imageSettled. destruct (includes (inflight s) index); [| now repeat split].
    pose proof (loader_writes_keeps _ _
                  (loader_writes_settleImage b index
                     (set_inflight (remove_first index (inflight s)) s)))
      as (_ & _ & Hc & _ & Hv & _ & _ & Ha & _).
    rewrite painted_settleImage, Hc, Hv, Ha. now repeat split.
Qed.

(** X5.  While the player is paused the canvas and the playback position
    are frozen: frame callbacks, scroll events and settling image requests
    change neither what the canvas shows nor [currentFrame] nor the
    velocity, and the player stays paused. *)
Theorem paused_canvas_frozen (es : list Event) (s : Scroller) :
  Forall passive es ->
  animationFrameId (run es (pause s)) = None
  /\ painted (run es (pause s)) = painted s
  /\ currentFrame (run es (pause s)) = currentFrame s
  /\ velocity (run es (pause s)) = velocity s.
Proof.
  intros Hes.
  assert (animationFrameId (pause s) = None /\ painted (pause s) = painted s
          /\ currentFrame (pause s) = currentFrame s
          /\ velocity (pause s) = velocity s) as H
    by (unfold pause; destruct (animationFrameId s) eqn:E; now repeat split).
  revert H. generalize (pause s) as s'.
  induction Hes as [| e es He _ IH]; intros s' (Ha & Hp & Hc & Hv);
    [now repeat split |].
  cbn [run fold_left]. apply IH.
  destruct (paused_handle e s' He Ha) as (Ha' & Hp' & Hc' & Hv').
  repeat split; congruence.
Qed.

Lemma paused_canvas_frozen_witness :
  let s := init (Examples.browser (Examples.viewport 1024 0) Examples.allFrames)
                [] (construct Examples.noOptions) in
  let es := [Scrolled (Examples.viewport 1024 400);
             AnimationFrame (Examples.viewport 1024 400) 16] in
  animationFrameId (run es (pause s)) = None
  /\ painted (run es (pause s)) = painted s
  /\ currentFrame (run es (pause s)) = currentFrame s
  /\ velocity (run es (pause s)) = velocity s.
Proof.
  apply (paused_canvas_frozen
           [Scrolled (Examples.viewport 1024 400);
            AnimationFrame (Examples.viewport 1024 400) 16]).
  repeat constructor.
Defined.

Lemma destroyed_handle (e : Event) (s : Scroller) :
  ctx s = false -> ctx (handle e s) = false /\ painted (handle e s) = painted s.
Proof.
  intros Hs.
  assert (forall w x s', ctx s' = false -> drawFrameWithBlending w x s' = s') as Hd
    by (intros w x s' H; unfold drawFrameWithBlending; now rewrite H).
  destruct e; cbn [handle].
  - destruct (animationFrameId s); [| now split].
    unfold animate, requestAnimationFrame.
    match goal with |- context [drawFrameWithBlending w (currentFrame ?S) ?S] =>
      set (s' := S) end.
    assert (ctx s' = false /\ painted s' = painted s) as [Ec Ep].
    { subst s'. unfold adaptiveSmoothness, lastFrame.
      destruct (truthy (lastFrameTime s)); fields;
        match goal with |- context [if Qltb (Math_abs ?v) ?c then _ else _] =>
          destruct (Qltb (Math_abs v) c) end; now split. }
    rewrite Hd by exact Ec. fields. now split.
  - unfold updateScrollPosition, lazyLoadNearbyFrames. fields. now split.
  - unfold resizeCanvas. rewrite Hs. now split.
  - unfold imageSettled. destruct (includes (inflight s) index); [| now split].
    pose proof (loader_writes_keeps _ _
                  (loader_writes_settleImage b index
                     (set_inflight (remove_first index (inflight s)) s)))
      as (_ & Hc & _).
    rewrite painted_settleImage, Hc. now split.
  - unfold jumpToFrame, drawFrame. rewrite Hd by (fields; exact Hs). fields. now split.
  - unfold jumpToProgress, jumpToFrame, drawFrame.
    rewrite Hd by (fields; exact Hs). fields. now split.
  - unfold pause. destruct (animationFrameId s); now split.
  - unfold resume, startAnimationLoop, requestAnimationFrame.
    destruct (animationFrameId s); now split.
  - unfold destroy. fields. rewrite Hs. now split.
Qed.

(** X6.  [destroy] is final for the canvas: it empties the image store and
    blanks the canvas, and nothing that happens afterwards (frame
    callbacks, scrolling, resizing, images that finish loading, jumps,
    resume) paints on it again. *)
Theorem destroyed_canvas_stays_blank (es : list Event) (s : Scroller) :
  ctx s = true ->
  images (destroy s) = ∅ /\ loadedImages (destroy s) = ∅
  /\ painted (destroy s) = []
  /\ ctx (run es (destroy s)) = false
  /\ painted (run es (destroy s)) = [].
Proof.
  intros Hs.
  assert (images (destroy s) = ∅ /\ loadedImages (destroy s) = ∅
          /\ ctx (destroy s) = false /\ painted (destroy s) = [])
    as (Hi & Hl & H)
    by (unfold destroy; fields; rewrite Hs; now repeat split).
  split; [exact Hi |]. split; [exact Hl |]. split; [apply H |].
  revert H. clear Hi Hl. generalize (destroy s) as s'.
  induction es as [| e es IH]; intros s' [Hc Hp]; [now split |].
  cbn [run fold_left]. apply IH.
  destruct (destroyed_handle e s' Hc) as [Hc' Hp']. split; congruence.
Qed.

Lemma destroyed_canvas_stays_blank_witness :
  let s := init (Examples.browser (Examples.viewport 1024 0) Examples.allFrames)
                [] (construct Examples.noOptions) in
  let es := [Resume; Resized (Examples.viewport 800 0);
             JumpToFrame (Examples.viewport 800 0) 3] in
  images (destroy s) = ∅ /\ loadedImages (destroy s) = ∅
  /\ painted (destroy s) = []
  /\ ctx (run es (destroy s)) = false
  /\ painted (run es (destroy s)) = [].
Proof.
  apply (destroyed_canvas_stays_blank
           [Resume; Resized (Examples.viewport 800 0);
            JumpToFrame (Examples.viewport 800 0) 3]).
  vm_compute. reflexivity.
Defined.
End Painting.

(** ** ForestScroller: progress and metrics *)

Module Progress.
Import JS JSFacts ForestScroller Footprint Loading Playback ScrollMapping
       Initialisation Navigation Painting.
Local Open Scope Q_scope.

Lemma currentFrame_jumpToFrame (w : Window) (x : Q) (s : Scroller) :
  currentFrame (jumpToFrame w x s) = Math_max 0 (Math_min x (lastFrame s))
  /\ targetFrame (jumpToFrame w x s) = Math_max 0 (Math_min x (lastFrame s)).
Proof.
  unfold jumpToFrame, drawFrame. rewrite drawFrameWithBlending_paints. now split.
Qed.

Lemma getProgress_jumpToFrame (w : Window) (x : Q) (s : Scroller) :
  getProgress (jumpToFrame w x s)
  = Math_max 0 (Math_min x (lastFrame s)) / lastFrame s.
Proof.
  unfold getProgress.
  now rewrite lastFrame_jumpToFrame, (proj1 (currentFrame_jumpToFrame w x s)).
Qed.

(** X7.  [jumpToProgress] and [getProgress] are inverse to each other on
    the percentages from 0 to 100: with at least two frames, after
    [jumpToProgress(p)] the progress reported is [p / 100]; a percentage
    below 0 gives progress 0 and one above 100 gives progress 1. *)
Theorem jumpToProgress_getProgress (w : Window) (p : Q) (s : Scroller) :
  (2 <= totalFrames (config s))%Z ->
  (0 <= p -> p <= 100 -> getProgress (jumpToProgress w p s) == p / 100)
  /\ (p < 0 -> getProgress (jumpToProgress w p s) == 0)
  /\ (100 < p -> getProgress (jumpToProgress w p s) == 1).
Proof.
  intros HT. pose proof (lastFrame_pos s HT) as HL.
  unfold jumpToProgress. rewrite getProgress_jumpToFrame.
  set (l := lastFrame s) in *.
  assert (p / 100 == p * (1 # 100)) as Ep by field.
  split; [| split].
  - intros H0 H1. rewrite clamp_inside.
    + field. lra.
    + rewrite Ep. nra.
    + rewrite Ep. nra.
  - intros H.
    destruct (Math_max_spec 0 (Math_min (p / 100 * l) l)) as [[H2 E] | [H2 E]];
      destruct (Math_min_spec (p / 100 * l) l) as [[H3 E'] | [H3 E']];
      rewrite E' in *; rewrite E; try (field; lra); rewrite Ep in *; nra.
  - intros H.
    destruct (Math_max_spec 0 (Math_min (p / 100 * l) l)) as [[H2 E] | [H2 E]];
      destruct (Math_min_spec (p / 100 * l) l) as [[H3 E'] | [H3 E']];
      rewrite E' in *; rewrite E; try (field; lra); rewrite Ep in *; nra.
Qed.

Lemma jumpToProgress_getProgress_witness :
  let s := construct Examples.noOptions in
  let w := Examples.viewport 1024 0 in
  (0 <= 25 -> 25 <= 100 -> getProgress (jumpToProgress w 25 s) == 25 / 100)
  /\ (25 < 0 -> getProgress (jumpToProgress w 25 s) == 0)
  /\ (100 < 25 -> getProgress (jumpToProgress w 25 s) == 1).
Proof.
  apply (jumpToProgress_getProgress (Examples.viewport 1024 0) 25
           (construct Examples.noOptions)).
  vm_compute. discriminate.
Defined.

(** X8.  What [getProgress] and [getMetrics] report at any time of a
    session that started with at least two frames: a progress between 0
    and 1, and as [currentFrame] the index of a frame of the sequence (a
    whole number from 0 to [totalFrames - 1]). *)
Theorem metrics_in_range
        (o : Options) (b : Browser) (order : list Z) (es : list Event) :
  (2 <= totalFrames (config (init b order (construct o))))%Z ->
  let s := run es (init b order (construct o)) in
  0 <= getProgress s /\ getProgress s <= 1
  /\ m_progress (getMetrics s) = getProgress s
  /\ exists k : Z,
       m_currentFrame (getMetrics s) = inject_Z k
       /\ (0 <= k < m_totalFrames (getMetrics s))%Z.
Proof.
  intros HT s.
  assert (in_range s) as [R0 R1].
  { apply in_range_run; [lia |].
    unfold in_range. rewrite (proj1 (init_keeps b order (construct o))).
    pose proof (lastFrame_pos _ HT). cbn [currentFrame construct]. lra. }
  assert (config s = config (init b order (construct o))) as Ec
    by apply config_run.
  assert (1 <= lastFrame s) as HL by (apply lastFrame_pos; now rewrite Ec).
  unfold getProgress.
  split; [apply Qle_shift_div_l; lra |].
  split; [apply Qle_shift_div_r; lra |].
  split; [reflexivity |].
  exists (Qfloor (currentFrame s)). split; [reflexivity |].
  cbn [getMetrics m_totalFrames].
  unfold lastFrame in R1.
  apply (Qfloor_resp_le 0) in R0. apply Qfloor_resp_le in R1.
  rewrite Qfloor_Z in R1. change (Qfloor 0) with 0%Z in R0. lia.
Qed.

Lemma metrics_in_range_witness :
  let s := run [Scrolled (Examples.viewport 1024 400);
                AnimationFrame (Examples.viewport 1024 400) 16]
               (init (Examples.browser (Examples.viewport 1024 0) Examples.allFrames)
                     [] (construct Examples.noOptions)) in
  0 <= getProgress s /\ getProgress s <= 1
  /\ m_progress (getMetrics s) = getProgress s
  /\ exists k : Z,
       m_currentFrame (getMetrics s) = inject_Z k
       /\ (0 <= k < m_totalFrames (getMetrics s))%Z.
Proof.
  apply (metrics_in_range Examples.noOptions
           (Examples.browser (Examples.viewport 1024 0) Examples.allFrames) []
           [Scrolled (Examples.viewport 1024 400);
            AnimationFrame (Examples.viewport 1024 400) 16]).
  vm_compute. discriminate.
Defined.

(** X9.  [lerp] interpolates: it gives [start] at factor 0 and [end] at
    factor 1, stays between the two for a factor in [0, 1], and does not
    clamp: for a factor above 1 it goes beyond [end]. *)
Theorem lerp_interpolates (start end_ factor : Q) :
  lerp start end_ 0 == start
  /\ lerp start end_ 1 == end_
  /\ (0 <= factor -> factor <= 1 ->
      Math_min start end_ <= lerp start end_ factor
      /\ lerp start end_ factor <= Math_max start end_)
  /\ (1 < factor -> start < end_ -> end_ < lerp start end_ factor).
Proof.
  unfold lerp. split; [ring |]. split; [ring |]. split.
  - intros H0 H1.
    destruct (Math_min_spec start end_) as [[H ->] | [H ->]];
      destruct (Math_max_spec start end_) as [[H' ->] | [H' ->]]; split; nra.
  - intros H1 H. nra.
Qed.

Lemma lerp_interpolates_witness :
  lerp 10 20 0 == 10
  /\ lerp 10 20 1 == 20
  /\ (0 <= 3 # 2 -> 3 # 2 <= 1 ->
      Math_min 10 20 <= lerp 10 20 (3 # 2) /\ lerp 10 20 (3 # 2) <= Math_max 10 20)
  /\ (1 < 3 # 2 -> 10 < 20 -> 20 < lerp 10 20 (3 # 2)).
Proof. apply (lerp_interpolates 10 20 (3 # 2)). Defined.
End Progress.

(** ** ForestScroller: the requests made while scrolling *)

Module Requests.
Import JS JSFacts ForestScroller Footprint Loading Playback ScrollMapping
       Initialisation Preload.
Local Open Scope Z_scope.

Lemma In_nearbyFrames (k : Z) (s : Scroller) (j : Z) :
  In j (nearbyFrames k s)
  <-> k <= j < k + preloadCount (config s) /\ j < totalFrames (config s).
Proof.
  unfold nearbyFrames. rewrite in_map_iff. split.
  - intros (n & <- & Hn). apply in_seq in Hn. lia.
  - intros H. exists (Z.to_nat (j - k)). split; [lia |]. apply in_seq. lia.
Qed.

Lemma NoDup_nearbyFrames (k : Z) (s : Scroller) : NoDup (nearbyFrames k s).
Proof.
  unfold nearbyFrames.
  match goal with |- NoDup (map ?f ?l) => change (NoDup (f <$> l)) end.
  apply NoDup_fmap_2; [intros x y H; lia | apply NoDup_seq].
Qed.

Lemma length_nearbyFrames (k : Z) (s : Scroller) :
  0 <= preloadCount (config s) ->
  (length (nearbyFrames k s) <= Z.to_nat (preloadCount (config s)))%nat.
Proof.
  intros H. unfold nearbyFrames. rewrite length_map, length_seq. lia.
Qed.

(** The frame a scroll position maps to is a frame of the sequence. *)
Lemma floor_targetFrame (w : Window) (s : Scroller) :
  1 <= totalFrames (config s) ->
  0 <= Qfloor (targetFrame (updateScrollPosition w s)) < totalFrames (config s).
Proof.
  intros HT. rewrite targetFrame_updateScrollPosition.
  destruct (scrollProgress_range w) as [P0 P1].
  destruct (easeInOutCubic_range _ P0 P1) as [E0 E1].
  pose proof (lastFrame_nonneg s HT) as HL.
  set (e := easeInOutCubic (scrollProgress w)) in *.
  assert (0 <= e * lastFrame s)%Q as H0 by nra.
  assert (e * lastFrame s <= lastFrame s)%Q as H1 by nra.
  apply (Qfloor_resp_le 0) in H0. apply Qfloor_resp_le in H1.
  unfold lastFrame in H1 at 2. rewrite Qfloor_Z in H1.
  change (Qfloor 0) with 0 in H0. lia.
Qed.

Lemma inflight_updateScrollPosition (w : Window) (s : Scroller) :
  inflight (updateScrollPosition w s)
  = inflight s
    ++ filter (fun i => negb (bool_decide (i ∈ loadedImages s)))
              (nearbyFrames (Qfloor (targetFrame (updateScrollPosition w s))) s).
Proof. reflexivity. Qed.

(** X10.  What a scroll update requests: the new target frame lies in the
    sequence, and the only requests issued are for frames of the sequence
    that are not loaded yet, among the [preloadCount] frames that start at
    the frame under the new target; no frame is requested twice by the
    same update. *)
Theorem scroll_requests_nearby_frames (w : Window) (s : Scroller) :
  1 <= totalFrames (config s) ->
  let s' := updateScrollPosition w s in
  let first := Qfloor (targetFrame s') in
  0 <= first < totalFrames (config s)
  /\ exists wanted,
       inflight s' = inflight s ++ wanted
       /\ NoDup wanted
       /\ (forall j, In j wanted <->
                     first <= j < first + preloadCount (config s)
                     /\ j < totalFrames (config s)
                     /\ j ∉ loadedImages s)
       /\ (0 <= preloadCount (config s) ->
           (length wanted <= Z.to_nat (preloadCount (config s)))%nat).
Proof.
  intros HT s' first. split; [now apply floor_targetFrame |].
  eexists. split; [apply inflight_updateScrollPosition |].
  fold s'. fold first. split; [| split].
  - apply NoDup_filter, NoDup_nearbyFrames.
  - intros j. rewrite <- list_elem_of_In, list_elem_of_filter, list_elem_of_In.
    rewrite In_nearbyFrames.
    rewrite Is_true_true, negb_true_iff, bool_decide_eq_false. tauto.
  - intros Hp.
    etransitivity; [apply length_filter | now apply length_nearbyFrames].
Qed.

Lemma scroll_requests_nearby_frames_witness :
  let s := construct Examples.noOptions in
  let s' := updateScrollPosition (Examples.viewport 1024 500) s in
  let first := Qfloor (targetFrame s') in
  0 <= first < totalFrames (config s)
  /\ exists wanted,
       inflight s' = inflight s ++ wanted
       /\ NoDup wanted
       /\ (forall j, In j wanted <->
                     first <= j < first + preloadCount (config s)
                     /\ j < totalFrames (config s)
                     /\ j ∉ loadedImages s)
       /\ (0 <= preloadCount (config s) ->
           (length wanted <= Z.to_nat (preloadCount (config s)))%nat).
Proof.
  apply (scroll_requests_nearby_frames (Examples.viewport 1024 500)
           (construct Examples.noOptions)).
  vm_compute. discriminate.
Defined.

(** Nothing is requested when every frame is stored. *)
Lemma updateScrollPosition_allLoaded (w : Window) (s : Scroller) :
  1 <= totalFrames (config s) -> allLoaded s ->
  inflight (updateScrollPosition w s) = [].
Proof.
  intros HT [Hi Hall]. rewrite inflight_updateScrollPosition, Hi. cbn [app].
  pose proof (floor_targetFrame w s HT) as Hf.
  set (k := Qfloor _) in *. clearbody k.
  assert (Forall (fun j => j ∈ loadedImages s) (nearbyFrames k s)) as HF.
  { apply Forall_forall. intros j Hj. apply list_elem_of_In, In_nearbyFrames in Hj.
    apply Hall. lia. }
  induction HF as [| j l Hj _ IH]; [reflexivity |].
  rewrite filter_cons. rewrite decide_False; [exact IH |].
  rewrite Is_true_true, negb_true_iff, bool_decide_eq_false. tauto.
Qed.

Lemma allLoaded_handle (e : Event) (s : Scroller) :
  1 <= totalFrames (config s) -> keepsImages e -> allLoaded s ->
  allLoaded (handle e s) /\ loadedCount (handle e s) = loadedCount s.
Proof.
  intros HT He Hs.
  assert (forall s', config s' = config s -> inflight s' = inflight s ->
                     loadedImages s' = loadedImages s -> allLoaded s') as Hext.
  { intros s' Ec Ei El. destruct Hs as [Hi Hall]. split; [congruence |].
    intros i Hi'. rewrite El. apply Hall. now rewrite <- Ec. }
  destruct e; cbn [handle keepsImages] in *; try contradiction.
  - destruct (animationFrameId s); [| now split].
    unfold animate, requestAnimationFrame.
    rewrite drawFrameWithBlending_paints.
    unfold adaptiveSmoothness, lastFrame.
    destruct (truthy (lastFrameTime s)); fields;
      match goal with |- context [if Qltb (Math_abs ?v) ?c then _ else _] =>
        destruct (Qltb (Math_abs v) c) end;
      (split; [now apply Hext | reflexivity]).
  - split; [| reflexivity]. split.
    + now apply updateScrollPosition_allLoaded.
    + apply Hs.
  - rewrite resizeCanvas_paints. split; [now apply Hext | reflexivity].
  - unfold imageSettled. destruct Hs as [Hi Hall]. rewrite Hi. cbn. now split.
  - unfold jumpToFrame, drawFrame. rewrite drawFrameWithBlending_paints.
    split; [now apply Hext | reflexivity].
  - unfold jumpToProgress, jumpToFrame, drawFrame.
    rewrite drawFrameWithBlending_paints.
    split; [now apply Hext | reflexivity].
  - unfold pause. destruct (animationFrameId s); (split; [now apply Hext | reflexivity]).
  - unfold resume, startAnimationLoop, requestAnimationFrame.
    destruct (animationFrameId s); (split; [now apply Hext | reflexivity]).
Qed.

Lemma allLoaded_run (es : list Event) (s : Scroller) :
  1 <= totalFrames (config s) -> Forall keepsImages es -> allLoaded s ->
  allLoaded (run es s) /\ loadedCount (run es s) = loadedCount s.
Proof.
  intros HT Hes. revert s HT.
  induction Hes as [| e es He _ IH]; intros s HT Hs; [now split |].
  cbn [run fold_left].
  destruct (allLoaded_handle e s HT He Hs) as [Hs' Hc'].
  destruct (IH (handle e s)) as [H1 H2]; [now rewrite config_handle | exact Hs' |].
  split; [exact H1 | rewrite <- Hc'; exact H2].
Qed.

Section Ready.
Variable o : Options.
Variable b : Browser.
Variable order : list Z.

Let s1 : Scroller := checkWebPSupport b (detectDevice (window b) (construct o)).

Hypothesis canvas_found : canvasFound (window b) = true.
Hypothesis some_frames : 1 <= totalFrames (config s1).
Hypothesis order_requests : Permutation order (remainingFrames s1).
Hypothesis all_available :
  forall i, 0 <= i < totalFrames (config s1) -> available b s1 i = true.

Lemma config_init : config (init b order (construct o)) = config s1.
Proof. apply (init_keeps b order (construct o)). Qed.

Lemma allLoaded_init :
  allLoaded (init b order (construct o))
  /\ loadedCount (init b order (construct o)) = totalFrames (config s1).
Proof.
  destruct (init_post o b order canvas_found some_frames order_requests)
    as ([Hcount _] & Hnd & Hfresh & [(_ & _ & _ & _ & Hall) | ((k & Hk & Hbad & _) & _)]).
  2: { fold s1 in Hk, Hbad. rewrite all_available in Hbad by exact Hk. discriminate. }
  fold s1 in Hall.
  assert (forall j, In j (inflight (init b order (construct o))) ->
                    0 <= j < totalFrames (config s1)) as Hfr.
  { rewrite (init_preload b order o canvas_found). cbv zeta. fold s1.
    pose proof (loader_writes_keeps _ _
                  (loader_writes_preloadImages b order (set_painted [] (set_ctx true s1))))
      as (Hk & _ & _ & _ & _ & _ & _ & Hraf3 & Hinf & _).
    destruct (before_preload b o) as (_ & _ & _ & _ & Hi1 & Hr1 & _).
    cbv zeta in Hi1, Hr1. fold s1 in Hi1, Hr1.
    assert (forall s e, animationFrameId (initFailed e s) = animationFrameId s) as HiF
      by (intros s e; unfold initFailed; now rewrite call_calls).
    pose proof (init_post o b order canvas_found some_frames order_requests)
      as (_ & _ & _ & Hpost).
    rewrite (init_preload b order o canvas_found) in Hpost. cbv zeta in Hpost.
    fold s1 in Hpost.
    destruct (preloadImages b order _) as [[s3 [| e]] pending]; cbn [fst] in *.
    - rewrite call_calls. unfold startAnimationLoop, requestAnimationFrame,
        setupScrollListener. fields.
      rewrite inflight_updateScrollPosition, Hinf. fields. rewrite Hi1. cbn [app].
      intros j Hj. apply list_elem_of_In, list_elem_of_filter in Hj as [_ Hj].
      apply list_elem_of_In, In_nearbyFrames in Hj.
      pose proof (floor_targetFrame (window b) s3) as Hf.
      rewrite Hk in Hf, Hj. fields. specialize (Hf some_frames). lia.
    - exfalso.
      destruct Hpost as [(_ & _ & Hraf & _) | ((k & Hk' & Hbad & _) & _)].
      + apply Hraf. rewrite HiF. fields. rewrite Hraf3. exact Hr1.
      + fold s1 in Hk', Hbad. rewrite all_available in Hbad by exact Hk'. discriminate. }
  unfold allLoaded. rewrite config_init. split; [split |].
  - destruct (inflight (init b order (construct o))) as [| j l] eqn:E; [reflexivity |].
    exfalso. apply (Hfresh j); [now left |]. apply Hall, Hfr. now left.
  - intros i Hi. now apply Hall.
  - rewrite Hcount. apply size_all_frames; [lia | exact Hall].
Qed.
End Ready.

(** X11.  Once [init] has succeeded the lazy loader has nothing left to do:
    when the canvas exists and every frame loads, then after [init] and
    after any session in which the player is not destroyed, every frame
    of the sequence is stored, no request is in flight (scrolling issues
    none), and the load counter equals [totalFrames]. *)
Theorem ready_player_requests_nothing
        (o : Options) (b : Browser) (order : list Z) (es : list Event) :
  canvasFound (window b) = true ->
  1 <= totalFrames (config (checkWebPSupport b (detectDevice (window b) (construct o)))) ->
  Permutation order
    (remainingFrames (checkWebPSupport b (detectDevice (window b) (construct o)))) ->
  (forall i,
      0 <= i < totalFrames
                 (config (checkWebPSupport b (detectDevice (window b) (construct o)))) ->
      available b (checkWebPSupport b (detectDevice (window b) (construct o))) i = true) ->
  Forall keepsImages es ->
  let s := run es (init b order (construct o)) in
  inflight s = []
  /\ (forall i, 0 <= i < totalFrames (config s) -> i ∈ loadedImages s)
  /\ loadedCount s = totalFrames (config s).
Proof.
  intros Hcanvas HT Hperm Hav Hes s.
  destruct (allLoaded_init o b order Hcanvas HT Hperm Hav) as [H0 Hc0].
  pose proof (config_init o b order) as Ec.
  destruct (allLoaded_run es (init b order (construct o))) as [[Hi Hall] Hc];
    [now rewrite Ec | exact Hes | exact H0 |].
  subst s. split; [exact Hi |]. split; [exact Hall |].
  rewrite Hc, Hc0, config_run, Ec. reflexivity.
Qed.

Lemma ready_player_requests_nothing_witness :
  let o := Examples.options 5 0.1 in
  let b := Examples.browser (Examples.viewport 1024 0) Examples.allFrames in
  let s := run [Scrolled (Examples.viewport 1024 500);
                AnimationFrame (Examples.viewport 1024 500) 16]
               (init b (Examples.requestOrder o b) (construct o)) in
  inflight s = []
  /\ (forall i, 0 <= i < totalFrames (config s) -> i ∈ loadedImages s)
  /\ loadedCount s = totalFrames (config s).
Proof.
  cbv zeta.
  apply (ready_player_requests_nothing
           (Examples.options 5 0.1)
           (Examples.browser (Examples.viewport 1024 0) Examples.allFrames)
           (Examples.requestOrder (Examples.options 5 0.1)
              (Examples.browser (Examples.viewport 1024 0) Examples.allFrames))
           [Scrolled (Examples.viewport 1024 500);
            AnimationFrame (Examples.viewport 1024 500) 16]).
  - reflexivity.
  - vm_compute. discriminate.
  - apply Permutation_refl.
  - intros i _. vm_compute. reflexivity.
  - repeat constructor.
Defined.

(** Every request in flight settles, each one counting. *)
Lemma loadedCount_settleAll (b : Browser) (pending : list Z) (s : Scroller) :
  inflight s = pending ->
  (forall j, In j pending -> available b s j = true) ->
  loadedCount (settleAll b pending s) = loadedCount s + Z.of_nat (length pending)
  /\ (forall j, In j pending -> j ∈ loadedImages (settleAll b pending s))
  /\ (forall j, j ∈ loadedImages s -> j ∈ loadedImages (settleAll b pending s)).
Proof.
  revert s. induction pending as [| i rest IH]; intros s Hi Hav.
  - cbn [settleAll length]. split; [lia |]. split; [intros j [] | tauto].
  - cbn [settleAll handle]. unfold imageSettled. rewrite Hi.
    cbn [includes existsb remove_first]. rewrite Z.eqb_refl. cbn [orb].
    set (s0 := set_inflight rest s).
    pose proof (Hav i (or_introl eq_refl)) as Hai. unfold available in Hai.
    change (config s) with (config s0) in Hai.
    unfold settleImage.
    destruct (fetch b (imageFormat (config s0)) i) as [img |]; [| discriminate].
    cbn [fst]. unfold img_onload. rewrite updateProgress_calls.
    match goal with |- context [settleAll b rest ?S] => set (s' := S) end.
    destruct (IH s') as (Hc & Hin & Hmono).
    + reflexivity.
    + intros j Hj. apply (Hav j). now right.
    + split; [| split].
      * rewrite Hc. subst s' s0. fields. cbn [length]. lia.
      * intros j [<- | Hj]; [| now apply Hin].
        apply Hmono. subst s' s0. fields.
        apply elem_of_union_l, elem_of_singleton. reflexivity.
      * intros j Hj. apply Hmono. subst s' s0. fields.
        now apply elem_of_union_r.
Qed.

(** X12.  [destroy] removes neither the scroll listener nor the load
    counter: when a destroyed player that could load at least one frame
    ahead sees a scroll update, it requests the frames under the new
    target again, and when those requests settle the images are stored
    and counted on top of the frames counted before: the counter grows by
    the number of requests. *)
Theorem destroyed_player_loads_again (b : Browser) (w : Window) (s : Scroller) :
  1 <= totalFrames (config s) -> 1 <= preloadCount (config s) ->
  inflight s = [] ->
  (forall i, 0 <= i < totalFrames (config s) -> available b s i = true) ->
  let requested := inflight (run [Destroy; Scrolled w] s) in
  let s' := drain b (run [Destroy; Scrolled w] s) in
  requested <> []
  /\ (forall j, In j requested -> 0 <= j < totalFrames (config s))
  /\ (forall j, In j requested -> j ∈ loadedImages s')
  /\ loadedCount s' = loadedCount s + Z.of_nat (length requested)
  /\ loadedCount s < loadedCount s'.
Proof.
  intros HT Hp Hi Hav. cbn [run fold_left handle]. cbv zeta.
  assert (config (destroy s) = config s /\ inflight (destroy s) = []
          /\ loadedImages (destroy s) = ∅ /\ loadedCount (destroy s) = loadedCount s)
    as (Ec & Ei & El & En)
    by (unfold destroy; fields; destruct (ctx s); now repeat split).
  set (d := destroy s) in *. clearbody d.
  pose proof (floor_targetFrame w d ltac:(now rewrite Ec)) as Hf.
  pose proof (inflight_updateScrollPosition w d) as Hreq.
  rewrite Ei in Hreq. cbn [app] in Hreq.
  assert (forall j, In j (inflight (updateScrollPosition w d)) <->
                    In j (nearbyFrames (Qfloor (targetFrame (updateScrollPosition w d))) d))
    as Hall.
  { intros j. rewrite Hreq, <- !list_elem_of_In, list_elem_of_filter.
    rewrite El, Is_true_true, negb_true_iff, bool_decide_eq_false.
    split; [tauto |]. intros H. split; [apply not_elem_of_empty | exact H]. }
  set (u := updateScrollPosition w d) in *.
  assert (config u = config s /\ loadedCount u = loadedCount s) as [Ecu Enu].
  { subst u. unfold updateScrollPosition, lazyLoadNearbyFrames. fields. now split. }
  assert (forall j, In j (inflight u) -> 0 <= j < totalFrames (config s)) as Hfr.
  { intros j Hj. apply Hall, In_nearbyFrames in Hj. rewrite Ec in *. lia. }
  destruct (loadedCount_settleAll b (inflight u) u eq_refl) as (Hc & Hin & _).
  { intros j Hj. unfold available. rewrite Ecu. now apply Hav, Hfr. }
  assert (In (Qfloor (targetFrame u)) (inflight u)) as Hne.
  { apply Hall, In_nearbyFrames. rewrite Ec in *. lia. }
  unfold drain. split; [| split; [| split; [| split]]].
  - intros E. rewrite E in Hne. exact Hne.
  - exact Hfr.
  - exact Hin.
  - rewrite Hc, Enu. reflexivity.
  - rewrite Hc, Enu. destruct (inflight u); [contradiction | cbn [length]; lia].
Qed.

Lemma destroyed_player_loads_again_witness :
  let o := Examples.options 5 0.1 in
  let b := Examples.browser (Examples.viewport 1024 0) Examples.allFrames in
  let s := init b (Examples.requestOrder o b) (construct o) in
  let requested := inflight (run [Destroy; Scrolled (Examples.viewport 1024 0)] s) in
  let s' := drain b (run [Destroy; Scrolled (Examples.viewport 1024 0)] s) in
  requested <> []
  /\ (forall j, In j requested -> 0 <= j < totalFrames (config s))
  /\ (forall j, In j requested -> j ∈ loadedImages s')
  /\ loadedCount s' = loadedCount s + Z.of_nat (length requested)
  /\ loadedCount s < loadedCount s'.
Proof.
  cbv zeta.
  apply (destroyed_player_loads_again
           (Examples.browser (Examples.viewport 1024 0) Examples.allFrames)
           (Examples.viewport 1024 0)
           (init (Examples.browser (Examples.viewport 1024 0) Examples.allFrames)
                 (Examples.requestOrder (Examples.options 5 0.1)
                    (Examples.browser (Examples.viewport 1024 0) Examples.allFrames))
                 (construct (Examples.options 5 0.1)))).
  - vm_compute. discriminate.
  - vm_compute. discriminate.
  - vm_compute. reflexivity.
  - intros i _. vm_compute. reflexivity.
Defined.
End Requests.

(** ** ForestScroller: the scroll listener *)

Module Listener.
Import JS JSFacts ForestScroller Footprint.

Lemma listening_step (e : ScrollStep) (l : Listening) :
  (ticking l = true /\ requested l = 1%nat) \/ (ticking l = false /\ requested l = 0%nat) ->
  (ticking (scrollStep e l) = true /\ requested (scrollStep e l) = 1%nat)
  \/ (ticking (scrollStep e l) = false /\ requested (scrollStep e l) = 0%nat).
Proof.
  intros [[Ht Hr] | [Ht Hr]]; destruct e; cbn [scrollStep];
    unfold handleScroll, scrollFrame; rewrite ?Ht, ?Hr; cbn; tauto.
Qed.

Lemma handleScroll_repeated (n : nat) (l : Listening) :
  ticking l = false -> requested l = 0%nat ->
  Nat.iter (S n) handleScroll l
  = {| scroller := scroller l; ticking := true; requested := 1 |}.
Proof.
  intros Ht Hr. induction n as [| n IH].
  - cbn. unfold handleScroll. now rewrite Ht, Hr.
  - change (Nat.iter (S (S n)) handleScroll l)
      with (handleScroll (Nat.iter (S n) handleScroll l)).
    rewrite IH. reflexivity.
Qed.

(** X13.  The scroll listener lets at most one frame callback be pending:
    whatever the interleaving of scroll events and frame callbacks, none
    or one callback is requested and [ticking] tells which; any number of
    scroll events before the next frame thus cost a single run of
    [updateScrollPosition], which reads the scroll position current at
    that frame. *)
Theorem scroll_events_coalesce
        (w0 w : Window) (s : Scroller) (es : list ScrollStep) (n : nat) :
  let l := fold_left (fun l e => scrollStep e l) es (listen w0 s) in
  (requested l <= 1)%nat
  /\ (ticking l = true <-> requested l = 1%nat)
  /\ scrollFrame w (Nat.iter (S n) handleScroll (listen w0 s))
     = {| scroller := updateScrollPosition w (updateScrollPosition w0 s);
          ticking := false; requested := 0 |}.
Proof.
  intros l.
  assert ((ticking l = true /\ requested l = 1%nat)
          \/ (ticking l = false /\ requested l = 0%nat)) as H.
  { subst l. generalize (listen w0 s) (or_intror (conj eq_refl eq_refl)
      : (ticking (listen w0 s) = true /\ requested (listen w0 s) = 1%nat)
        \/ (ticking (listen w0 s) = false /\ requested (listen w0 s) = 0%nat)).
    induction es as [| e es IH]; intros l0 H0; [exact H0 |].
    cbn [fold_left]. apply IH, listening_step, H0. }
  split; [| split].
  - destruct H as [[_ ->] | [_ ->]]; lia.
  - destruct H as [[-> ->] | [-> ->]]; split; congruence.
  - rewrite handleScroll_repeated by reflexivity. reflexivity.
Qed.
End Listener.

(** ** ForestScroller: invariants of the load bookkeeping *)

Module Sessions.
Import JS JSFacts ForestScroller Footprint Loading.
Local Open Scope Z_scope.

(** A property of the image store, the load counter and the callback trace
    that settling a request, reporting the end of [init] and [destroy]
    preserve holds when [init] is over and all along a session. *)
Section Invariant.
Variable P : Scroller -> Prop.

Hypothesis P_ext : forall s s',
  config s' = config s -> images s' = images s ->
  loadedImages s' = loadedImages s -> loadedCount s' = loadedCount s ->
  calls s' = calls s -> P s -> P s'.
Hypothesis P_settle : forall b i s, P s -> P (fst (settleImage b i s)).
Hypothesis P_call : forall c s,
  c = CallReady \/ (exists e, c = CallError e) ->
  P s -> P (set_calls (calls s ++ [c]) s).
Hypothesis P_destroy : forall s, P s -> P (set_loadedImages ∅ (set_images ∅ s)).

Lemma inv_draw (w : Window) (x : Q) (s : Scroller) :
  P s -> P (drawFrameWithBlending w x s).
Proof. rewrite drawFrameWithBlending_paints. now apply P_ext. Qed.

Lemma inv_loadInOrder (b : Browser) (frames : list Z) (s : Scroller) :
  P s -> P (fst (loadInOrder b frames s)).
Proof.
  revert s. induction frames as [| i rest IH]; intros s Hs; [exact Hs |].
  cbn [loadInOrder]. unfold loadImage.
  destruct (bool_decide _); [now apply IH |].
  pose proof (P_settle b i s Hs) as H.
  destruct (settleImage b i s) as [s' [| e]]; cbn [fst] in *; [now apply IH | exact H].
Qed.

Lemma inv_awaitAll (b : Browser) (order : list Z) (s : Scroller) :
  P s -> P (fst (fst (awaitAll b order s))).
Proof.
  revert s. induction order as [| i rest IH]; intros s Hs; [exact Hs |].
  cbn [awaitAll].
  pose proof (P_settle b i s Hs) as H.
  destruct (settleImage b i s) as [s' [| e]]; cbn [fst] in *; [now apply IH | exact H].
Qed.

Lemma inv_preloadImages (b : Browser) (order : list Z) (s : Scroller) :
  P s -> P (fst (fst (preloadImages b order s))).
Proof.
  intros Hs. unfold preloadImages.
  pose proof (inv_loadInOrder b (priorityFrames s) s Hs) as H.
  destruct (loadInOrder b (priorityFrames s) s) as [s' [| e]]; cbn [fst] in *;
    [| exact H].
  apply inv_awaitAll.
  destruct (images s' !! 0); [now apply inv_draw | exact H].
Qed.

Lemma inv_call (present : bool) (c : Call) (s : Scroller) :
  c = CallReady \/ (exists e, c = CallError e) -> P s -> P (call present c s).
Proof. intros Hc Hs. unfold call. destruct present; [now apply P_call | exact Hs]. Qed.

Lemma inv_init (b : Browser) (order : list Z) (s : Scroller) :
  P (checkWebPSupport b (detectDevice (window b) s)) -> P (init b order s).
Proof.
  unfold init. generalize (checkWebPSupport b (detectDevice (window b) s)) as s1.
  intros s1 H1. unfold setupCanvas, initFailed.
  destruct (canvasFound (window b)); cbn [negb].
  - assert (P (resizeCanvas (window b) (set_ctx true s1))) as H2
      by (rewrite resizeCanvas_paints; now apply (P_ext s1)).
    pose proof (inv_preloadImages b order _ H2) as H3.
    destruct (preloadImages b order _) as [[s3 [| e]] pending]; cbn [fst] in H3.
    + apply inv_call; [now left |].
      unfold setupScrollListener, startAnimationLoop, requestAnimationFrame,
        updateScrollPosition, lazyLoadNearbyFrames.
      now apply (P_ext s3).
    + apply inv_call; [right; eauto |]. now apply (P_ext s3).
  - apply inv_call; [right; eauto | exact H1].
Qed.

Lemma inv_handle (e : Event) (s : Scroller) : P s -> P (handle e s).
Proof.
  intros Hs. destruct e; cbn [handle].
  - destruct (animationFrameId s); [| exact Hs].
    unfold animate, requestAnimationFrame. rewrite drawFrameWithBlending_paints.
    unfold adaptiveSmoothness, lastFrame.
    destruct (truthy (lastFrameTime s)); fields;
      match goal with |- context [if Qltb (Math_abs ?v) ?c then _ else _] =>
        destruct (Qltb (Math_abs v) c) end; now apply (P_ext s).
  - now apply (P_ext s).
  - rewrite resizeCanvas_paints. now apply (P_ext s).
  - unfold imageSettled. destruct (includes (inflight s) index); [| exact Hs].
    apply P_settle. now apply (P_ext s).
  - unfold jumpToFrame, drawFrame. rewrite drawFrameWithBlending_paints.
    now apply (P_ext s).
  - unfold jumpToProgress, jumpToFrame, drawFrame.
    rewrite drawFrameWithBlending_paints. now apply (P_ext s).
  - unfold pause. destruct (animationFrameId s); [now apply (P_ext s) | exact Hs].
  - unfold resume, startAnimationLoop, requestAnimationFrame.
    destruct (animationFrameId s); [exact Hs | now apply (P_ext s)].
  - unfold destroy. apply (P_ext (set_loadedImages ∅ (set_images ∅ s)));
      try (fields; now destruct (ctx s)).
    now apply P_destroy.
Qed.

Lemma inv_run (es : list Event) (s : Scroller) : P s -> P (run es s).
Proof.
  revert s. induction es as [| e es IH]; intros s Hs; [exact Hs |].
  cbn [run fold_left]. apply IH, inv_handle, Hs.
Qed.
End Invariant.

Lemma before_loading (b : Browser) (o : Options) :
  let s1 := checkWebPSupport b (detectDevice (window b) (construct o)) in
  calls s1 = [] /\ loadedCount s1 = 0 /\ images s1 = ∅ /\ loadedImages s1 = ∅.
Proof.
  unfold checkWebPSupport, detectDevice. fields.
  destruct (decodesWebP b), (Qle_bool _ _); now repeat split.
Qed.
End Sessions.

(** ** ForestScroller: the image store *)

Module Store.
Import JS JSFacts ForestScroller Footprint Loading Sessions.
Local Open Scope Z_scope.

Lemma stored_ext (s s' : Scroller) :
  config s' = config s -> images s' = images s ->
  loadedImages s' = loadedImages s -> loadedCount s' = loadedCount s ->
  calls s' = calls s -> stored s -> stored s'.
Proof. unfold stored. intros _ -> -> _ _. tauto. Qed.

Lemma stored_settleImage (b : Browser) (i : Z) (s : Scroller) :
  stored s -> stored (fst (settleImage b i s)).
Proof.
  intros Hs. unfold settleImage. destruct (fetch b _ i) as [img |]; [| exact Hs].
  cbn [fst]. unfold img_onload. rewrite updateProgress_calls.
  intros j. fields. rewrite elem_of_union, elem_of_singleton, (Hs j).
  destruct (decide (j = i)) as [-> | Hne].
  - rewrite lookup_insert_eq. split; [eauto | now left].
  - rewrite lookup_insert_ne by congruence. split; [intros [? | H]; tauto | tauto].
Qed.

Lemma stored_empty (s : Scroller) :
  images s = ∅ -> loadedImages s = ∅ -> stored s.
Proof.
  intros Hi Hl j. rewrite Hi, Hl, lookup_empty, elem_of_empty.
  split; [tauto | intros [? H]; discriminate].
Qed.

(** X14.  The set of loaded frames and the image store always agree: at
    any time of any session, whether [init] succeeded or failed, a frame
    is marked as loaded exactly when the store holds an image for it, so
    that a frame [loadImage] would skip is one that can be drawn. *)
Theorem loaded_frames_are_stored
        (o : Options) (b : Browser) (order : list Z) (es : list Event) (i : Z) :
  i ∈ loadedImages (run es (init b order (construct o)))
  <-> is_Some (images (run es (init b order (construct o))) !! i).
Proof.
  revert i. change (stored (run es (init b order (construct o)))).
  assert (forall s, stored s -> stored (set_loadedImages ∅ (set_images ∅ s))) as Hd
    by (intros s _; now apply stored_empty).
  apply (inv_run stored stored_ext stored_settleImage); [exact Hd |].
  apply (inv_init stored stored_ext stored_settleImage); [now intros c s _ Hs | ].
  destruct (before_loading b o) as (_ & _ & Hi & Hl). now apply stored_empty.
Qed.
End Store.

(** ** ForestScroller: the callbacks *)

Module Callbacks.
Import JS JSFacts ForestScroller Footprint Loading Initialisation Sessions.
Local Open Scope Z_scope.

Lemma loadCalls_app (l1 l2 : list Call) :
  loadCalls (l1 ++ l2) = (loadCalls l1 + loadCalls l2)%nat.
Proof.
  induction l1 as [| c l1 IH]; [reflexivity |].
  destruct c; cbn [app loadCalls]; rewrite IH; reflexivity.
Qed.

Lemma loadReported_ext (s s' : Scroller) :
  config s' = config s -> images s' = images s ->
  loadedImages s' = loadedImages s -> loadedCount s' = loadedCount s ->
  calls s' = calls s -> loadReported s -> loadReported s'.
Proof. unfold loadReported. intros -> _ _ -> ->. tauto. Qed.

Lemma loadReported_call (c : Call) (s : Scroller) :
  c = CallReady \/ (exists e, c = CallError e) ->
  loadReported s -> loadReported (set_calls (calls s ++ [c]) s).
Proof.
  intros Hc Hs. unfold loadReported. fields. rewrite loadCalls_app, Hs.
  destruct Hc as [-> | [e ->]]; cbn [loadCalls]; lia.
Qed.

Lemma loadReported_settleImage (b : Browser) (i : Z) (s : Scroller) :
  loadReported s -> loadReported (fst (settleImage b i s)).
Proof.
  intros Hs. unfold settleImage. destruct (fetch b _ i) as [img |]; [| exact Hs].
  cbn [fst]. unfold img_onload, updateProgress, loadReported in *.
  unfold call. fields.
  destruct (onLoad (config s)) eqn:EL;
    destruct (onProgress (config s)); fields; rewrite ?EL; cbn [andb] in *;
    destruct (Z.eqb_spec (loadedCount s + 1) (totalFrames (config s))) as [E | E];
    fields; rewrite ?EL; cbn [andb]; rewrite ?loadCalls_app, ?Hs; cbn [loadCalls];
    destruct (Z.leb_spec (totalFrames (config s)) (loadedCount s));
    destruct (Z.leb_spec (totalFrames (config s)) (loadedCount s + 1));
    try lia; reflexivity.
Qed.

(** X15.  [onLoad] is called at most once, at the moment the load counter
    reaches [totalFrames]: at any time of a session on a sequence of at
    least one frame, the number of calls of [onLoad] made so far is 1 if
    the callback was supplied and the counter has reached [totalFrames],
    and 0 otherwise; nothing that happens later (frames counted again
    after [destroy] included) calls it a second time. *)
Theorem onLoad_called_once
        (o : Options) (b : Browser) (order : list Z) (es : list Event) :
  1 <= totalFrames (config (init b order (construct o))) ->
  let s := run es (init b order (construct o)) in
  loadCalls (calls s)
  = if onLoad (config s) && (totalFrames (config s) <=? loadedCount s)
    then 1%nat else 0%nat.
Proof.
  intros HT s. change (loadReported s). subst s.
  rewrite (proj1 (proj2 (proj2 (init_keeps b order (construct o))))) in HT.
  assert (forall s, loadReported s -> loadReported (set_loadedImages ∅ (set_images ∅ s)))
    as Hd by (intros s Hs; exact Hs).
  apply (inv_run loadReported loadReported_ext loadReported_settleImage Hd).
  apply (inv_init loadReported loadReported_ext loadReported_settleImage
                  loadReported_call).
  destruct (before_loading b o) as (Hc & Hl & _).
  unfold loadReported. rewrite Hc, Hl.
  destruct (Z.leb_spec (totalFrames
     (config (checkWebPSupport b (detectDevice (window b) (construct o))))) 0);
    [lia |].
  now rewrite andb_false_r.
Qed.

Lemma onLoad_called_once_witness :
  let b := Examples.browser (Examples.viewport 1024 0) Examples.allFrames in
  let s := run [Destroy; Scrolled (Examples.viewport 1024 0); ImageSettled b 0]
               (init b (Examples.requestOrder (Examples.watched 5) b)
                     (construct (Examples.watched 5))) in
  loadCalls (calls s)
  = (if onLoad (config s) && (totalFrames (config s) <=? loadedCount s)
     then 1%nat else 0%nat)
  /\ loadCalls (calls s) = 1%nat /\ loadedCount s = 6.
Proof.
  cbv zeta. split; [| split; vm_compute; reflexivity].
  apply (onLoad_called_once (Examples.watched 5)
           (Examples.browser (Examples.viewport 1024 0) Examples.allFrames)
           (Examples.requestOrder (Examples.watched 5)
              (Examples.browser (Examples.viewport 1024 0) Examples.allFrames))
           [Destroy; Scrolled (Examples.viewport 1024 0);
            ImageSettled (Examples.browser (Examples.viewport 1024 0) Examples.allFrames) 0]).
  vm_compute. discriminate.
Defined.


Lemma progressCalls_app (l1 l2 : list Call) :
  progressCalls (l1 ++ l2) = progressCalls l1 ++ progressCalls l2.
Proof.
  induction l1 as [| c l1 IH]; [reflexivity |].
  destruct c; cbn [app progressCalls]; rewrite IH; reflexivity.
Qed.

Lemma progressReports_succ (total n : Z) :
  0 <= n ->
  progressReports total (n + 1)
  = progressReports total n
    ++ [((inject_Z (n + 1) / inject_Z total * 100)%Q, n + 1, total)].
Proof.
  intros Hn. unfold progressReports.
  replace (Z.to_nat (n + 1)) with (S (Z.to_nat n)) by lia.
  rewrite seq_S, map_app. cbn [map].
  replace (Z.of_nat (1 + Z.to_nat n)) with (n + 1) by lia. reflexivity.
Qed.

Lemma progressReported_ext (s s' : Scroller) :
  config s' = config s -> images s' = images s ->
  loadedImages s' = loadedImages s -> loadedCount s' = loadedCount s ->
  calls s' = calls s -> progressReported s -> progressReported s'.
Proof. unfold progressReported. intros -> _ _ -> ->. tauto. Qed.

Lemma progressReported_call (c : Call) (s : Scroller) :
  c = CallReady \/ (exists e, c = CallError e) ->
  progressReported s -> progressReported (set_calls (calls s ++ [c]) s).
Proof.
  intros Hc [H0 Hs]. unfold progressReported. fields. split; [exact H0 |].
  rewrite progressCalls_app, Hs.
  destruct Hc as [-> | [e ->]]; cbn [progressCalls]; apply app_nil_r.
Qed.

Lemma progressReported_settleImage (b : Browser) (i : Z) (s : Scroller) :
  progressReported s -> progressReported (fst (settleImage b i s)).
Proof.
  intros [H0 Hs]. unfold settleImage.
  destruct (fetch b _ i) as [img |]; [| now split].
  cbn [fst]. unfold img_onload, updateProgress, progressReported in *.
  unfold call. fields.
  destruct (onProgress (config s)) eqn:EP;
    destruct (onLoad (config s)) eqn:EL; fields; rewrite ?EP, ?EL; cbn [andb];
    destruct (Z.eqb_spec (loadedCount s + 1) (totalFrames (config s))) as [E | E];
    fields; rewrite ?EP, ?EL; cbn [andb]; fields; rewrite ?EP; (split; [lia |]);
    rewrite ?progressCalls_app, ?Hs; cbn [progressCalls];
    rewrite ?app_nil_r, ?progressReports_succ by exact H0; reflexivity.
Qed.

(** X17.  [onProgress] is called once for every image that finishes
    loading and with nothing else: at any time of any session the calls
    made so far report, in this order, the counts 1, 2, ... up to the
    current load counter, each with the percentage
    [count / totalFrames * 100] and with [totalFrames]. *)
Theorem progress_reports_count_up
        (o : Options) (b : Browser) (order : list Z) (es : list Event) :
  let s := run es (init b order (construct o)) in
  progressCalls (calls s)
  = if onProgress (config s)
    then progressReports (totalFrames (config s)) (loadedCount s)
    else [].
Proof.
  intros s. enough (progressReported s) as [_ H] by exact H. subst s.
  assert (forall s, progressReported s ->
                    progressReported (set_loadedImages ∅ (set_images ∅ s)))
    as Hd by (intros s Hs; exact Hs).
  apply (inv_run progressReported progressReported_ext
                 progressReported_settleImage Hd).
  apply (inv_init progressReported progressReported_ext
                  progressReported_settleImage progressReported_call).
  destruct (before_loading b o) as (Hc & Hl & _).
  unfold progressReported. rewrite Hc, Hl. split; [lia |].
  now destruct (onProgress _).
Qed.

(** X16.  When the canvas element is missing, [init] stops at
    [setupCanvas]: the only callback it calls is [onError], once, with the
    canvas error; no image is requested or stored, the draw loop is not
    started, [isLoading] stays [true] and the canvas context is never
    obtained; and the player reports that it is loading for good,
    whatever happens afterwards. *)
Theorem missing_canvas_aborts_init
        (o : Options) (b : Browser) (order : list Z) (es : list Event) :
  canvasFound (window b) = false ->
  let s := init b order (construct o) in
  calls s = (if onError (config s)
             then [CallError (CanvasNotFound (canvasId (config s)))] else [])
  /\ images s = ∅ /\ loadedCount s = 0 /\ inflight s = []
  /\ animationFrameId s = None /\ ctx s = false
  /\ isLoading s = true
  /\ isLoading (run es s) = true.
Proof.
  intros Hc s.
  assert (s = initFailed
                (CanvasNotFound
                   (canvasId (config (checkWebPSupport b
                                        (detectDevice (window b) (construct o))))))
                (checkWebPSupport b (detectDevice (window b) (construct o)))) as Es.
  { subst s. unfold init, setupCanvas. rewrite Hc. reflexivity. }
  assert (calls s = (if onError (config s)
                     then [CallError (CanvasNotFound (canvasId (config s)))] else [])
          /\ images s = ∅ /\ loadedCount s = 0 /\ inflight s = []
          /\ animationFrameId s = None /\ ctx s = false
          /\ isLoading s = true) as H.
  { rewrite Es. unfold initFailed, call, checkWebPSupport, detectDevice. fields.
    destruct (decodesWebP b), (Qle_bool _ _); fields.
    all: cbn [onError canvasId set_imageFormat set_totalFrames construct config].
    all: destruct (onError (mergeOptions o)) eqn:EO; fields.
    all: cbn [onError canvasId set_imageFormat set_totalFrames construct config
              calls images loadedCount inflight animationFrameId ctx isLoading app].
    all: rewrite ?EO; now repeat split. }
  destruct H as (H1 & H2 & H3 & H4 & H5 & H6 & H7).
  repeat (split; [assumption |]).
  clear Es H1 H2 H3 H4 H5 H6. revert H7. generalize s as s'. clear s.
  induction es as [| e es IH]; intros s Hs; [exact Hs |].
  cbn [run fold_left]. apply IH. rewrite <- Hs.
  destruct e; cbn [handle].
  - destruct (animationFrameId s); [| reflexivity].
    unfold animate, requestAnimationFrame. rewrite drawFrameWithBlending_paints.
    unfold adaptiveSmoothness, lastFrame.
    destruct (truthy (lastFrameTime s)); fields;
      match goal with |- context [if Qltb (Math_abs ?v) ?c then _ else _] =>
        destruct (Qltb (Math_abs v) c) end; reflexivity.
  - reflexivity.
  - now rewrite resizeCanvas_paints.
  - unfold imageSettled. destruct (includes (inflight s) index); [| reflexivity].
    now rewrite (proj1 (proj2 (proj2 (proj2 (proj2 (proj2 (loader_writes_keeps _ _
                   (loader_writes_settleImage b0 index _)))))))).
  - unfold jumpToFrame, drawFrame. now rewrite drawFrameWithBlending_paints.
  - unfold jumpToProgress, jumpToFrame, drawFrame.
    now rewrite drawFrameWithBlending_paints.
  - unfold pause. now destruct (animationFrameId s).
  - unfold resume. now destruct (animationFrameId s).
  - unfold destroy. fields. now destruct (ctx s).
Qed.

Lemma missing_canvas_aborts_init_witness :
  let s := init (Examples.browser Examples.noCanvas Examples.allFrames) []
                (construct (Examples.options 5 0.1)) in
  calls s = (if onError (config s)
             then [CallError (CanvasNotFound (canvasId (config s)))] else [])
  /\ images s = ∅ /\ loadedCount s = 0 /\ inflight s = []
  /\ animationFrameId s = None /\ ctx s = false
  /\ isLoading s = true
  /\ isLoading (run [Resume; AnimationFrame Examples.noCanvas 16] s) = true.
Proof.
  apply (missing_canvas_aborts_init
           (Examples.options 5 0.1)
           (Examples.browser Examples.noCanvas Examples.allFrames) []
           [Resume; AnimationFrame Examples.noCanvas 16]).
  reflexivity.
Defined.
End Callbacks.

(** ** ForestScroller: construction and resizing *)

Module Construction.
Import JS JSFacts ForestScroller Footprint.
Local Open Scope Q_scope.

Lemma orZ_spec (o : option Z) (d : Z) :
  d <> 0%Z ->
  orZ o d <> 0%Z
  /\ (forall v, o = Some v -> v <> 0%Z -> orZ o d = v)
  /\ (o = None \/ o = Some 0%Z -> orZ o d = d).
Proof.
  intros Hd. unfold orZ. destruct o as [v |].
  - destruct (Z.eqb_spec v 0) as [-> | Hv].
    + split; [exact Hd |]. split; [intros ? [= <-] ? | ]; tauto.
    + split; [exact Hv |]. split; [now intros ? [= <-] _ |].
      intros [H | [= H]]; [discriminate | contradiction].
  - split; [exact Hd |]. split; [discriminate | reflexivity].
Qed.

Lemma orQ_spec (o : option Q) (d : Q) :
  ~ d == 0 ->
  ~ orQ o d == 0
  /\ (forall v, o = Some v -> ~ v == 0 -> orQ o d = v)
  /\ (forall v, o = Some v -> v == 0 -> orQ o d = d)
  /\ (o = None -> orQ o d = d).
Proof.
  intros Hd. unfold orQ, truthy. destruct o as [v |].
  - destruct (Qeq_bool v 0) eqn:E; cbn [negb].
    + apply Qeq_bool_iff in E.
      split; [exact Hd |]. split; [intros ? [= <-] ?; contradiction |].
      split; [reflexivity | discriminate].
    + apply Qeq_bool_neq in E.
      split; [exact E |]. split; [now intros ? [= <-] _ |].
      split; [intros ? [= <-] ?; contradiction | discriminate].
  - split; [exact Hd |]. repeat split; discriminate || reflexivity.
Qed.

Lemma orS_spec (o : option string) (d : string) :
  d <> EmptyString -> orS o d <> EmptyString.
Proof. intros Hd. unfold orS. destruct o as [[| a s] |]; congruence. Qed.

(** X24.  The constructor's [||] defaults replace every falsy option, not
    only a missing one: whatever the options, the merged configuration has
    no number equal to 0 and no empty string; a non-zero number is taken as
    given, and 0 gives the default (so [smoothing: 0] is 0.1 and
    [mobileBreakpoint: 0], meant to turn mobile detection off, is 768). *)
Theorem falsy_options_fall_back (o : Options) :
  let c := mergeOptions o in
  (totalFrames c <> 0 /\ preloadCount c <> 0 /\ mobileFrameCount c <> 0)%Z
  /\ ~ smoothing c == 0 /\ ~ mobileBreakpoint c == 0
  /\ canvasId c <> EmptyString /\ imagePath c <> EmptyString
  /\ imagePrefix c <> EmptyString
  /\ (forall v, opt_totalFrames o = Some v -> v <> 0%Z -> totalFrames c = v)
  /\ (opt_totalFrames o = None \/ opt_totalFrames o = Some 0%Z -> totalFrames c = 120%Z)
  /\ (forall v, opt_smoothing o = Some v -> v == 0 -> smoothing c = 0.1)
  /\ (forall v, opt_mobileBreakpoint o = Some v -> ~ v == 0 -> mobileBreakpoint c = v)
  /\ (forall v, opt_mobileBreakpoint o = Some v -> v == 0 -> mobileBreakpoint c = 768).
Proof.
  cbv zeta. unfold mergeOptions.
  cbn [totalFrames preloadCount mobileFrameCount smoothing mobileBreakpoint
       canvasId imagePath imagePrefix].
  destruct (orZ_spec (opt_totalFrames o) 120 ltac:(discriminate)) as (T1 & T2 & T3).
  destruct (orZ_spec (opt_preloadCount o) 5 ltac:(discriminate)) as (P1 & _).
  destruct (orZ_spec (opt_mobileFrameCount o) 60 ltac:(discriminate)) as (M1 & _).
  destruct (orQ_spec (opt_smoothing o) 0.1 ltac:(discriminate)) as (S1 & _ & S3 & _).
  destruct (orQ_spec (opt_mobileBreakpoint o) 768 ltac:(discriminate))
    as (B1 & B2 & B3 & _).
  repeat split; try assumption; apply orS_spec; discriminate.
Qed.

(** X25.  Resizing repaints from scratch: on a live canvas [resizeCanvas]
    writes nothing but the canvas, what it leaves on it does not depend on
    what was there before, a second resize of the same window changes
    nothing more, and when the frame under the playback position is not
    stored the canvas is left blank (where a run of the draw loop would
    have kept the previous picture). *)
Theorem resize_repaints_from_scratch (w : Window) (l : list Layer) (s : Scroller) :
  ctx s = true ->
  resizeCanvas w s = set_painted (painted (resizeCanvas w s)) s
  /\ resizeCanvas w (set_painted l s) = resizeCanvas w s
  /\ resizeCanvas w (resizeCanvas w s) = resizeCanvas w s
  /\ (images s !! Qfloor (currentFrame s) = None ->
      painted (resizeCanvas w s) = []
      /\ painted (drawFrameWithBlending w (currentFrame s) s) = painted s).
Proof.
  intros Hc. split; [apply resizeCanvas_paints |].
  unfold resizeCanvas, drawFrameWithBlending, applyDepthGrading, lastFrame.
  fields. rewrite Hc. cbn [negb].
  destruct (images s !! Qfloor (currentFrame s)) as [img1 |] eqn:E1.
  - destruct (truthy (naturalWidth img1)) eqn:Et; cbn [negb]; fields;
      rewrite ?Hc; cbn [negb]; rewrite ?E1, ?Et; cbn [negb]; fields;
      (split; [reflexivity |]); (split; [reflexivity |]); discriminate.
  - fields. rewrite Hc. cbn [negb]. rewrite E1.
    split; [reflexivity |]. split; [reflexivity |]. now intros _.
Qed.

(** X26.  The WebP probe decides the format of every request of the
    session: when the browser cannot decode WebP, the format is [jpg] from
    [init] on, whatever was configured, so that every frame is requested
    from a file ending in [.jpg]; when it can, the configured format is
    kept. *)
Theorem format_follows_webp_probe
        (o : Options) (b : Browser) (order : list Z) (es : list Event) (i : Z) :
  let s := run es (init b order (construct o)) in
  (decodesWebP b = true -> imageFormat (config s) = imageFormat (mergeOptions o))
  /\ (decodesWebP b = false ->
      imageFormat (config s) = jpg
      /\ framePath (config s) i
         = String.append (imagePath (mergeOptions o))
             (String.append (imagePrefix (mergeOptions o))
                (String.append (frameNumber i) ".jpg"))
      /\ forall b', settleImage b' i s
                    = match fetch b' jpg i with
                      | Some img => (img_onload i img s, Fulfilled)
                      | None => (s, Rejected (FrameLoadFailed i))
                      end).
Proof.
  cbv zeta.
  assert (config (run es (init b order (construct o)))
          = config (checkWebPSupport b (detectDevice (window b) (construct o)))) as Ec.
  { rewrite config_run. apply (Initialisation.init_keeps b order (construct o)). }
  split.
  - intros Hw. rewrite Ec. unfold checkWebPSupport, detectDevice. rewrite Hw. fields.
    now destruct (Qle_bool _ _).
  - intros Hw.
    assert (imageFormat (config (run es (init b order (construct o)))) = jpg
            /\ imagePath (config (run es (init b order (construct o))))
               = imagePath (mergeOptions o)
            /\ imagePrefix (config (run es (init b order (construct o))))
               = imagePrefix (mergeOptions o)) as (Ef & Ep & Ex).
    { rewrite Ec. unfold checkWebPSupport, detectDevice. rewrite Hw. fields.
      now destruct (Qle_bool _ _). }
    split; [exact Ef |]. split.
    + unfold framePath. now rewrite Ef, Ep, Ex.
    + intros b'. unfold settleImage. now rewrite Ef.
Qed.

Lemma resize_repaints_from_scratch_witness :
  let s := init (Examples.browser (Examples.viewport 1024 0) Examples.allFrames)
                [] (construct Examples.noOptions) in
  let w := Examples.viewport 800 0 in
  resizeCanvas w s = set_painted (painted (resizeCanvas w s)) s
  /\ resizeCanvas w (set_painted [] s) = resizeCanvas w s
  /\ resizeCanvas w (resizeCanvas w s) = resizeCanvas w s
  /\ (images s !! Qfloor (currentFrame s) = None ->
      painted (resizeCanvas w s) = []
      /\ painted (drawFrameWithBlending w (currentFrame s) s) = painted s).
Proof.
  apply (resize_repaints_from_scratch (Examples.viewport 800 0) []
           (init (Examples.browser (Examples.viewport 1024 0) Examples.allFrames)
                 [] (construct Examples.noOptions))).
  vm_compute. reflexivity.
Defined.
End Construction.

(** ** ForestAmbient: creation, scroll velocity and the conditional layers *)

Module AmbientSession.
Import JS JSFacts ForestAmbient AmbientFacts.
Local Open Scope Q_scope.

Lemma pushEach_spec {A : Type} (create : nat -> A * nat) (born : A -> Prop) (step : nat) :
  (forall c, born (fst (create c)) /\ snd (create c) = (c + step)%nat) ->
  forall count cursor,
    length (fst (pushEach create count cursor)) = count
    /\ Forall born (fst (pushEach create count cursor))
    /\ snd (pushEach create count cursor) = (cursor + count * step)%nat.
Proof.
  intros Hc count. induction count as [| n IH]; intros cursor.
  - cbn [pushEach fst snd length]. split; [reflexivity |]. split; [constructor | lia].
  - cbn [pushEach]. destruct (Hc cursor) as [Hb Hs].
    destruct (create cursor) as [e c1]. cbn [fst snd] in *.
    destruct (IH c1) as (Hl & Hf & Hn).
    destruct (pushEach create n c1) as [rest c2]. cbn [fst snd length] in *.
    split; [now rewrite Hl |]. split; [now constructor | lia].
Qed.

Lemma createParticle_born (w : Window) (c : Config) (random : Random) (cursor : nat) :
  0 <= innerWidth w -> 0 <= innerHeight w -> 0 <= particleSpeed c ->
  (forall n, 0 <= random n /\ random n < 1) ->
  particle_born w c (fst (createParticle w c random cursor))
  /\ snd (createParticle w c random cursor) = (cursor + 10)%nat.
Proof.
  intros HW HH HS Hr. split; [| reflexivity].
  unfold particle_born, createParticle.
  cbn [fst Particle.x Particle.y Particle.size Particle.speedX Particle.speedY
       Particle.opacity Particle.depth].
  pose proof (Hr cursor) as [? ?]. pose proof (Hr (cursor + 1)%nat) as [? ?].
  pose proof (Hr (cursor + 2)%nat) as [? ?]. pose proof (Hr (cursor + 3)%nat) as [? ?].
  pose proof (Hr (cursor + 4)%nat) as [? ?]. pose proof (Hr (cursor + 5)%nat) as [? ?].
  pose proof (Hr (cursor + 8)%nat) as [? ?].
  repeat split; try lra; nra.
Qed.

Lemma createSparkle_born (w : Window) (random : Random) (cursor : nat) :
  0 <= innerWidth w -> 0 <= innerHeight w ->
  (forall n, 0 <= random n /\ random n < 1) ->
  sparkle_born w (fst (createSparkle w random cursor))
  /\ snd (createSparkle w random cursor) = (cursor + 12)%nat.
Proof.
  intros HW HH Hr. split; [| reflexivity].
  unfold sparkle_born, createSparkle.
  cbn [fst Sparkle.x Sparkle.y Sparkle.size Sparkle.baseSpeedX Sparkle.baseSpeedY
       Sparkle.speedX Sparkle.speedY Sparkle.opacity Sparkle.depth Sparkle.hue].
  pose proof (Hr cursor) as [? ?]. pose proof (Hr (cursor + 1)%nat) as [? ?].
  pose proof (Hr (cursor + 2)%nat) as [? ?]. pose proof (Hr (cursor + 3)%nat) as [? ?].
  pose proof (Hr (cursor + 4)%nat) as [? ?]. pose proof (Hr (cursor + 5)%nat) as [? ?].
  pose proof (Hr (cursor + 8)%nat) as [? ?]. pose proof (Hr (cursor + 9)%nat) as [? ?].
  repeat split; try lra; nra.
Qed.

Lemma createParticles_spec
      (w : Window) (random : Random) (cursor : nat) (a : Ambient) :
  0 <= innerWidth w -> 0 <= innerHeight w ->
  0 <= particleSpeed (config a) ->
  (forall n, 0 <= random n /\ random n < 1) ->
  let r := createParticles w random cursor a in
  fst r = set_pools (particles (fst r)) (sparkles a) a
  /\ length (particles (fst r)) = Z.to_nat (particleCount (config a))
  /\ Forall (particle_born w (config a)) (particles (fst r))
  /\ snd r = (cursor + Z.to_nat (particleCount (config a)) * 10)%nat.
Proof.
  intros HW HH HS Hr. cbv zeta. unfold createParticles.
  destruct (pushEach_spec (createParticle w (config a) random)
              (particle_born w (config a)) 10
              (fun c => createParticle_born w _ random c HW HH HS Hr)
              (Z.to_nat (particleCount (config a))) cursor)
    as (Hl & Hf & Hc).
  destruct (pushEach _ _ cursor) as [ps c1]. cbn [fst snd particles set_pools] in *.
  now repeat split.
Qed.

Lemma createSparkles_spec
      (w : Window) (random : Random) (cursor : nat) (a : Ambient) :
  0 <= innerWidth w -> 0 <= innerHeight w ->
  (forall n, 0 <= random n /\ random n < 1) ->
  let r := createSparkles w random cursor a in
  fst r = set_pools (particles a) (sparkles (fst r)) a
  /\ length (sparkles (fst r)) = Z.to_nat (sparkleCount (config a))
  /\ Forall (sparkle_born w) (sparkles (fst r))
  /\ snd r = (cursor + Z.to_nat (sparkleCount (config a)) * 12)%nat.
Proof.
  intros HW HH Hr. cbv zeta. unfold createSparkles.
  destruct (pushEach_spec (createSparkle w random) (sparkle_born w) 12
              (fun c => createSparkle_born w random c HW HH Hr)
              (Z.to_nat (sparkleCount (config a))) cursor)
    as (Hl & Hf & Hc).
  destruct (pushEach _ _ cursor) as [ks c1]. cbn [fst snd sparkles set_pools] in *.
  now repeat split.
Qed.

(** X18.  The pools [createParticles] and [createSparkles] fill: for a
    window of non-negative size, a non-negative [particleSpeed] and
    [Math.random] in [0, 1), the pools hold [particleCount] particles and
    [sparkleCount] sparkles (a count of 0 cannot be configured: it gives
    the default), every one placed inside the window with its size,
    speeds, opacity, depth and hue in the ranges of the source (a particle
    never moves up; a sparkle has an opacity that can exceed 1), and the
    two loops draw 10 and 12 random numbers per entity. *)
Theorem created_pools_in_range
        (o : Options) (w : Window) (random : Random) (cursor : nat) :
  0 <= innerWidth w -> 0 <= innerHeight w ->
  0 <= particleSpeed (mergeOptions o) ->
  (forall n, 0 <= random n /\ random n < 1) ->
  let a1 := createParticles w random cursor (construct o) in
  let a2 := createSparkles w random (snd a1) (fst a1) in
  let a := fst a2 in
  particleCount (config a) <> 0%Z /\ sparkleCount (config a) <> 0%Z
  /\ length (particles a) = Z.to_nat (particleCount (config a))
  /\ length (sparkles a) = Z.to_nat (sparkleCount (config a))
  /\ Forall (particle_born w (config a)) (particles a)
  /\ Forall (sparkle_born w) (sparkles a)
  /\ snd a2 = (cursor + length (particles a) * 10 + length (sparkles a) * 12)%nat.
Proof.
  intros HW HH HS Hr. cbv zeta.
  destruct (createParticles_spec w random cursor (construct o) HW HH HS Hr)
    as (E1 & Hl1 & Hf1 & Hc1).
  destruct (createParticles w random cursor (construct o)) as [a1 c1].
  cbn [fst snd] in *.
  destruct (createSparkles_spec w random c1 a1 HW HH Hr) as (E2 & Hl2 & Hf2 & Hc2).
  destruct (createSparkles w random c1 a1) as [a2 c2]. cbn [fst snd] in *.
  assert (config a2 = mergeOptions o /\ particles a2 = particles a1
          /\ config a1 = mergeOptions o) as (Ec & Ep & Ec1)
    by (rewrite E2, E1; now repeat split).
  rewrite Ec, Ep. rewrite Ec1 in Hl2, Hc2. cbn [config construct] in Hl1, Hf1, Hc1.
  split; [| split].
  - unfold mergeOptions. cbn [particleCount]. unfold orZ.
    destruct (opt_particleCount o) as [v |]; [| discriminate].
    destruct (Z.eqb_spec v 0); [discriminate | assumption].
  - unfold mergeOptions. cbn [sparkleCount]. unfold orZ.
    destruct (opt_sparkleCount o) as [v |]; [| discriminate].
    destruct (Z.eqb_spec v 0); [discriminate | assumption].
  - split; [exact Hl1 |]. split; [exact Hl2 |]. split; [exact Hf1 |].
    split; [exact Hf2 |]. rewrite Hl1, Hl2, Hc2, Hc1. reflexivity.
Qed.

Lemma created_pools_in_range_witness :
  let o := Examples.ambientOptions in
  let a1 := createParticles Examples.ambientWindow Examples.halves 0 (construct o) in
  let a2 := createSparkles Examples.ambientWindow Examples.halves (snd a1) (fst a1) in
  let a := fst a2 in
  particleCount (config a) <> 0%Z /\ sparkleCount (config a) <> 0%Z
  /\ length (particles a) = Z.to_nat (particleCount (config a))
  /\ length (sparkles a) = Z.to_nat (sparkleCount (config a))
  /\ Forall (particle_born Examples.ambientWindow (config a)) (particles a)
  /\ Forall (sparkle_born Examples.ambientWindow) (sparkles a)
  /\ snd a2 = (0 + length (particles a) * 10 + length (sparkles a) * 12)%nat.
Proof.
  apply (created_pools_in_range Examples.ambientOptions
           Examples.ambientWindow Examples.halves 0).
  - vm_compute. discriminate.
  - vm_compute. discriminate.
  - vm_compute. discriminate.
  - intros n. split; vm_compute; [discriminate | reflexivity].
Defined.

(** *** What a frame leaves alone *)

Lemma moveParticle_kind (w : Window) (f : Q) (random : Random) (c : nat)
      (p : Particle.t) :
  particle_kind (fst (moveParticle w f random c p)) = particle_kind p.
Proof.
  unfold moveParticle, particle_kind.
  destruct (Qltb (innerHeight w + 10) _); reflexivity.
Qed.

Lemma moveSparkle_kind (w : Window) (f : Q) (random : Random) (c : nat)
      (k : Sparkle.t) :
  sparkle_kind (fst (moveSparkle w f random c k)) = sparkle_kind k.
Proof.
  unfold moveSparkle, sparkle_kind.
  destruct (Qltb (innerHeight w + 10) _); reflexivity.
Qed.

Lemma forEach_map {A B : Type} (update : nat -> A -> A * nat) (kind : A -> B) :
  (forall c e, kind (fst (update c e)) = kind e) ->
  forall pool c, map kind (fst (forEach update c pool)) = map kind pool.
Proof.
  intros Hk pool. induction pool as [| e rest IH]; intros c; [reflexivity |].
  cbn [forEach]. specialize (Hk c e). destruct (update c e) as [e' c'].
  specialize (IH c'). destruct (forEach update c' rest) as [rest' c''].
  cbn [fst map] in *. now rewrite Hk, IH.
Qed.

(** The fields a run of the draw loop does not write, and the kinds of the
    entities it moves. *)
Lemma animate_keeps (w : Window) (random : Random) (c : nat) (a : Ambient) :
  let a' := fst (animate w random c a) in
  config a' = config a
  /\ scrollVelocity a' = scrollVelocity a
  /\ velocityMultiplier a' = velocityMultiplier a
  /\ lightRayOpacity a' = lightRayOpacity a
  /\ scrollProgress a' = scrollProgress a
  /\ lastScrollY a' = lastScrollY a
  /\ map particle_kind (particles a') = map particle_kind (particles a)
  /\ map sparkle_kind (sparkles a') = map sparkle_kind (sparkles a).
Proof.
  cbv zeta. unfold animate, drawParticles, drawSparkles.
  pose proof (forEach_map (moveParticle w (velocityMultiplier a) random) particle_kind
                (moveParticle_kind w (velocityMultiplier a) random)
                (particles a) c) as HP.
  destruct (forEach (moveParticle w (velocityMultiplier a) random) c (particles a))
    as [ps c1].
  cbn [velocityMultiplier set_pools sparkles particles fst] in *.
  pose proof (forEach_map (moveSparkle w (velocityMultiplier a) random) sparkle_kind
                (moveSparkle_kind w (velocityMultiplier a) random)
                (sparkles a) c1) as HS.
  destruct (forEach (moveSparkle w (velocityMultiplier a) random) c1 (sparkles a))
    as [ks c2].
  cbn [fst] in *. now repeat split.
Qed.

Lemma kinds_run (random : Random) (es : list Event) (a : Ambient) (cursor : nat) :
  map particle_kind (particles (fst (run random es (a, cursor))))
  = map particle_kind (particles a)
  /\ map sparkle_kind (sparkles (fst (run random es (a, cursor))))
     = map sparkle_kind (sparkles a).
Proof.
  revert a cursor. induction es as [| e es IH]; intros a cursor; [now split |].
  cbn [run fold_left]. unfold run in IH.
  destruct (handle random e (a, cursor)) as [a' c'] eqn:E.
  destruct (IH a' c') as [H1 H2]. rewrite H1, H2.
  destruct e; cbn [handle fst snd] in E.
  - pose proof (animate_keeps w random cursor a) as K. cbv zeta in K.
    rewrite E in K. cbn [fst] in K. now destruct K as (_ & _ & _ & _ & _ & _ & ? & ?).
  - injection E as <- _. now split.
  - injection E as <- _. now split.
  - injection E as <- _. now split.
Qed.

Lemma map_length_eq {A B : Type} (f : A -> B) (l l' : list A) :
  map f l = map f l' -> length l = length l'.
Proof. intros H. apply (f_equal (@length _)) in H. now rewrite !length_map in H. Qed.

(** X19.  The entities are created once and for all: no event of a session
    (a frame, a scroll event, a tick of the decay timer, a progress
    update) adds or removes a particle or a sparkle, and none changes the
    size, the speeds, the opacity, the depth, the hue or the kind (leaf or
    speck) an entity was created with; only positions, rotation and the
    twinkle and pulse phases move. *)
Theorem entities_keep_their_kind
        (random : Random) (es : list Event) (a : Ambient) (cursor : nat) :
  map particle_kind (particles (fst (run random es (a, cursor))))
  = map particle_kind (particles a)
  /\ map sparkle_kind (sparkles (fst (run random es (a, cursor))))
     = map sparkle_kind (sparkles a)
  /\ length (particles (fst (run random es (a, cursor)))) = length (particles a)
  /\ length (sparkles (fst (run random es (a, cursor)))) = length (sparkles a).
Proof.
  destruct (kinds_run random es a cursor) as [HP HS].
  split; [exact HP |]. split; [exact HS |].
  split; [exact (map_length_eq _ _ _ HP) | exact (map_length_eq _ _ _ HS)].
Qed.

(** *** Scroll velocity *)

Lemma onScroll_bounds (y : Q) (a : Ambient) :
  0 < velocityMultiplier a -> velocityMultiplier a <= 3 ->
  0 <= scrollVelocity (onScroll y a) /\ scrollVelocity (onScroll y a) <= 3
  /\ 0 < velocityMultiplier (onScroll y a) /\ velocityMultiplier (onScroll y a) <= 3.
Proof.
  intros H0 H3. unfold onScroll. cbn [scrollVelocity velocityMultiplier set_velocity].
  assert (0 <= Math_abs (y - lastScrollY a) / 50) as Hd
    by (apply Qle_shift_div_l; [reflexivity | rewrite Qmult_0_l; apply Qabs_nonneg]).
  destruct (Math_min_spec (Math_abs (y - lastScrollY a) / 50) 3) as [[H ->] | [H ->]];
    repeat split; lra.
Qed.

Lemma decay_bounds (a : Ambient) :
  0 <= scrollVelocity a -> scrollVelocity a <= 3 -> velocityMultiplier a <= 3 ->
  0 <= scrollVelocity (decay a) /\ scrollVelocity (decay a) <= 3
  /\ 1 <= velocityMultiplier (decay a) /\ velocityMultiplier (decay a) <= 3.
Proof.
  intros H0 H1 H3. unfold decay. cbn [scrollVelocity velocityMultiplier set_velocity].
  destruct (Math_max_spec 1 (velocityMultiplier a * 0.98)) as [[H ->] | [H ->]];
    repeat split; lra.
Qed.

(** The invariant of the scroll velocity. *)
Lemma velocity_bounds_handle (random : Random) (e : Event) (a : Ambient) (c : nat) :
  (0 <= scrollVelocity a /\ scrollVelocity a <= 3
   /\ 0 < velocityMultiplier a /\ velocityMultiplier a <= 3) ->
  let a' := fst (handle random e (a, c)) in
  0 <= scrollVelocity a' /\ scrollVelocity a' <= 3
  /\ 0 < velocityMultiplier a' /\ velocityMultiplier a' <= 3.
Proof.
  intros (S0 & S3 & V0 & V3). cbv zeta. destruct e; cbn [handle fst snd].
  - pose proof (animate_keeps w random c a) as K. cbv zeta in K.
    destruct K as (_ & -> & -> & _). now repeat split.
  - now apply onScroll_bounds.
  - destruct (decay_bounds a S0 S3 V3) as (? & ? & ? & ?). repeat split; lra.
  - unfold updateProgress. cbn [scrollVelocity velocityMultiplier]. now repeat split.
Qed.

Lemma ambient_init_keeps (w : Window) (random : Random) (c : nat) (a : Ambient) :
  let a' := fst (init w random c a) in
  config a' = config a
  /\ scrollVelocity a' = scrollVelocity a
  /\ velocityMultiplier a' = velocityMultiplier a
  /\ lightRayOpacity a' = lightRayOpacity a.
Proof.
  cbv zeta. unfold init, createParticles, createSparkles.
  destruct (pushEach _ _ c) as [ps c1]. cbn [config set_pools].
  destruct (pushEach _ _ c1) as [ks c2].
  match goal with |- context [animate w random c2 ?A] =>
    pose proof (animate_keeps w random c2 A) as K end.
  cbv zeta in K. destruct K as (-> & -> & -> & -> & _). now repeat split.
Qed.

(** X20.  The scroll velocity stays bounded: at any time of any session
    [scrollVelocity] lies in [0, 3] and [velocityMultiplier] in (0, 3], and
    a tick of the decay timer brings the multiplier back to at least 1,
    while a scroll event that reports no movement lowers it by a tenth
    (so scroll events alone take it below 1, which slows the entities
    down). *)
Theorem velocity_bounded
        (o : Options) (w : Window) (random : Random) (cursor : nat) (es : list Event) :
  let a := fst (run random es (init w random cursor (construct o))) in
  0 <= scrollVelocity a /\ scrollVelocity a <= 3
  /\ 0 < velocityMultiplier a /\ velocityMultiplier a <= 3
  /\ 1 <= velocityMultiplier (decay a)
  /\ velocityMultiplier (onScroll (lastScrollY a) a) == velocityMultiplier a * 0.9.
Proof.
  cbv zeta.
  assert (let a := fst (run random es (init w random cursor (construct o))) in
          0 <= scrollVelocity a /\ scrollVelocity a <= 3
          /\ 0 < velocityMultiplier a /\ velocityMultiplier a <= 3) as H.
  { cbv zeta.
    pose proof (ambient_init_keeps w random cursor (construct o)) as K. cbv zeta in K.
    destruct K as (_ & Hs & Hv & _).
    destruct (init w random cursor (construct o)) as [a0 c0]. cbn [fst] in *.
    assert (0 <= scrollVelocity a0 /\ scrollVelocity a0 <= 3
            /\ 0 < velocityMultiplier a0 /\ velocityMultiplier a0 <= 3) as H0
      by (rewrite Hs, Hv; cbn [construct scrollVelocity velocityMultiplier];
          repeat split; lra).
    clear Hs Hv. revert a0 c0 H0.
    induction es as [| e es IH]; intros a0 c0 H0; [exact H0 |].
    cbn [run fold_left]. unfold run in IH.
    pose proof (velocity_bounds_handle random e a0 c0 H0) as H1. cbv zeta in H1.
    destruct (handle random e (a0, c0)) as [a1 c1]. now apply IH. }
  cbv zeta in H. destruct H as (S0 & S3 & V0 & V3).
  set (a := fst (run random es (init w random cursor (construct o)))) in *.
  repeat (split; [assumption |]).
  split; [apply (decay_bounds a S0 S3 V3) |].
  unfold onScroll. cbn [velocityMultiplier set_velocity].
  assert (Math_abs (lastScrollY a - lastScrollY a) / 50 == 0) as E.
  { unfold Math_abs. rewrite (Qabs_wd _ 0) by ring. reflexivity. }
  destruct (Math_min_spec (Math_abs (lastScrollY a - lastScrollY a) / 50) 3)
    as [[H ->] | [H ->]]; lra.
Qed.

(** *** The entities of a session *)

Lemma moveParticle_settled
      (w : Window) (f : Q) (random : Random) (c : nat) (p : Particle.t) :
  0 <= innerWidth w -> 0 <= innerHeight w ->
  (forall n, 0 <= random n /\ random n < 1) -> 0 <= f ->
  particle_settled w p -> particle_settled w (fst (moveParticle w f random c p)).
Proof.
  intros HW HH Hr Hf (_ & Hy & Hs & Hd).
  destruct (moveParticle_within_margin w f random c p HW HH Hr) as [Hin Hfall].
  cbv zeta in Hin, Hfall.
  pose proof (moveParticle_kind w f random c p) as Hk.
  unfold particle_kind in Hk. injection Hk as _ _ Es _ _ Ed _.
  unfold particle_settled. rewrite Es, Ed.
  split; [exact Hin |]. split; [| now split].
  apply Hfall. split; [exact Hy |].
  apply Qmult_le_0_compat; [apply Qmult_le_0_compat |]; lra.
Qed.

Lemma moveSparkle_settled
      (w : Window) (f : Q) (random : Random) (c : nat) (k : Sparkle.t) :
  0 <= innerWidth w -> 0 <= innerHeight w ->
  (forall n, 0 <= random n /\ random n < 1) -> 0 <= f ->
  sparkle_settled w k -> sparkle_settled w (fst (moveSparkle w f random c k)).
Proof.
  intros HW HH Hr Hf (_ & Hy & Hs & Hd).
  destruct (moveSparkle_within_margin w f random c k HW HH Hr) as [Hin Hfall].
  cbv zeta in Hin, Hfall.
  pose proof (moveSparkle_kind w f random c k) as Hk.
  unfold sparkle_kind in Hk. injection Hk as _ _ Es _ _ Ed _ _.
  unfold sparkle_settled. rewrite Es, Ed.
  split; [exact Hin |]. split; [| now split].
  apply Hfall. split; [exact Hy |].
  apply Qmult_le_0_compat; [apply Qmult_le_0_compat |]; lra.
Qed.

Lemma animate_settled (w : Window) (random : Random) (c : nat) (a : Ambient) :
  0 <= innerWidth w -> 0 <= innerHeight w ->
  (forall n, 0 <= random n /\ random n < 1) -> 0 <= velocityMultiplier a ->
  Forall (particle_settled w) (particles a) ->
  Forall (sparkle_settled w) (sparkles a) ->
  Forall (particle_settled w) (particles (fst (animate w random c a)))
  /\ Forall (sparkle_settled w) (sparkles (fst (animate w random c a))).
Proof.
  intros HW HH Hr Hf HP HS. unfold animate, drawParticles, drawSparkles.
  pose proof (forEach_Forall (moveParticle w (velocityMultiplier a) random)
                (particle_settled w) (particle_settled w)
                (fun c e => moveParticle_settled w _ random c e HW HH Hr Hf)
                (particles a) c HP) as HP'.
  destruct (forEach (moveParticle w (velocityMultiplier a) random) c (particles a))
    as [ps c1].
  cbn [velocityMultiplier set_pools sparkles particles fst] in *.
  pose proof (forEach_Forall (moveSparkle w (velocityMultiplier a) random)
                (sparkle_settled w) (sparkle_settled w)
                (fun c e => moveSparkle_settled w _ random c e HW HH Hr Hf)
                (sparkles a) c1 HS) as HS'.
  destruct (forEach (moveSparkle w (velocityMultiplier a) random) c1 (sparkles a))
    as [ks c2].
  cbn [set_pools sparkles particles fst] in *. now split.
Qed.

Lemma born_settled (w : Window) (c : Config) :
  (forall p, particle_born w c p -> particle_settled w p)
  /\ (forall k, sparkle_born w k -> sparkle_settled w k).
Proof.
  unfold particle_born, particle_settled, sparkle_born, sparkle_settled, within_margin.
  split; intros e H; decompose [and] H; repeat split; lra.
Qed.

(** X21.  The entities [init] creates never leave the margin of the
    window and never rise above it: for a window of non-negative size that
    does not change, a non-negative [particleSpeed] and [Math.random] in
    [0, 1), after [init] and after every event of a session (frames,
    scroll events, ticks of the decay timer, progress updates) each
    particle and each sparkle has [-10 <= x <= innerWidth + 10] and
    [-10 <= y <= innerHeight + 10], and the pools still hold
    [particleCount] particles and [sparkleCount] sparkles. *)
Theorem created_entities_stay_in_margin
        (o : Options) (w : Window) (random : Random) (cursor : nat) (es : list Event) :
  0 <= innerWidth w -> 0 <= innerHeight w ->
  0 <= particleSpeed (mergeOptions o) ->
  (forall n, 0 <= random n /\ random n < 1) ->
  Forall (sameWindow w) es ->
  let a := fst (run random es (init w random cursor (construct o))) in
  Forall (fun p => within_margin w (Particle.x p) (Particle.y p) /\ -10 <= Particle.y p)
         (particles a)
  /\ Forall (fun k => within_margin w (Sparkle.x k) (Sparkle.y k) /\ -10 <= Sparkle.y k)
            (sparkles a)
  /\ length (particles a) = Z.to_nat (particleCount (mergeOptions o))
  /\ length (sparkles a) = Z.to_nat (sparkleCount (mergeOptions o)).
Proof.
  intros HW HH HS Hr Hes. cbv zeta.
  (* the pools as created *)
  unfold init.
  destruct (createParticles_spec w random cursor (construct o) HW HH HS Hr)
    as (E1 & Hl1 & Hb1 & _).
  destruct (createParticles w random cursor (construct o)) as [a1 c1].
  cbn [fst snd] in *.
  destruct (createSparkles_spec w random c1 a1 HW HH Hr) as (E2 & Hl2 & Hb2 & _).
  destruct (createSparkles w random c1 a1) as [a2 c2]. cbn [fst snd] in *.
  assert (config a2 = mergeOptions o /\ particles a2 = particles a1
          /\ config a1 = mergeOptions o
          /\ velocityMultiplier a2 = 1 /\ scrollVelocity a2 = 0)
    as (Ec2 & Ep & Ec1 & Ev2 & Es2)
    by (rewrite E2, E1; now repeat split).
  rewrite Ec1 in Hl2. rewrite <- Ep in Hl1, Hb1.
  cbn [config construct] in Hl1, Hb1.
  destruct (born_settled w (mergeOptions o)) as [Bp Bs].
  assert (Forall (particle_settled w) (particles a2)) as HP2
    by (eapply Forall_impl; [exact Hb1 | exact Bp]).
  assert (Forall (sparkle_settled w) (sparkles a2)) as HS2
    by (eapply Forall_impl; [exact Hb2 | exact Bs]).
  (* the first frame, run by [init] *)
  destruct (animate_settled w random c2 a2 HW HH Hr ltac:(rewrite Ev2; lra) HP2 HS2)
    as [HP3 HS3].
  pose proof (animate_keeps w random c2 a2) as K. cbv zeta in K.
  destruct K as (_ & Ks & Kv & _ & _ & _ & Kp & Kk).
  destruct (animate w random c2 a2) as [a3 c3]. cbn [fst] in *.
  assert (length (particles a3) = Z.to_nat (particleCount (mergeOptions o))) as L1
    by (rewrite (map_length_eq _ _ _ Kp); exact Hl1).
  assert (length (sparkles a3) = Z.to_nat (sparkleCount (mergeOptions o))) as L2
    by (rewrite (map_length_eq _ _ _ Kk); exact Hl2).
  assert (0 <= scrollVelocity a3 /\ scrollVelocity a3 <= 3
          /\ 0 < velocityMultiplier a3 /\ velocityMultiplier a3 <= 3) as HV
    by (rewrite Ks, Kv, Es2, Ev2; repeat split; lra).
  (* the session *)
  destruct (kinds_run random es a3 c3) as [K1 K2].
  rewrite <- L1, <- L2, (map_length_eq _ _ _ K1), (map_length_eq _ _ _ K2).
  enough (Forall (particle_settled w) (particles (fst (run random es (a3, c3))))
          /\ Forall (sparkle_settled w) (sparkles (fst (run random es (a3, c3)))))
    as [H1 H2].
  { split; [| split; [| now split]].
    - eapply Forall_impl; [exact H1 |]. intros p (? & ? & _). now split.
    - eapply Forall_impl; [exact H2 |]. intros k (? & ? & _). now split. }
  clear - HW HH Hr Hes HP3 HS3 HV.
  revert a3 c3 HP3 HS3 HV.
  induction Hes as [| e es He _ IH]; intros a c HP HS HV; [now split |].
  cbn [run fold_left]. unfold run in IH.
  pose proof (velocity_bounds_handle random e a c HV) as HV'. cbv zeta in HV'.
  assert (Forall (particle_settled w) (particles (fst (handle random e (a, c))))
          /\ Forall (sparkle_settled w) (sparkles (fst (handle random e (a, c)))))
    as [HP' HS'].
  { destruct e; cbn [handle fst snd sameWindow] in *.
    - subst w0. apply animate_settled; try assumption. lra.
    - now split.
    - now split.
    - now split. }
  destruct (handle random e (a, c)) as [a' c']. now apply IH.
Qed.

(** *** The conditional layers *)

(** X22.  When the light rays are painted: not on a newly constructed
    overlay (the opacity starts at 0) and never when [lightRays] is off;
    otherwise after [updateProgress(p)] exactly when [-0.2 < p < 1.2], and
    then at an opacity in (0, 0.7]; for a progress in [0, 1] they are
    always painted, at an opacity of at least 0.2. *)
Theorem light_rays_painted (o : Options) (p : Q) (a : Ambient) :
  drawLightRays (construct o) = None
  /\ (lightRays (config a) = false -> drawLightRays (updateProgress p a) = None)
  /\ (lightRays (config a) = true ->
      (p <= -0.2 \/ 1.2 <= p -> drawLightRays (updateProgress p a) = None)
      /\ (-0.2 < p -> p < 1.2 ->
          exists q, drawLightRays (updateProgress p a) = Some q
                    /\ 0 < q /\ q <= 0.7
                    /\ (0 <= p -> p <= 1 -> 0.2 <= q))).
Proof.
  split; [| split].
  - unfold drawLightRays. cbn [construct lightRayOpacity].
    now rewrite orb_true_r.
  - intros H. unfold drawLightRays, updateProgress. cbn [config]. now rewrite H.
  - intros H. unfold drawLightRays, updateProgress.
    cbn [config lightRayOpacity]. rewrite H. cbn [negb orb].
    set (q := (1 - Math_abs (p - 0.5) * 2) * 0.5 + 0.2).
    assert (q == 0.7 - Math_abs (p - 0.5)) as Eq by (subst q; ring).
    pose proof (Qabs_nonneg (p - 0.5)) as Hn.
    pose proof (Qle_Qabs (p - 0.5)) as Hu.
    pose proof (Qle_Qabs (- (p - 0.5))) as Hl. rewrite Qabs_opp in Hl.
    assert (Math_abs (p - 0.5) == p - 0.5 \/ Math_abs (p - 0.5) == - (p - 0.5)) as Hc.
    { unfold Math_abs. destruct (Qlt_le_dec (p - 0.5) 0).
      - right. apply Qabs_neg. lra.
      - left. now apply Qabs_pos. }
    unfold Math_abs in *.
    split.
    + intros Hp. destruct (Qle_bool q 0) eqn:E; [reflexivity |].
      exfalso. apply not_true_iff_false in E. apply E, Qle_bool_iff.
      destruct Hp, Hc; lra.
    + intros H0 H1. destruct (Qle_bool q 0) eqn:E.
      * exfalso. apply Qle_bool_iff in E. destruct Hc; lra.
      * exists q. split; [reflexivity |].
        split; [destruct Hc; lra |]. split; [lra |].
        intros; destruct Hc; lra.
Qed.

Lemma decay_below (a : Ambient) :
  velocityMultiplier a < 1.2 -> velocityMultiplier (decay a) < 1.2.
Proof.
  intros H. unfold decay. cbn [velocityMultiplier set_velocity].
  destruct (Math_max_spec 1 (velocityMultiplier a * 0.98)) as [[H' ->] | [H' ->]]; lra.
Qed.

Lemma decays_bound (n : nat) (a : Ambient) (bound : Q) :
  velocityMultiplier a <= bound ->
  velocityMultiplier (decays n a)
  <= Math_max 1 (Nat.iter n (fun x => x * 0.98) bound).
Proof.
  intros H. induction n as [| n IH].
  - cbn [decays Nat.iter nat_rect].
    destruct (Math_max_spec 1 bound) as [[H' ->] | [H' ->]]; lra.
  - cbn [decays]. unfold decay at 1. cbn [velocityMultiplier set_velocity].
    change (Nat.iter (S n) (fun x => x * 0.98) bound)
      with (Nat.iter n (fun x => x * 0.98) bound * 0.98).
    set (b := Nat.iter n (fun x => x * 0.98) bound) in *.
    destruct (Math_max_spec 1 b) as [[H1 E1] | [H1 E1]]; rewrite E1 in IH;
      destruct (Math_max_spec 1 (velocityMultiplier (decays n a) * 0.98))
        as [[H2 ->] | [H2 ->]];
      destruct (Math_max_spec 1 (b * 0.98)) as [[H3 ->] | [H3 ->]]; lra.
Qed.

Lemma decays_add (n m : nat) (a : Ambient) :
  decays (n + m) a = decays n (decays m a).
Proof. induction n as [| n IH]; [reflexivity |]. cbn [decays Nat.add]. now rewrite IH. Qed.

(** X23.  The golden burst: it is painted exactly when
    [velocityMultiplier] is at least 1.2, and then with an intensity
    between 0.1 and 0.3; a single scroll event on a player at rest
    (multiplier at most 1) does not paint it unless the page moved by 150
    pixels or more; and once scrolling stops it is gone after at most 46
    ticks of the decay timer, for good until the next scroll event. *)
Theorem golden_burst_fades (y : Q) (n : nat) (a : Ambient) :
  velocityMultiplier a <= 3 ->
  (drawGoldenBurst a = None <-> velocityMultiplier a < 1.2)
  /\ (forall q, drawGoldenBurst a = Some q -> 0.1 <= q /\ q <= 0.3)
  /\ (velocityMultiplier a <= 1 -> Math_abs (y - lastScrollY a) < 150 ->
      drawGoldenBurst (onScroll y a) = None)
  /\ ((46 <= n)%nat -> drawGoldenBurst (decays n a) = None).
Proof.
  intros H3.
  assert (forall b, drawGoldenBurst b = None <-> velocityMultiplier b < 1.2) as Hnone.
  { intros b. unfold drawGoldenBurst.
    destruct (Qltb_reflect (velocityMultiplier b) 1.2); split;
      congruence || tauto. }
  split; [apply Hnone |]. split; [| split].
  - intros q. unfold drawGoldenBurst.
    destruct (Qltb_reflect (velocityMultiplier a) 1.2) as [| Hge]; [discriminate |].
    intros [= <-]. apply Qnot_lt_le in Hge.
    assert ((velocityMultiplier a - 1) / 2 == (velocityMultiplier a - 1) * (1 # 2))
      as E by field.
    destruct (Math_min_spec ((velocityMultiplier a - 1) / 2) 0.3) as [[H ->] | [H ->]];
      split; lra.
  - intros H1 Hd. apply Hnone. unfold onScroll. cbn [velocityMultiplier set_velocity].
    assert (Math_abs (y - lastScrollY a) / 50 < 3) as Hlt
      by (apply Qlt_shift_div_r; [reflexivity | lra]).
    destruct (Math_min_spec (Math_abs (y - lastScrollY a) / 50) 3) as [[H ->] | [H ->]];
      lra.
  - intros Hn. apply Hnone.
    replace n with ((n - 46) + 46)%nat by lia. rewrite decays_add.
    assert (velocityMultiplier (decays 46 a) < 1.2) as H46.
    { pose proof (decays_bound 46 a 3 H3) as Hb.
      assert (Nat.iter 46 (fun x => x * 0.98) 3 < 1.2) as Hc
        by (vm_compute; reflexivity).
      destruct (Math_max_spec 1 (Nat.iter 46 (fun x => x * 0.98) 3))
        as [[H E] | [H E]]; rewrite E in Hb; lra. }
    generalize (n - 46)%nat as m. intros m.
    induction m as [| m IH]; [exact H46 |].
    cbn [Nat.add decays]. now apply decay_below.
Qed.

Lemma golden_burst_fades_witness :
  let a := onScroll 400 (construct Examples.ambientOptions) in
  (drawGoldenBurst a = None <-> velocityMultiplier a < 1.2)
  /\ (forall q, drawGoldenBurst a = Some q -> 0.1 <= q /\ q <= 0.3)
  /\ (velocityMultiplier a <= 1 -> Math_abs (100 - lastScrollY a) < 150 ->
      drawGoldenBurst (onScroll 100 a) = None)
  /\ ((46 <= 50)%nat -> drawGoldenBurst (decays 50 a) = None).
Proof.
  apply (golden_burst_fades 100 50 (onScroll 400 (construct Examples.ambientOptions))).
  vm_compute. discriminate.
Defined.

Lemma created_entities_stay_in_margin_witness :
  let a := fst (run Examples.halves
                    [AnimationFrame Examples.ambientWindow; Scrolled 300; Interval;
                     AnimationFrame Examples.ambientWindow]
                    (init Examples.ambientWindow Examples.halves 0
                          (construct Examples.ambientOptions))) in
  Forall (fun p => within_margin Examples.ambientWindow (Particle.x p) (Particle.y p)
                   /\ -10 <= Particle.y p)
         (particles a)
  /\ Forall (fun k => within_margin Examples.ambientWindow (Sparkle.x k) (Sparkle.y k)
                      /\ -10 <= Sparkle.y k)
            (sparkles a)
  /\ length (particles a) = Z.to_nat (particleCount (mergeOptions Examples.ambientOptions))
  /\ length (sparkles a) = Z.to_nat (sparkleCount (mergeOptions Examples.ambientOptions)).
Proof.
  apply (created_entities_stay_in_margin
           Examples.ambientOptions Examples.ambientWindow Examples.halves 0
           [AnimationFrame Examples.ambientWindow; Scrolled 300; Interval;
            AnimationFrame Examples.ambientWindow]).
  - vm_compute. discriminate.
  - vm_compute. discriminate.
  - vm_compute. discriminate.
  - intros n. split; vm_compute; [discriminate | reflexivity].
  - repeat constructor.
Defined.
End AmbientSession.
